(** * YouTube transcript analysis service: embedding and verified properties

    A shallow embedding of the Python service in [app/utils.py],
    [app/apify_client.py], [app/gemini_rest.py], [app/prompts.py] and
    [app/main.py].

    Conventions.
    - A Python [str] is a [string]; one [ascii] stands for one code point
      below 256, and [len], slicing and [strip] count such characters.
    - A Python object that travels through the untyped parts of the program
      (decoded JSON, the dictionaries the handlers build) is a [pyval];
      a [dict] is an insertion-ordered association list.
    - A raised exception is the [Raise] of [result], carrying [str(e)].
    - Awaited calls to the two external providers are the nodes of a
      [Prog] tree; the event loop interleaves such trees. *)

From Stdlib Require Import ZArith Ascii SpecFloat.
From Stdlib Require String.
From stdpp Require Import base strings pretty gmap list.

Local Set Warnings "-register-all".

Local Open Scope Z_scope.

(** ** Python values

    A [float] is an IEEE 754 double, given by its sign, mantissa and
    exponent. *)

Inductive pyval : Type :=
  | PNone
  | PBool (b : bool)
  | PInt (z : Z)
  | PFloat (f : spec_float)
  | PStr (s : string)
  | PList (l : list pyval)
  | PDict (d : list (string * pyval)).

(** [bool(v)]: the truth value Python's [if], [not] and [or] test. *)
Definition truthy (v : pyval) : bool :=
  match v with
  | PNone => false
  | PBool b => b
  | PInt z => negb (z =? 0)
  | PFloat f => match f with S754_zero _ => false | _ => true end
  | PStr s => negb (String.eqb s "")
  | PList l => match l with [] => false | _ :: _ => true end
  | PDict d => match d with [] => false | _ :: _ => true end
  end.

(** [a or b] *)
Definition por (a b : pyval) : pyval := if truthy a then a else b.

(** [type(v).__name__] *)
Definition type_name (v : pyval) : string :=
  match v with
  | PNone => "NoneType"
  | PBool _ => "bool"
  | PInt _ => "int"
  | PFloat _ => "float"
  | PStr _ => "str"
  | PList _ => "list"
  | PDict _ => "dict"
  end.

(** Lookup in a dict body. The bodies the program builds and the decoded
    JSON objects bind a key once; the first binding is the one read. *)
Fixpoint assoc (k : string) (d : list (string * pyval)) : option pyval :=
  match d with
  | [] => None
  | (k', v) :: d' => if String.eqb k k' then Some v else assoc k d'
  end.

(** [d.get(k, dflt)] on a dict body. *)
Definition get_or (d : list (string * pyval)) (k : string) (dflt : pyval) : pyval :=
  match assoc k d with Some v => v | None => dflt end.

(** [d.get(k)] on a dict body. *)
Definition get (d : list (string * pyval)) (k : string) : pyval := get_or d k PNone.

(** ** Exceptions *)

Inductive result (A : Type) : Type :=
  | Ok (a : A)
  | Raise (msg : string).
Arguments Ok {A} a.
Arguments Raise {A} msg.

(** Sequencing: the first exception raised ends the computation. *)
Global Instance result_bind : MBind result := λ A B f r,
  match r with
  | Ok a => f a
  | Raise msg => Raise msg
  end.

Global Instance result_ret : MRet result := λ A a, Ok a.

(** ** Characters and strings *)

Module Str.

(** The characters [str.strip()] removes and the regular expression class
    [\s] matches, among the code points below 256: TAB..CR, FS..US,
    SPACE, NEL and NBSP. *)
Definition isspace (c : ascii) : bool :=
  let n := N_of_ascii c in
  (((9 <=? n) && (n <=? 13)) || ((28 <=? n) && (n <=? 32))
   || (n =? 133) || (n =? 160))%N.

(** [c.lower()] below 256: A..Z and the capital letters of Latin-1. *)
Definition lower_char (c : ascii) : ascii :=
  let n := N_of_ascii c in
  if (((65 <=? n) && (n <=? 90))
      || ((192 <=? n) && (n <=? 222) && negb (n =? 215)))%N
  then ascii_of_N (n + 32) else c.

Fixpoint lower (s : string) : string :=
  match s with
  | EmptyString => EmptyString
  | String c s' => String (lower_char c) (lower s')
  end.

Fixpoint lstrip (s : string) : string :=
  match s with
  | EmptyString => EmptyString
  | String c s' => if isspace c then lstrip s' else s
  end.

Fixpoint rstrip (s : string) : string :=
  match s with
  | EmptyString => EmptyString
  | String c s' =>
      match rstrip s' with
      | EmptyString => if isspace c then EmptyString else String c EmptyString
      | r => String c r
      end
  end.

Definition strip (s : string) : string := rstrip (lstrip s).

Definition len (s : string) : Z := Z.of_nat (String.length s).

Fixpoint take (n : nat) (s : string) : string :=
  match n, s with
  | S n', String c s' => String c (take n' s')
  | _, _ => EmptyString
  end.

(** [s[:m]] for an integer [m]; a negative bound counts from the end. *)
Definition slice_to (m : Z) (s : string) : string :=
  if 0 <=? m then take (Z.to_nat m) s
  else take (Z.to_nat (len s + m)) s.

(** [s.startswith(p)] *)
Definition startswith (p s : string) : bool := String.prefix p s.

(** [sep.join(l)] *)
Fixpoint join (sep : string) (l : list string) : string :=
  match l with
  | [] => ""
  | [x] => x
  | x :: l' => x +:+ sep +:+ join sep l'
  end.

(** [n] copies of the character [c]. *)
Fixpoint replicate (n : nat) (c : ascii) : string :=
  match n with
  | O => EmptyString
  | S n' => String c (replicate n' c)
  end.

Definition nonempty (s : string) : bool := negb (String.eqb s "").

(** [s.replace(a, b)] for single characters. *)
Fixpoint replace_char (a b : ascii) (s : string) : string :=
  match s with
  | EmptyString => EmptyString
  | String c s' =>
      String (if Ascii.eqb c a then b else c) (replace_char a b s')
  end.

(** [s] without its prefix [p], when [s] starts with [p]; characters are
    compared by [eq]. *)
Fixpoint drop_prefix (eq : ascii → ascii → bool) (p s : string) : option string :=
  match p, s with
  | EmptyString, _ => Some s
  | String a p', String c s' =>
      if eq a c then drop_prefix eq p' s' else None
  | String _ _, EmptyString => None
  end.

(** What follows the first occurrence of [p] in [s]. *)
Fixpoint after_first (eq : ascii → ascii → bool) (p s : string) : option string :=
  match drop_prefix eq p s with
  | Some rest => Some rest
  | None =>
      match s with
      | EmptyString => None
      | String _ s' => after_first eq p s'
      end
  end.

(** What precedes the first occurrence of [p] in [s]. *)
Fixpoint before_first (p s : string) : option string :=
  match drop_prefix Ascii.eqb p s with
  | Some _ => Some EmptyString
  | None =>
      match s with
      | EmptyString => None
      | String c s' => String c <$> before_first p s'
      end
  end.

(** Equality of characters under [re.IGNORECASE]. *)
Definition eqb_nocase (a c : ascii) : bool :=
  Ascii.eqb (lower_char a) (lower_char c).

End Str.

(** ** Regular expressions used by the program

    Each pattern of the source is a one-character class repeated; a match is
    a maximal run of the class, and [re.split] / [re.sub] work run by run. *)

Module Re.

Definition newline : ascii := "010"%char.

(** The class of [r"[\s,\n]+"]. *)
Definition is_url_sep (c : ascii) : bool :=
  Str.isspace c || Ascii.eqb c ","%char || Ascii.eqb c newline.

(** The class of [r"[ \t]+"]. *)
Definition is_blank (c : ascii) : bool :=
  Ascii.eqb c " "%char || Ascii.eqb c "009"%char.

(** [re.split(cls+, s)]. The head of the result is the piece being read;
    [in_run] tells that the previous character belonged to a separator
    run. A string that starts (ends) with a run gets an empty first
    (last) piece, as in Python. *)
Fixpoint split_go (cls : ascii → bool) (in_run : bool) (s : string) : list string :=
  match s with
  | EmptyString => [""]
  | String c s' =>
      if cls c then
        if in_run then split_go cls true s' else "" :: split_go cls true s'
      else
        match split_go cls false s' with
        | p :: ps => String c p :: ps
        | [] => [String c ""]
        end
  end.

Definition split (cls : ascii → bool) (s : string) : list string :=
  split_go cls false s.

(** [re.sub(cls+, r, s)] for a one-character replacement [r]. *)
Fixpoint sub_runs (cls : ascii → bool) (r : ascii) (in_run : bool) (s : string) : string :=
  match s with
  | EmptyString => EmptyString
  | String c s' =>
      if cls c then
        if in_run then sub_runs cls r true s'
        else String r (sub_runs cls r true s')
      else String c (sub_runs cls r false s')
  end.

(** [re.sub(r"\n{3,}", "\n\n", s)]: [run] counts the newlines of the run
    being read; a run of three or more is written back as two, a shorter
    one unchanged. *)
Fixpoint sub_newlines (run : nat) (s : string) : string :=
  match s with
  | EmptyString => Str.replicate (Nat.min run 2) newline
  | String c s' =>
      if Ascii.eqb c newline then sub_newlines (S run) s'
      else Str.replicate (Nat.min run 2) newline
             +:+ String c (sub_newlines 0 s')
  end.

End Re.

(** The string ["\n"]. *)
Definition nl : string := String Re.newline EmptyString.

(** ** The Python runtime

    What the program takes from the interpreter and its standard library
    without inspecting it: [py_repr] is [repr] on floats, lists and dicts;
    [slice_error v] is the text of the exception that [v[:n]] raises on a
    value that is neither a [str] nor a [list]; [json_loads] is
    [json.loads] ([None] when it raises) and [json_dumps] is
    [json.dumps(_, ensure_ascii=False)]. *)

Class Runtime := {
  py_repr : pyval → string;
  slice_error : pyval → string;
  json_loads : string → option pyval;
  json_dumps : pyval → result string;
}.

Section Utils.

Context `{Runtime}.

(** [str(v)] *)
Definition py_str (v : pyval) : string :=
  match v with
  | PStr s => s
  | PNone => "None"
  | PBool true => "True"
  | PBool false => "False"
  | PInt z => pretty z
  | PFloat _ | PList _ | PDict _ => py_repr v
  end.

(** ** app/utils.py *)

(** The first loop of [normalize_urls]: the [str] of every truthy entry. *)
Fixpoint raw_entries (urls : list pyval) : list string :=
  match urls with
  | [] => []
  | u :: rest =>
      if truthy u then py_str u :: raw_entries rest else raw_entries rest
  end.

(** The second loop: non-empty pieces, stripped, with an http(s) prefix. *)
Fixpoint cleaned_parts (parts : list string) : list string :=
  match parts with
  | [] => []
  | p :: rest =>
      if Str.nonempty p then
        let p' := Str.strip p in
        if Str.startswith "http://" p' || Str.startswith "https://" p'
        then p' :: cleaned_parts rest
        else cleaned_parts rest
      else cleaned_parts rest
  end.

(** The de-duplication loop, with its [seen] set. *)
Fixpoint dedupe (seen : gset string) (l : list string) : list string :=
  match l with
  | [] => []
  | u :: rest =>
      if decide (u ∈ seen) then dedupe seen rest
      else u :: dedupe ({[u]} ∪ seen) rest
  end.

Definition normalize_urls (urls : pyval) : list string :=
  match urls with
  | PNone => []
  | _ =>
      let joined :=
        match urls with
        | PList l => Str.join nl (raw_entries l)
        | _ => py_str urls
        end in
      let parts := Re.split Re.is_url_sep (Str.strip joined) in
      let cleaned := cleaned_parts parts in
      dedupe ∅ cleaned
  end.

(** The first loop of [pick_language_priority]. *)
Fixpoint language_entries (languages : list string) : list string :=
  match languages with
  | [] => []
  | x :: rest =>
      let s := Str.lower (Str.strip x) in
      if Str.nonempty s then s :: language_entries rest
      else language_entries rest
  end.

Definition pick_language_priority (languages : option (list string)) : list string :=
  match languages with
  | None | Some [] => ["ko"; "en"]
  | Some l =>
      match dedupe ∅ (language_entries l) with
      | [] => ["ko"; "en"]
      | uniq => uniq
      end
  end.

Definition compact_text (text : pyval) (max_chars : Z) : string :=
  if truthy text then
    let t := py_str text in
    let t := Re.sub_runs Re.is_blank " "%char false t in
    let t := Re.sub_newlines 0 t in
    if negb (max_chars =? 0) && (max_chars <? Str.len t)
    then Str.slice_to max_chars t
    else t
  else "".

(** The loop of [segments_to_text]. *)
Fixpoint segment_texts (segments : list pyval) : list string :=
  match segments with
  | [] => []
  | seg :: rest =>
      match seg with
      | PDict d =>
          let txt := por (por (por (get d "text") (get d "caption"))
                              (get d "value")) (PStr "") in
          if truthy txt then py_str txt :: segment_texts rest
          else segment_texts rest
      | PStr s => s :: segment_texts rest
      | _ => segment_texts rest
      end
  end.

Definition segments_to_text (segments : pyval) (max_chars : Z) : string :=
  match segments with
  | PList ((_ :: _) as l) =>
      let joined := Str.strip (Str.join nl (segment_texts l)) in
      if Str.nonempty joined then
        compact_text (PStr joined)
          (if negb (max_chars =? 0) then max_chars else Str.len joined)
      else ""
  | _ => ""
  end.

End Utils.


(** ** Awaited calls

    The program reaches the outside world in two places: the HTTP POST of
    [httpx.AsyncClient.post] and [client.models.generate_content] of the
    generation SDK. A coroutine is a tree whose nodes are these calls. *)

(** The arguments of [client.post(endpoint, params=params, json=payload)]
    on a client built with [timeout=timeout_sec]. *)
Record HttpRequest := {
  http_endpoint : string;
  http_params : list (string * string);
  http_json : pyval;
  http_timeout : spec_float;
}.

(** What the POST gives: an exception ([str(e)]), or a response with its
    [status_code], its [text] and what [r.json()] returns or raises. *)
Inductive HttpOutcome :=
  | HttpRaised (msg : string)
  | HttpResponse (status_code : Z) (text : string) (json : result pyval).

(** The client of [_get_client] and the arguments of [generate_content].
    The SDK call takes an optional generation config; [gen_max_output_tokens]
    is the output-token ceiling of that config, [None] when the call passes
    none. *)
Record GenRequest := {
  gen_vertexai : bool;
  gen_project : string;
  gen_location : string;
  gen_model : string;
  gen_contents : string;
  gen_max_output_tokens : option Z;
}.

(** What the generation call gives: an exception, or a response whose
    [.text] may be [None]. *)
Inductive GenOutcome :=
  | GenRaised (msg : string)
  | GenResponse (text : option string).

Inductive Prog (A : Type) : Type :=
  | Ret (a : A)
  | Post (rq : HttpRequest) (k : HttpOutcome → Prog A)
  | Generate (rq : GenRequest) (k : GenOutcome → Prog A).
Arguments Ret {A} a.
Arguments Post {A} rq k.
Arguments Generate {A} rq k.

Fixpoint prog_bind {A B} (f : A → Prog B) (p : Prog A) : Prog B :=
  match p with
  | Ret a => f a
  | Post rq k => Post rq (λ o, prog_bind f (k o))
  | Generate rq k => Generate rq (λ o, prog_bind f (k o))
  end.

Global Instance Prog_bind : MBind Prog := @prog_bind.
Global Instance Prog_ret : MRet Prog := @Ret.

(** The external providers: a state and the answer to each call. *)
Class Providers := {
  World : Type;
  http_post : World → HttpRequest → HttpOutcome * World;
  generate_content : World → GenRequest → GenOutcome * World;
}.

(** One call with its answer, as a run records it. *)
Inductive Event :=
  | EvPost (rq : HttpRequest) (o : HttpOutcome)
  | EvGenerate (rq : GenRequest) (o : GenOutcome).

(** Running one coroutine to its end against the providers; the log lists
    the calls in the order they were made. *)
Fixpoint run `{Providers} {A} (p : Prog A) (w : World) : list Event * A * World :=
  match p with
  | Ret a => ([], a, w)
  | Post rq k =>
      let '(o, w1) := http_post w rq in
      let '(log, a, w2) := run (k o) w1 in
      (EvPost rq o :: log, a, w2)
  | Generate rq k =>
      let '(o, w1) := generate_content w rq in
      let '(log, a, w2) := run (k o) w1 in
      (EvGenerate rq o :: log, a, w2)
  end.

(** The generation calls of a log. *)
Fixpoint generate_calls (log : list Event) : list (GenRequest * GenOutcome) :=
  match log with
  | [] => []
  | EvGenerate rq o :: log' => (rq, o) :: generate_calls log'
  | EvPost _ _ :: log' => generate_calls log'
  end.

(** ** Configuration: the environment variables read when the modules load *)

Class Config := {
  APIFY_TIMEOUT_SEC : spec_float;
  MAX_TRANSCRIPT_CHARS : Z;
  APIFY_TOKEN : string;
  LOCATION : string;
  MODEL : string;
  GOOGLE_CLOUD_PROJECT : option string;
  GCP_PROJECT : option string;
  PROJECT_ID : option string;
}.

(** [a or b] on the results of [os.getenv]. *)
Definition env_or (a b : option string) : option string :=
  match a with
  | Some s => if Str.nonempty s then a else b
  | None => b
  end.

(** ** app/prompts.py

    The fixed instruction text of the three templates is kept as given
    strings; the places where arguments are spliced in are as in the
    source. [video_prompt_intro] runs from the opening newline to the first
    [{index}], [video_prompt_schema] from there to the second [{index}];
    [profile_prompt_intro] and [repair_prompt_intro] run from the opening
    newline to the first argument of their template. *)

Class Templates := {
  video_prompt_intro : string;
  video_prompt_schema : string;
  profile_prompt_intro : string;
  repair_prompt_intro : string;
}.

Section Prompts.

Context `{Runtime} `{Templates}.

(** [v[:n]] for a bound [n] that is not negative. *)
Definition slice_val (v : pyval) (n : Z) : result pyval :=
  match v with
  | PStr s => Ok (PStr (Str.slice_to n s))
  | PList l => Ok (PList (take (Z.to_nat n) l))
  | _ => Raise (slice_error v)
  end.

Definition build_video_analysis_prompt
    (index : Z) (title description : pyval) (transcript_text : string)
    : result string :=
  d ← slice_val (por description (PStr "")) 250;
  Ok (Str.strip
        (video_prompt_intro +:+ pretty index
         +:+ video_prompt_schema +:+ pretty index +:+ nl
         +:+ "- title: " +:+ py_str title +:+ nl
         +:+ "- description: " +:+ py_str d +:+ nl
         +:+ nl
         +:+ "[transcript_text]" +:+ nl
         +:+ transcript_text +:+ nl)).

Definition build_channel_profile_prompt (analyses_json : string) : string :=
  Str.strip (profile_prompt_intro +:+ analyses_json +:+ nl).

Definition build_json_repair_prompt (schema_name raw_text : string) : string :=
  Str.strip
    (repair_prompt_intro +:+ schema_name +:+ nl
     +:+ nl
     +:+ "[raw_output]" +:+ nl
     +:+ raw_text +:+ nl).

End Prompts.

(** ** app/apify_client.py *)

Section ApifyClient.

Definition _actor_endpoint (actor_id : string) : string :=
  let actor_id := Str.replace_char "/"%char "~"%char actor_id in
  "https://api.apify.com/v2/acts/" +:+ actor_id
    +:+ "/run-sync-get-dataset-items".

(** The part of [fetch_transcript_and_metadata] after the POST: status
    check, shape of the payload, and the standardized record. *)
Definition standardize (language : string) (o : HttpOutcome)
    : result (list (string * pyval)) :=
  match o with
  | HttpRaised msg => Raise msg
  | HttpResponse status_code text json =>
      if 400 <=? status_code
      then Raise ("Apify HTTP " +:+ pretty status_code +:+ ": " +:+ text)
      else
        data ← json;
        item ← match data with
               | PList (PDict d :: _) => Ok d
               | PDict d => Ok d
               | _ => Raise ("Apify returned unexpected payload: <class '"
                             +:+ type_name data +:+ "'>")
               end;
        let transcript :=
          por (por (get item "transcript") (get item "captions"))
              (get item "segments") in
        let transcript_text :=
          por (por (por (get item "transcript_text") (get item "transcriptText"))
                   (get item "text")) (PStr "") in
        Ok [ ("title", por (get item "title") (PStr ""));
             ("description", por (get item "description") (PStr ""));
             ("channel_name",
               por (por (por (get item "channel_name") (get item "channelName"))
                        (get item "channel")) (PStr ""));
             ("published_at",
               por (por (get item "published_at") (get item "publishedAt"))
                   (PStr ""));
             ("duration_seconds",
               por (por (get item "duration_seconds") (get item "duration")) PNone);
             ("view_count",
               por (por (get item "view_count") (get item "views")) PNone);
             ("like_count",
               por (por (get item "like_count") (get item "likes")) PNone);
             ("comment_count",
               por (por (get item "comment_count") (get item "commentsCount")) PNone);
             ("language", por (get item "language") (PStr language));
             ("transcript", if truthy transcript then transcript else PList []);
             ("transcript_text",
               match transcript_text with
               | PStr _ => transcript_text
               | _ => PStr ""
               end);
             ("raw", PDict item) ]
  end.

Definition fetch_transcript_and_metadata
    (youtube_url language : string) (timeout_sec : spec_float)
    (token actor_id : string) : Prog (result (list (string * pyval))) :=
  if negb (Str.nonempty token) then Ret (Raise "APIFY_TOKEN is missing")
  else
    let endpoint := _actor_endpoint actor_id in
    let params := [("token", token); ("format", "json")] in
    let payload :=
      PDict [ ("youtube_url", PStr youtube_url);
              ("language", PStr language);
              ("include_transcript_text", PBool true) ] in
    Post {| http_endpoint := endpoint; http_params := params;
            http_json := payload; http_timeout := timeout_sec |}
         (λ o, Ret (standardize language o)).

End ApifyClient.

(** ** app/gemini_rest.py *)

Section GeminiRest.

Context `{Config}.

(** [_get_client]: the project is looked up in three variables; without
    one the call raises before reaching the provider. The client is
    cached in a module global; as the environment does not change, the
    cached client is the one this function describes. Errors of the
    SDK constructor surface with the call, as a [GenRaised]. *)
Definition _get_client : result (bool * string * string) :=
  match env_or (env_or GOOGLE_CLOUD_PROJECT GCP_PROJECT) PROJECT_ID with
  | Some project =>
      if Str.nonempty project then Ok (true, project, LOCATION)
      else Raise "Missing GOOGLE_CLOUD_PROJECT (or GCP_PROJECT/PROJECT_ID) env var"
  | None => Raise "Missing GOOGLE_CLOUD_PROJECT (or GCP_PROJECT/PROJECT_ID) env var"
  end.

(** [analyze_with_gemini(prompt, max_output_tokens)]. The body of the
    source passes [model] and [contents] to [generate_content] and
    nothing else; [max_output_tokens] is not used. *)
Definition analyze_with_gemini (prompt : string) (max_output_tokens : Z)
    : Prog (result (list (string * pyval))) :=
  match _get_client with
  | Raise msg => Ret (Raise msg)
  | Ok (vertexai, project, location) =>
      Generate {| gen_vertexai := vertexai; gen_project := project;
                  gen_location := location;
                  gen_model := MODEL; gen_contents := prompt;
                  gen_max_output_tokens := None |}
        (λ o, Ret match o with
                  | GenRaised msg => Raise msg
                  | GenResponse text =>
                      Ok [ ("ok", PBool true);
                           ("model", PStr MODEL);
                           ("text", PStr (Str.strip (default "" text))) ]
                  end)
  end.

End GeminiRest.

(** ** app/main.py *)

(** The validated request body ([AnalyzeReq]); validation bounds
    [concurrency] to 1..20. *)
Record AnalyzeReq := {
  urls : list string;
  languages : list string;
  concurrency : Z;
  make_channel_profile : bool;
}.

Definition valid_req (req : AnalyzeReq) : Prop :=
  1 ≤ concurrency req ≤ 20.

(** How a handler ends: with the document it returns, with the
    [HTTPException] it raises, with an exception nothing catches, or not
    at all. *)
Inductive Outcome :=
  | Returned (doc : list (string * pyval))
  | HTTPException (status_code : Z) (detail : string)
  | Uncaught (msg : string)
  | Pending.

Section Main.

Context `{Runtime} `{Templates} `{Config}.

Definition fence : string := "```".

(** [re.search(r"```json\s*([\s\S]*?)```", t, re.IGNORECASE)] and
    [re.search(r"```\s*([\s\S]*?)```", t)]: the group of the match.
    The match starts at the first opening fence; [\s*] takes the
    whitespace after it and the lazy group stops at the next fence. *)
Definition search_fenced (eq : ascii → ascii → bool) (label : string) (t : string)
    : option string :=
  rest ← Str.after_first eq (fence +:+ label) t;
  Str.before_first fence (Str.lstrip rest).

Definition _extract_json_from_text (text : string) : pyval :=
  if negb (Str.nonempty text) then PNone
  else
    let t := Str.strip text in
    let t :=
      match Str.after_first Ascii.eqb fence t with
      | Some _ =>
          match search_fenced Str.eqb_nocase "json" t with
          | Some g => Str.strip g
          | None =>
              match search_fenced Ascii.eqb "" t with
              | Some g => Str.strip g
              | None => t
              end
          end
      | None => t
      end in
    match json_loads t with
    | Some v => v
    | None => PNone
    end.

(** [v is None] *)
Definition is_none (v : pyval) : bool :=
  match v with PNone => true | _ => false end.

(** [v.strip()] *)
Definition py_strip (v : pyval) : result string :=
  match v with
  | PStr s => Ok (Str.strip s)
  | _ => Raise ("'" +:+ type_name v +:+ "' object has no attribute 'strip'")
  end.

(** [v.get(k)] on an object that need not be a dict. *)
Definition py_get (v : pyval) (k : string) : result pyval :=
  match v with
  | PDict d => Ok (get d k)
  | _ => Raise ("'" +:+ type_name v +:+ "' object has no attribute 'get'")
  end.

(** The language loop of [_process_one], with its two variables. *)
Fixpoint fetch_loop (url : string) (lang_priority : list string)
    (apify_data : option (list (string * pyval))) (apify_error : option string)
    : Prog (option (list (string * pyval)) * option string) :=
  match lang_priority with
  | [] => Ret (apify_data, apify_error)
  | lang :: rest =>
      r ← fetch_transcript_and_metadata url lang APIFY_TIMEOUT_SEC APIFY_TOKEN
            "starvibe~youtube-video-transcript";
      match r with
      | Ok data => Ret (Some data, None)
      | Raise e => fetch_loop url rest None (Some e)
      end
  end.

(** The body of the [try] of step 3. It ends with the value of
    [analysis_text] at that point and with [Raise] when an exception
    left the block. *)
Definition analysis_try (idx : Z) (meta : list (string * pyval))
    (transcript_text : string) : Prog (string * result unit) :=
  let analysis_text := "" in
  match
    description ← slice_val (por (get_or meta "description" (PStr "")) (PStr "")) 300;
    build_video_analysis_prompt idx (get_or meta "title" (PStr ""))
      description transcript_text
  with
  | Raise e => Ret (analysis_text, Raise e)
  | Ok prompt =>
      first ← analyze_with_gemini prompt 2048;
      match first with
      | Raise e => Ret (analysis_text, Raise e)
      | Ok first =>
          match py_strip (por (get first "text") (PStr "")) with
          | Raise e => Ret (analysis_text, Raise e)
          | Ok analysis_text =>
              let parsed := _extract_json_from_text analysis_text in
              if is_none parsed then
                let repair_prompt :=
                  build_json_repair_prompt "video_analysis"
                    (Str.slice_to 6000 analysis_text) in
                second ← analyze_with_gemini repair_prompt 2048;
                match second with
                | Raise e => Ret (analysis_text, Raise e)
                | Ok second =>
                    match py_strip (por (get second "text") (PStr "")) with
                    | Raise e => Ret (analysis_text, Raise e)
                    | Ok analysis_text =>
                        let parsed2 := _extract_json_from_text analysis_text in
                        if is_none parsed2
                        then Ret (analysis_text,
                                  Raise "Gemini output is not valid JSON even after repair")
                        else Ret (analysis_text, Ok ())
                    end
                end
              else Ret (analysis_text, Ok ())
          end
      end
  end.

(** The body of [_process_one] inside [async with sem]; the semaphore is
    taken and given back by the event loop below. *)
Definition _process_one (idx : Z) (url : string) (lang_priority : list string)
    : Prog (list (string * pyval)) :=
  '(apify_data, apify_error) ← fetch_loop url lang_priority None None;
  match apify_data with
  | Some ((_ :: _) as apify_data) =>
      let transcript_text :=
        compact_text (por (get apify_data "transcript_text") (PStr ""))
          MAX_TRANSCRIPT_CHARS in
      let transcript_text :=
        if Str.nonempty transcript_text then transcript_text
        else segments_to_text (get apify_data "transcript") MAX_TRANSCRIPT_CHARS in
      if negb (Str.nonempty transcript_text) then
        Ret [ ("index", PInt idx);
              ("url", PStr url);
              ("ok", PBool false);
              ("stage", PStr "transcript");
              ("meta", PDict
                 [ ("title", get_or apify_data "title" (PStr ""));
                   ("channel", get_or apify_data "channel_name" (PStr ""));
                   ("published_at", get_or apify_data "published_at" (PStr ""));
                   ("language", get apify_data "language") ]);
              ("error", PStr "NO_TRANSCRIPT_RETURNED_BY_APIFY") ]
      else
        let meta :=
          [ ("title", get_or apify_data "title" (PStr ""));
            ("description", get_or apify_data "description" (PStr ""));
            ("channel", get_or apify_data "channel_name" (PStr ""));
            ("published_at", get_or apify_data "published_at" (PStr ""));
            ("duration_seconds", get apify_data "duration_seconds");
            ("view_count", get apify_data "view_count");
            ("like_count", get apify_data "like_count");
            ("comment_count", get apify_data "comment_count");
            ("language", get apify_data "language") ] in
        '(analysis_text, r) ← analysis_try idx meta transcript_text;
        let analysis :=
          match r with
          | Ok _ => [ ("ok", PBool true); ("text", PStr analysis_text) ]
          | Raise e =>
              [ ("ok", PBool false); ("error", PStr e);
                ("text", PStr (Str.slice_to 1200 analysis_text)) ]
          end in
        Ret [ ("index", PInt idx);
              ("url", PStr url);
              ("ok", PBool true);
              ("meta", PDict meta);
              ("transcript_chars", PInt (Str.len transcript_text));
              ("videoAnalysis", PDict analysis) ]
  | _ =>
      Ret [ ("index", PInt idx);
            ("url", PStr url);
            ("ok", PBool false);
            ("stage", PStr "apify");
            ("error", PStr match apify_error with
                           | Some e => if Str.nonempty e then e else "Apify failed"
                           | None => "Apify failed"
                           end) ]
  end.

(** [v is False] and [v is True] *)
Definition is_False (v : pyval) : bool :=
  match v with PBool false => true | _ => false end.
Definition is_True (v : pyval) : bool :=
  match v with PBool true => true | _ => false end.

Fixpoint _build_warnings (videos : list (list (string * pyval)))
    : list (list (string * pyval)) :=
  match videos with
  | [] => []
  | v :: rest =>
      if negb (truthy (get v "ok")) then
        [ ("index", get v "index"); ("url", get v "url");
          ("stage", get v "stage"); ("error", get v "error") ]
        :: _build_warnings rest
      else
        match por (get v "videoAnalysis") (PDict []) with
        | PDict va =>
            if is_False (get va "ok") then
              [ ("index", get v "index"); ("url", get v "url");
                ("stage", PStr "gemini_video_analysis");
                ("error", get va "error") ]
              :: _build_warnings rest
            else _build_warnings rest
        | _ => _build_warnings rest
        end
  end.

(** The reduced record built from a parsed analysis. Each sub-object is
    read with [.get], which raises on a value that is not a dict. *)
Definition slim_of_parsed (parsed : list (string * pyval)) : result pyval :=
  let hook := por (get parsed "hook") (PDict []) in
  let structure := por (get parsed "structure") (PDict []) in
  let style_tone := por (get parsed "style_tone") (PDict []) in
  let expression_markers := por (get parsed "expression_markers") (PDict []) in
  let retention := por (get parsed "retention") (PDict []) in
  let quotes := por (get parsed "quotes") (PDict [("items", PList [])]) in
  hook_summary ← py_get hook "summary";
  hook_techniques ← py_get hook "techniques";
  hook_frames ← py_get hook "frames";
  structure_template ← py_get structure "template";
  structure_beats ← py_get structure "beats";
  structure_pacing ← py_get structure "pacing";
  persona ← py_get style_tone "persona";
  narration_style ← py_get style_tone "narration_style";
  tone_keywords ← py_get style_tone "tone_keywords";
  punctuation ← py_get expression_markers "punctuation";
  catchphrases ← py_get expression_markers "catchphrases";
  rhythm ← py_get expression_markers "rhythm";
  numbers_style ← py_get expression_markers "numbers_style";
  recurring_devices ← py_get retention "recurring_devices";
  cta ← py_get retention "cta";
  Ok (PDict
    [ ("video_index", get parsed "video_index");
      ("hook", PDict
         [ ("summary", hook_summary);
           ("techniques", por hook_techniques (PList []));
           ("frames", por hook_frames (PList [])) ]);
      ("structure", PDict
         [ ("template", structure_template);
           ("beats", por structure_beats (PList []));
           ("pacing", structure_pacing) ]);
      ("style_tone", PDict
         [ ("persona", persona);
           ("narration_style", narration_style);
           ("tone_keywords", por tone_keywords (PList [])) ]);
      ("expression_markers", PDict
         [ ("punctuation", por punctuation (PList []));
           ("catchphrases", por catchphrases (PList []));
           ("rhythm", rhythm);
           ("numbers_style", numbers_style) ]);
      ("retention", PDict
         [ ("recurring_devices", por recurring_devices (PList []));
           ("cta", cta) ]);
      ("quotes", quotes) ]).

(** [(v.get("meta") or {}).get(k, "")] *)
Definition meta_get (v : list (string * pyval)) (k : string) : result pyval :=
  match por (get v "meta") (PDict []) with
  | PDict m => Ok (get_or m k (PStr ""))
  | m => Raise ("'" +:+ type_name m +:+ "' object has no attribute 'get'")
  end.

(** The loop of [_analyze_impl] that collects [analyses]. It runs outside
    any [try]: an exception raised here leaves the handler. *)
Fixpoint collect_analyses (videos : list (list (string * pyval)))
    : result (list pyval) :=
  match videos with
  | [] => Ok []
  | v :: rest =>
      if negb (truthy (get v "ok")) then collect_analyses rest
      else
        match get v "videoAnalysis" with
        | PDict va =>
            if is_False (get va "ok") then collect_analyses rest
            else
              text ← py_strip (por (get va "text") (PStr ""));
              let parsed := _extract_json_from_text text in
              slim ← match parsed with
                     | PDict p =>
                         if is_True (get p "ok") then slim_of_parsed p
                         else Ok (PDict [("raw_text", PStr (Str.slice_to 1200 text))])
                     | _ => Ok (PDict [("raw_text", PStr (Str.slice_to 1200 text))])
                     end;
              title ← meta_get v "title";
              channel ← meta_get v "channel";
              published_at ← meta_get v "published_at";
              language ← meta_get v "language";
              others ← collect_analyses rest;
              Ok (PDict
                    [ ("index", get v "index");
                      ("url", por (get v "url") (PStr ""));
                      ("meta", PDict
                         [ ("title", title);
                           ("channel", channel);
                           ("published_at", published_at);
                           ("language", language) ]);
                      ("dna", slim) ]
                  :: others)
        | _ => collect_analyses rest
        end
  end.

(** The [if analyses: ... else: ...] of [_analyze_impl]. *)
Definition synthesize (analyses : list pyval) : Prog (list (string * pyval)) :=
  match analyses with
  | _ :: _ =>
      match json_dumps (PList analyses) with
      | Raise e => Ret [ ("ok", PBool false); ("error", PStr e) ]
      | Ok analyses_json =>
          let prompt := build_channel_profile_prompt analyses_json in
          r ← analyze_with_gemini prompt 2048;
          match r with
          | Ok channel_profile => Ret channel_profile
          | Raise e => Ret [ ("ok", PBool false); ("error", PStr e) ]
          end
      end
  | [] =>
      Ret [ ("ok", PBool false);
            ("error", PStr "No valid per-video analyses to build channel profile") ]
  end.

(** The tasks [_analyze_impl] hands to [asyncio.gather]:
    [_process_one(i + 1, u, ...)] for [i, u] in [enumerate(urls)]. *)
Definition tasks_of (us : list string) (lang_priority : list string)
    : list (Prog (list (string * pyval))) :=
  imap (λ i u, _process_one (Z.of_nat i + 1) u lang_priority) us.

(** The document [_analyze_impl] returns. *)
Definition response_document (videos : list (list (string * pyval)))
    (channel_profile : pyval) : list (string * pyval) :=
  [ ("ok", PBool true);
    ("count", PInt (Z.of_nat (length videos)));
    ("videos", PList (PDict <$> videos));
    ("channelProfile", channel_profile);
    ("warnings", PList (PDict <$> _build_warnings videos)) ].

(** The part of [_analyze_impl] after the gather; [channel_profile]
    stays [None] when the flag is off. *)
Definition finish (req : AnalyzeReq) (videos : list (list (string * pyval)))
    : Prog Outcome :=
  if make_channel_profile req then
    match collect_analyses videos with
    | Raise e => Ret (Uncaught e)
    | Ok analyses =>
        channel_profile ← synthesize analyses;
        Ret (Returned (response_document videos (PDict channel_profile)))
    end
  else Ret (Returned (response_document videos PNone)).

End Main.

(** ** The event loop: [asyncio.gather] under [asyncio.Semaphore]

    Each task is one [_process_one] coroutine. It waits for the semaphore,
    runs from one awaited call to the next while holding it, and gives it
    back when it returns ([async with sem]). [gather] keeps one slot per
    task, in the order the tasks were passed, and fills a slot when its
    task returns. *)

Inductive Task (A : Type) : Type :=
  | Waiting (p : Prog A)
  | Running (p : Prog A)
  | Done (r : A).
Arguments Waiting {A} p.
Arguments Running {A} p.
Arguments Done {A} r.

Section EventLoop.

Context `{Providers} {A : Type}.

Record Loop := {
  permits : Z;
  slots : list (Task A);
  world : World;
}.

(** The loop resumes task [i]: a waiting task enters when a permit is
    free, a running task makes its next call and receives the answer, or
    returns and frees its permit. Resuming a blocked or finished task,
    or a task that does not exist, changes nothing. *)
Definition resume (st : Loop) (i : nat) : Loop :=
  match slots st !! i with
  | Some (Waiting p) =>
      if 0 <? permits st
      then {| permits := permits st - 1;
              slots := <[i := Running p]> (slots st);
              world := world st |}
      else st
  | Some (Running (Ret r)) =>
      {| permits := permits st + 1;
         slots := <[i := Done r]> (slots st);
         world := world st |}
  | Some (Running (Post rq k)) =>
      let '(o, w) := http_post (world st) rq in
      {| permits := permits st;
         slots := <[i := Running (k o)]> (slots st);
         world := w |}
  | Some (Running (Generate rq k)) =>
      let '(o, w) := generate_content (world st) rq in
      {| permits := permits st;
         slots := <[i := Running (k o)]> (slots st);
         world := w |}
  | Some (Done _) | None => st
  end.

(** Letting every task that satisfies [pick] run to its end, slot by
    slot. *)
Fixpoint settle (pick : Task A → bool) (ts : list (Task A)) (w : World)
    : list (Task A) * World :=
  match ts with
  | [] => ([], w)
  | t :: ts' =>
      let '(t1, w1) :=
        match t with
        | Waiting p | Running p =>
            if pick t then let '(_, r, w1) := run p w in (Done r, w1)
            else (t, w)
        | Done _ => (t, w)
        end in
      let '(ts1, w2) := settle pick ts' w1 in
      (t1 :: ts1, w2)
  end.

Definition is_running (t : Task A) : bool :=
  match t with Running _ => true | _ => false end.

Definition is_waiting (t : Task A) : bool :=
  match t with Waiting _ => true | _ => false end.

(** The results in slot order; a slot without result contributes none. *)
Fixpoint results (ts : list (Task A)) : list A :=
  match ts with
  | [] => []
  | Done r :: ts' => r :: results ts'
  | _ :: ts' => results ts'
  end.

(** [await asyncio.gather] of the tasks, with a semaphore of [n] permits,
    [n] at least 1. [sched] lists which task the loop resumes at each
    step; when it is used up, the tasks holding a permit finish first and
    the waiting ones follow, one at a time. *)
Definition gather (n : Z) (sched : list nat) (tasks : list (Prog A)) (w : World)
    : list A * World :=
  let st := foldl resume {| permits := n; slots := Waiting <$> tasks; world := w |}
              sched in
  let '(ts1, w1) := settle is_running (slots st) (world st) in
  let '(ts2, w2) := settle is_waiting ts1 w1 in
  (results ts2, w2).

End EventLoop.

Section Handler.

Context `{Runtime} `{Templates} `{Config} `{Providers}.

(** [normalize_urls(req.urls)] *)
Definition request_urls (req : AnalyzeReq) : list string :=
  normalize_urls (PList (PStr <$> urls req)).

(** The list [videos] of [_analyze_impl], for the normalized [us]. *)
Definition gather_videos (req : AnalyzeReq) (us : list string)
    (sched : list nat) (w : World) : list (list (string * pyval)) * World :=
  let lang_priority := pick_language_priority (Some (languages req)) in
  gather (concurrency req) sched (tasks_of us lang_priority) w.

(** [_analyze_impl]. [asyncio.Semaphore(n)] raises on a negative [n]; with
    [n = 0] no task ever enters and the gather never completes. *)
Definition _analyze_impl (req : AnalyzeReq) (sched : list nat) (w : World)
    : Outcome * World :=
  let us := request_urls req in
  match us with
  | [] => (HTTPException 400 "urls is empty", w)
  | _ :: _ =>
      if concurrency req <? 0
      then (Uncaught "Semaphore initial value must be >= 0", w)
      else if concurrency req =? 0 then (Pending, w)
      else
        let '(videos, w1) := gather_videos req us sched w in
        let '(_, out, w2) := run (finish req videos) w1 in
        (out, w2)
  end.

End Handler.

(** ** Vocabulary of the statements *)

(** Every character of [s] satisfies [P]. *)
Fixpoint all_chars (P : ascii → bool) (s : string) : bool :=
  match s with
  | EmptyString => true
  | String c s' => P c && all_chars P s'
  end.

Definition no_sep (s : string) : bool :=
  all_chars (λ c, negb (Re.is_url_sep c)) s.

(** What [normalize_urls] keeps: a non-empty piece without separator that
    starts with one of the two prefixes. *)
Definition url_token (s : string) : Prop :=
  Str.nonempty s = true ∧ no_sep s = true
  ∧ Str.startswith "http://" s || Str.startswith "https://" s = true.

(** [leaf p a]: the coroutine [p] can return [a], for some answers to
    its calls. *)
Inductive leaf {A} : Prog A → A → Prop :=
  | leaf_ret a : leaf (Ret a) a
  | leaf_post rq k o a : leaf (k o) a → leaf (Post rq k) a
  | leaf_generate rq k o a : leaf (k o) a → leaf (Generate rq k) a.

(** What a slot can still return. *)
Definition may_return {A} (t : Task A) (a : A) : Prop :=
  match t with
  | Waiting p | Running p => leaf p a
  | Done r => r = a
  end.

(** [t'] is a later state of the task [t]. *)
Definition later {A} (t t' : Task A) : Prop :=
  ∀ a, may_return t' a → may_return t a.

(** The number of tasks that hold a permit of the semaphore. *)
Fixpoint holding {A} (ts : list (Task A)) : Z :=
  match ts with
  | [] => 0
  | t :: ts' => (if is_running t then 1 else 0) + holding ts'
  end.

(** The two shapes of a channel profile: what [analyze_with_gemini]
    returns, and the failure record. *)
Definition synthesis_ok `{Config} (cp : list (string * pyval)) : Prop :=
  ∃ text, cp = [ ("ok", PBool true); ("model", PStr MODEL); ("text", PStr text) ].

Definition synthesis_failed (cp : list (string * pyval)) : Prop :=
  ∃ e, cp = [ ("ok", PBool false); ("error", PStr e) ].

(** The outcomes of the attempts of the language loop of [_process_one],
    in order: one call of [fetch_transcript_and_metadata] per language,
    until one returns. *)
Fixpoint fetch_attempts `{Config} `{Providers} (url : string)
    (lang_priority : list string) (w : World)
    : list (result (list (string * pyval))) :=
  match lang_priority with
  | [] => []
  | lang :: rest =>
      let '(_, r, w1) :=
        run (fetch_transcript_and_metadata url lang APIFY_TIMEOUT_SEC APIFY_TOKEN
               "starvibe~youtube-video-transcript") w in
      r :: match r with
           | Ok _ => []
           | Raise _ => fetch_attempts url rest w1
           end
  end.

(** The test [_process_one] applies to a generation output: it parses when
    [_extract_json_from_text] does not return [None]. *)
Definition parses `{Runtime} (text : string) : bool :=
  negb (is_none (_extract_json_from_text text)).

(** The analysis sub-result of an item, from the generation outputs. *)
Definition analysis_ok (text : string) : list (string * pyval) :=
  [ ("ok", PBool true); ("text", PStr text) ].

Definition analysis_failed (error text : string) : list (string * pyval) :=
  [ ("ok", PBool false); ("error", PStr error);
    ("text", PStr (Str.slice_to 1200 text)) ].

(** ** Sample environment

    A concrete runtime, configuration and provider, used to run the model
    on examples. The provider answers from a script: the HTTP answers and
    the generation answers are consumed in order. *)

Module Sample.

(** The double-quote character. *)
Definition q : string := String "034"%char EmptyString.

(** The JSON object with the one member ok: true. *)
Definition json_ok : string := "{" +:+ q +:+ "ok" +:+ q +:+ ": true}".

(** The JSON object with ok: true and hook: the string x. *)
Definition json_hook : string :=
  "{" +:+ q +:+ "ok" +:+ q +:+ ": true, "
      +:+ q +:+ "hook" +:+ q +:+ ": " +:+ q +:+ "x" +:+ q +:+ "}".

(** [json.loads] on the documents of the examples; every other text is
    taken as malformed. *)
Definition loads (s : string) : option pyval :=
  if String.eqb s json_ok then Some (PDict [("ok", PBool true)])
  else if String.eqb s json_hook
  then Some (PDict [("ok", PBool true); ("hook", PStr "x")])
  else if String.eqb s "{}" then Some (PDict [])
  else if String.eqb s "null" then Some PNone
  else None.

Definition runtime : Runtime := {|
  py_repr := λ _, "<object>";
  slice_error := λ v, "'" +:+ type_name v +:+ "' object is not subscriptable";
  json_loads := loads;
  json_dumps := λ _, Ok "[]";
|}.

Definition templates : Templates := {|
  video_prompt_intro := "analyze video ";
  video_prompt_schema := " with schema, index: ";
  profile_prompt_intro := "profile from: ";
  repair_prompt_intro := "repair for schema: ";
|}.

Definition config : Config := {|
  APIFY_TIMEOUT_SEC := S754_finite false 15 3;
  MAX_TRANSCRIPT_CHARS := 18000;
  APIFY_TOKEN := "token";
  LOCATION := "us-central1";
  MODEL := "gemini-2.5-flash";
  GOOGLE_CLOUD_PROJECT := Some "project";
  GCP_PROJECT := None;
  PROJECT_ID := None;
|}.

(** Answers are read from two scripts; when a script is used up the POST
    raises an exception with an empty message (as a transport timeout
    does) and the generation call raises. *)
Definition scripted : Providers := {|
  World := list HttpOutcome * list GenOutcome;
  http_post := λ w _,
    match w.1 with
    | o :: rest => (o, (rest, w.2))
    | [] => (HttpRaised "", w)
    end;
  generate_content := λ w _,
    match w.2 with
    | o :: rest => (o, (w.1, rest))
    | [] => (GenRaised "unavailable", w)
    end;
|}.

(** A provider answer carrying a transcript. *)
Definition transcript_answer : HttpOutcome :=
  HttpResponse 200 ""
    (Ok (PList [PDict [ ("title", PStr "Title");
                        ("transcript_text", PStr "Hello world") ]])).

Definition request (us : list string) (profile : bool) : AnalyzeReq := {|
  urls := us;
  languages := ["ko"; "en"];
  concurrency := 4;
  make_channel_profile := profile;
|}.

End Sample.

(** ** app/main.py: the endpoints *)

(** [health] *)
Definition health : list (string * pyval) := [ ("ok", PBool true) ].

(** [k in d] on a dict body. *)
Definition has_key (d : list (string * pyval)) (k : string) : bool :=
  match assoc k d with Some _ => true | None => false end.

(** The constructor of the request model applied to the fields of [body]:
    the validation library checks and converts them, and raises when the
    body does not fit the declared schema. *)
Class Validation := {
  validate : list (string * pyval) → result AnalyzeReq;
}.

Section Endpoints.

Context `{Runtime} `{Templates} `{Config} `{Providers} `{Validation}.

(** [_parse_body_allow_string_json]: what it returns, or the
    [HTTPException] it raises. *)
Definition _parse_body_allow_string_json (body : pyval) : Outcome :=
  let decoded :=
    match body with
    | PStr s =>
        match json_loads s with
        | Some b => Ok b
        | None => Raise "Body was a string but not valid JSON"
        end
    | _ => Ok body
    end in
  match decoded with
  | Raise detail => HTTPException 400 detail
  | Ok (PDict d) => Returned d
  | Ok _ => HTTPException 400 "Body must be a JSON object"
  end.

(** The compatibility step of [analyze_and_profile]: the legacy key is
    copied to [languages] when only the legacy key is there. The new key
    goes to the end of the dict. *)
Definition with_legacy_languages (body : list (string * pyval))
    : list (string * pyval) :=
  if has_key body "languages_priority" && negb (has_key body "languages")
  then body ++ [ ("languages", get body "languages_priority") ]
  else body.

(** [analyze_and_profile]; [request_json] is what [await request.json()]
    returns or raises. *)
Definition analyze_and_profile (request_json : result pyval)
    (sched : list nat) (w : World) : Outcome * World :=
  match request_json with
  | Raise _ => (HTTPException 400 "Invalid JSON body", w)
  | Ok body =>
      match _parse_body_allow_string_json body with
      | Returned body =>
          let body := with_legacy_languages body in
          match validate body with
          | Raise e => (HTTPException 422 ("Invalid request schema: " +:+ e), w)
          | Ok req => _analyze_impl req sched w
          end
      | raised => (raised, w)
      end
  end.

(** [analyze]: the same handler under a second path. *)
Definition analyze (request_json : result pyval) (sched : list nat) (w : World)
    : Outcome * World :=
  analyze_and_profile request_json sched w.

End Endpoints.

(** ** Vocabulary of the further statements *)

(** [s] has no tab and no two blanks in a row; [prev] tells that the
    character before [s] is a blank. *)
Fixpoint blank_normal (prev : bool) (s : string) : bool :=
  match s with
  | EmptyString => true
  | String c s' =>
      if Re.is_blank c
      then Ascii.eqb c " " && negb prev && blank_normal true s'
      else blank_normal false s'
  end.

(** [s] has no three newlines in a row; [run] newlines precede [s]. *)
Fixpoint newline_normal (run : nat) (s : string) : bool :=
  match s with
  | EmptyString => true
  | String c s' =>
      if Ascii.eqb c Re.newline
      then (S run <? 3)%nat && newline_normal (S run) s'
      else newline_normal 0 s'
  end.

(** A language code as [pick_language_priority] keeps it: not empty,
    without surrounding whitespace, in lower case. *)
Definition language_code (s : string) : Prop :=
  Str.nonempty s = true ∧ Str.strip s = s ∧ Str.lower s = s.

(** The keys of the record [fetch_transcript_and_metadata] returns. *)
Definition record_keys : list string :=
  [ "title"; "description"; "channel_name"; "published_at"; "duration_seconds";
    "view_count"; "like_count"; "comment_count"; "language"; "transcript";
    "transcript_text"; "raw" ].

(** No project is configured: each of the three variables is unset or
    empty. *)
Definition no_project `{Config} : Prop :=
  (GOOGLE_CLOUD_PROJECT = None ∨ GOOGLE_CLOUD_PROJECT = Some "")
  ∧ (GCP_PROJECT = None ∨ GCP_PROJECT = Some "")
  ∧ (PROJECT_ID = None ∨ PROJECT_ID = Some "").

(** The result of an item whose fetch failed with the message [e]. *)
Definition fetch_failed (idx : Z) (url e : string) : list (string * pyval) :=
  [ ("index", PInt idx); ("url", PStr url); ("ok", PBool false);
    ("stage", PStr "apify"); ("error", PStr e) ].

(** A slot of a task that returns [r] without any call. *)
Definition pure_slot {A} (r : A) (t : Task A) : Prop :=
  t = Waiting (Ret r) ∨ t = Running (Ret r) ∨ t = Done r.

(** [s] contains no backtick. *)
Definition no_tick (s : string) : bool :=
  all_chars (λ c, negb (Ascii.eqb c "`")) s.

(** [s] consists of whitespace. *)
Definition blank (s : string) : bool := all_chars Str.isspace s.

(** The three results an item can have: the fetch failed, no transcript
    came back, or the transcript was analyzed. The error of a failed fetch
    is never empty; the transcript kept is not empty and, when
    [MAX_TRANSCRIPT_CHARS] is positive, not longer than that; the analysis
    is the successful or the failed sub-result. *)
Definition item_shape `{Config} (idx : Z) (url : string)
    (v : list (string * pyval)) : Prop :=
  (∃ e, v = fetch_failed idx url e ∧ e ≠ "")
  ∨ (∃ meta,
       v = [ ("index", PInt idx); ("url", PStr url); ("ok", PBool false);
             ("stage", PStr "transcript"); ("meta", PDict meta);
             ("error", PStr "NO_TRANSCRIPT_RETURNED_BY_APIFY") ]
       ∧ meta.*1 = [ "title"; "channel"; "published_at"; "language" ])
  ∨ (∃ meta n a,
       v = [ ("index", PInt idx); ("url", PStr url); ("ok", PBool true);
             ("meta", PDict meta); ("transcript_chars", PInt n);
             ("videoAnalysis", PDict a) ]
       ∧ meta.*1 = [ "title"; "description"; "channel"; "published_at";
                     "duration_seconds"; "view_count"; "like_count";
                     "comment_count"; "language" ]
       ∧ 0 < n ∧ (0 < MAX_TRANSCRIPT_CHARS → n ≤ MAX_TRANSCRIPT_CHARS)
       ∧ ((∃ text, a = analysis_ok text) ∨ ∃ e text, a = analysis_failed e text)).

(** The POST requests of a log. *)
Fixpoint post_calls (log : list Event) : list HttpRequest :=
  match log with
  | [] => []
  | EvPost rq _ :: log' => rq :: post_calls log'
  | EvGenerate _ _ :: log' => post_calls log'
  end.

(** The JSON body [fetch_transcript_and_metadata] posts for a URL and a
    language. *)
Definition fetch_payload (url language : string) : pyval :=
  PDict [ ("youtube_url", PStr url); ("language", PStr language);
          ("include_transcript_text", PBool true) ].

(** A POST of the pipeline: to the transcript actor, with the configured
    token and timeout. *)
Definition item_post `{Config} (rq : HttpRequest) : Prop :=
  http_endpoint rq
  = "https://api.apify.com/v2/acts/starvibe~youtube-video-transcript/run-sync-get-dataset-items"
  ∧ http_params rq = [ ("token", APIFY_TOKEN); ("format", "json") ]
  ∧ http_timeout rq = APIFY_TIMEOUT_SEC.

(** A warning entry. *)
Definition warning (index : Z) (url stage error : string) : list (string * pyval) :=
  [ ("index", PInt index); ("url", PStr url); ("stage", PStr stage);
    ("error", PStr error) ].

(** The item succeeded and so did its analysis. *)
Definition item_fine (v : list (string * pyval)) : Prop :=
  get v "ok" = PBool true ∧ ∃ text, get v "videoAnalysis" = PDict (analysis_ok text).

(** Index and URL of an item or of a warning. *)
Definition place (v : list (string * pyval)) : pyval * pyval :=
  (get v "index", get v "url").

(** [v[k]] for a value that is a dict. *)
Definition field (k : string) (v : pyval) : pyval :=
  match v with PDict d => get d k | _ => PNone end.

(** What the reader of a parsed analysis can handle as a sub-object: a
    falsy value, which [or {}] replaces, or a dict. *)
Definition sub_object (v : pyval) : bool :=
  negb (truthy v) || match v with PDict _ => true | _ => false end.

(** The sub-objects read from a parsed analysis. *)
Definition slim_sources : list string :=
  [ "hook"; "structure"; "style_tone"; "expression_markers"; "retention" ].

(** The rejections of the endpoints that carry the status 400. *)
Definition bad_request_details : list string :=
  [ "Invalid JSON body"; "Body was a string but not valid JSON";
    "Body must be a JSON object"; "urls is empty" ].

(** A validation for the examples: it wants a list under [urls] and takes
    the defaults for the rest. *)
Definition sample_validation : Validation := {|
  validate := λ body,
    match get body "urls" with
    | PList l =>
        Ok (Sample.request
              (omap (λ v, match v with PStr s => Some s | _ => None end) l) true)
    | _ => Raise "urls: Input should be a valid list"
    end;
|}.

(** The members of a list in the order of their first occurrences: an
    entry stays where it first appears and is removed further on. *)
Fixpoint first_occurrences (l : list string) : list string :=
  match l with
  | [] => []
  | u :: rest => u :: filter (λ x, x ≠ u) (first_occurrences rest)
  end.

(** The item of a provider answer: the decoded object, or the first entry
    of the decoded array. *)
Definition answer_item (o : HttpOutcome) : option (list (string * pyval)) :=
  match o with
  | HttpResponse _ _ (Ok (PDict item)) => Some item
  | HttpResponse _ _ (Ok (PList (PDict item :: _))) => Some item
  | _ => None
  end.

(** * Properties of the text utilities *)

Section StringFacts.


Lemma sep_of_space c : Str.isspace c = true → Re.is_url_sep c = true.
Proof. unfold Re.is_url_sep. intros ->. reflexivity. Qed.

Lemma lstrip_head c s : Str.isspace c = false → Str.lstrip (String c s) = String c s.
Proof. simpl. intros ->. reflexivity. Qed.

Lemma rstrip_no_space s :
  all_chars (λ c, negb (Str.isspace c)) s = true → Str.rstrip s = s.
Proof.
  induction s as [|c s IH]; simpl; [done|].
  intros [Hc Hs]%andb_prop. rewrite (IH Hs).
  apply negb_true_iff in Hc. rewrite Hc. by destruct s.
Qed.

Lemma app_cons c a b : String c a +:+ b = String c (a +:+ b).
Proof. reflexivity. Qed.

Lemma app_nil b : "" +:+ b = b.
Proof. reflexivity. Qed.

Lemma rstrip_app a b :
  Str.rstrip b = b → b ≠ "" → Str.rstrip (a +:+ b) = a +:+ b.
Proof.
  intros Hb Hne. induction a as [|c a IH]; [exact Hb|].
  rewrite app_cons. cbn [Str.rstrip]. rewrite IH.
  destruct (a +:+ b) eqn:E; [|done].
  destruct a; [by rewrite app_nil in E|by rewrite app_cons in E].
Qed.

Lemma no_sep_no_space s :
  no_sep s = true → all_chars (λ c, negb (Str.isspace c)) s = true.
Proof.
  induction s as [|c s IH]; simpl; [done|].
  intros [Hc Hs]%andb_prop. rewrite (IH Hs), andb_true_r.
  apply negb_true_iff. apply negb_true_iff in Hc.
  destruct (Str.isspace c) eqn:E; [|done].
  by rewrite (sep_of_space _ E) in Hc.
Qed.

Lemma strip_no_sep s : no_sep s = true → Str.strip s = s.
Proof.
  intros H. unfold Str.strip.
  assert (Str.lstrip s = s) as ->.
  { destruct s as [|c s]; [done|]. simpl in H.
    apply andb_prop in H as [Hc _]. apply negb_true_iff in Hc.
    apply lstrip_head. destruct (Str.isspace c) eqn:E; [|done].
    by rewrite (sep_of_space _ E) in Hc. }
  by apply rstrip_no_space, no_sep_no_space.
Qed.

(** The pieces [re.split] returns contain no separator. *)
Lemma split_go_no_sep b s :
  Forall (λ p, no_sep p = true) (Re.split_go Re.is_url_sep b s).
Proof.
  revert b. induction s as [|c s IH]; intros b; simpl.
  - by constructor.
  - destruct (Re.is_url_sep c) eqn:Hc.
    + destruct b; [apply IH|]. constructor; [done|apply IH].
    + specialize (IH false).
      destruct (Re.split_go Re.is_url_sep false s) as [|p ps].
      * constructor; [|done]. unfold no_sep; simpl. by rewrite Hc.
      * inversion IH; subst. constructor; [|done].
        unfold no_sep in *; simpl. by rewrite Hc.
Qed.

(** A piece without separator is returned whole. *)
Lemma split_go_piece b x : no_sep x = true → Re.split_go Re.is_url_sep b x = [x].
Proof.
  revert b. induction x as [|c x IH]; intros b; simpl; [done|].
  intros [Hc Hx]%andb_prop. apply negb_true_iff in Hc.
  by rewrite Hc, IH.
Qed.

Lemma split_go_piece_sep b x c s :
  no_sep x = true → x ≠ "" → Re.is_url_sep c = true →
  Re.split_go Re.is_url_sep b (x +:+ String c s)
  = x :: Re.split_go Re.is_url_sep true s.
Proof.
  intros Hx Hne Hc. revert b. induction x as [|a x IH]; intros b; [done|].
  simpl in Hx. apply andb_prop in Hx as [Ha Hx]. apply negb_true_iff in Ha.
  rewrite app_cons. cbn [Re.split_go]. rewrite Ha. destruct x as [|a' x].
  - rewrite app_nil. cbn [Re.split_go]. by rewrite Hc.
  - by rewrite (IH Hx).
Qed.

End StringFacts.

Section Dedupe.

Lemma dedupe_subseteq seen l : dedupe seen l ⊆ l.
Proof.
  revert seen. induction l as [|u l IH]; intros seen; simpl; [done|].
  case_decide.
  - by apply list_subseteq_cons.
  - intros x [->|Hx]%elem_of_cons; [left|right]. by eapply IH.
Qed.

Lemma dedupe_not_seen seen l x : x ∈ dedupe seen l → x ∉ seen.
Proof.
  revert seen. induction l as [|u l IH]; intros seen; simpl.
  - by intros ?%elem_of_nil.
  - case_decide; [apply IH|].
    intros [->|Hx]%elem_of_cons; [done|].
    apply IH in Hx. set_solver.
Qed.

Lemma dedupe_NoDup seen l : NoDup (dedupe seen l).
Proof.
  revert seen. induction l as [|u l IH]; intros seen; simpl.
  - constructor.
  - case_decide; [apply IH|]. constructor; [|apply IH].
    intros Hu%dedupe_not_seen. set_solver.
Qed.

(** On a list without repetition, none of it seen yet, the loop keeps
    everything. *)
Lemma dedupe_id seen l :
  NoDup l → (∀ x, x ∈ l → x ∉ seen) → dedupe seen l = l.
Proof.
  revert seen. induction l as [|u l IH]; intros seen Hnd Hs; simpl; [done|].
  inversion Hnd as [|? ? Hu Hl]; subst.
  rewrite decide_False by (apply Hs; left).
  f_equal. apply IH; [done|].
  intros x Hx. specialize (Hs x (list_elem_of_further _ _ _ Hx)).
  intros [->%elem_of_singleton|?]%elem_of_union; [by apply Hu|by apply Hs].
Qed.

End Dedupe.

Section NormalizeUrls.

Context `{Runtime}.


Lemma cleaned_parts_tokens parts :
  Forall (λ p, no_sep p = true) parts → Forall url_token (cleaned_parts parts).
Proof.
  induction 1 as [|p parts Hp _ IH]; simpl; [constructor|].
  destruct (Str.nonempty p) eqn:Hne; [|done].
  rewrite (strip_no_sep _ Hp).
  destruct (Str.startswith "http://" p || Str.startswith "https://" p) eqn:Hpre;
    [|done].
  by constructor.
Qed.

Lemma cleaned_parts_id l : Forall url_token l → cleaned_parts l = l.
Proof.
  induction 1 as [|p l (Hne & Hp & Hpre) _ IH]; simpl; [done|].
  by rewrite Hne, (strip_no_sep _ Hp), Hpre, IH.
Qed.

Lemma raw_entries_tokens l :
  Forall url_token l → raw_entries (PStr <$> l) = l.
Proof.
  induction 1 as [|p l (Hne & _) _ IH]; [done|].
  rewrite fmap_cons. cbn [raw_entries truthy py_str].
  unfold Str.nonempty in Hne. by rewrite Hne, IH.
Qed.

Lemma token_head s :
  url_token s → ∃ c s', s = String c s' ∧ Re.is_url_sep c = false.
Proof.
  intros (Hne & Hp & _). destruct s as [|c s']; [done|].
  exists c, s'. split; [done|]. simpl in Hp.
  apply andb_prop in Hp as [Hc _]. by apply negb_true_iff in Hc.
Qed.

Lemma join_tokens_head l :
  Forall url_token l → l ≠ [] →
  ∃ c s', Str.join nl l = String c s' ∧ Re.is_url_sep c = false.
Proof.
  intros Hl Hne. destruct Hl as [|p l Hp Hl]; [done|].
  destruct (token_head _ Hp) as (c & s' & -> & Hc).
  destruct l; simpl; eauto.
Qed.

Lemma join_tokens_rstrip l :
  Forall url_token l → l ≠ [] →
  Str.rstrip (Str.join nl l) = Str.join nl l ∧ Str.join nl l ≠ "".
Proof.
  induction 1 as [|p l Hp Hl IH]; intros Hne; [done|].
  destruct l as [|q l].
  - simpl. destruct Hp as (Hn & Hp & _). split.
    + by apply rstrip_no_space, no_sep_no_space.
    + by destruct p.
  - destruct IH as [IH1 IH2]; [done|].
    change (Str.join nl (p :: q :: l)) with (p +:+ nl +:+ Str.join nl (q :: l)).
    split.
    + apply rstrip_app; [by apply rstrip_app|done].
    + destruct (token_head _ Hp) as (c & s' & -> & _). by rewrite app_cons.
Qed.

Lemma join_tokens_strip l :
  Forall url_token l → Str.strip (Str.join nl l) = Str.join nl l.
Proof.
  intros Hl. destruct l as [|p l]; [done|].
  unfold Str.strip.
  destruct (join_tokens_head _ Hl) as (c & s' & E & Hc); [done|].
  assert (Str.lstrip (Str.join nl (p :: l)) = Str.join nl (p :: l)) as ->.
  { rewrite E. apply lstrip_head. destruct (Str.isspace c) eqn:Hs; [|done].
    by rewrite (sep_of_space _ Hs) in Hc. }
  by apply join_tokens_rstrip.
Qed.

Lemma nl_is_sep : Re.is_url_sep Re.newline = true.
Proof. reflexivity. Qed.

(** Splitting the newline-joined tokens gives the tokens back. *)
Lemma split_join_tokens b l :
  Forall url_token l → l ≠ [] →
  Re.split_go Re.is_url_sep b (Str.join nl l) = l.
Proof.
  intros Hl. revert b. induction Hl as [|p l Hp Hl IH]; intros b Hne; [done|].
  destruct l as [|q l].
  - simpl. apply split_go_piece, Hp.
  - change (Str.join nl (p :: q :: l))
      with (p +:+ String Re.newline (Str.join nl (q :: l))).
    destruct Hp as (Hn & Hp & _).
    rewrite split_go_piece_sep; [|done|by destruct p|apply nl_is_sep].
    by rewrite IH.
Qed.

Lemma normalize_urls_tokens x :
  Forall url_token (normalize_urls x) ∧ NoDup (normalize_urls x).
Proof.
  assert (∀ s, Forall url_token
                 (dedupe ∅ (cleaned_parts (Re.split Re.is_url_sep s)))) as Htok.
  { intros s. apply Forall_forall. intros u Hu%dedupe_subseteq. revert u Hu.
    apply Forall_forall, cleaned_parts_tokens, split_go_no_sep. }
  destruct x; simpl; first [by split; constructor | split; [apply Htok|apply dedupe_NoDup]].
Qed.

Lemma normalize_urls_fixed l :
  Forall url_token l → NoDup l → normalize_urls (PList (PStr <$> l)) = l.
Proof.
  intros Hl Hnd. unfold normalize_urls.
  rewrite (raw_entries_tokens _ Hl), (join_tokens_strip _ Hl).
  destruct (decide (l = [])) as [->|Hne]; [done|].
  unfold Re.split. rewrite (split_join_tokens _ _ Hl Hne), (cleaned_parts_id _ Hl).
  apply dedupe_id; [done|]. intros ? _. apply not_elem_of_empty.
Qed.

End NormalizeUrls.

(** C6. [normalize_urls] is idempotent: whatever object [x] it is given (a
    list, a single string, [None] or anything else), normalizing the list
    it returned gives that same list. *)
Theorem normalize_urls_idempotent `{Runtime} (x : pyval) :
  normalize_urls (PList (PStr <$> normalize_urls x))
  = normalize_urls x.
Proof.
  destruct (normalize_urls_tokens x) as [Htok Hnd].
  by apply normalize_urls_fixed.
Qed.

Section DefaultLanguages.

Lemma strip_blank s : blank s = true → Str.strip s = "".
Proof.
  unfold Str.strip. induction s as [|c s IH]; [done|]. cbn.
  intros [-> Hs]%andb_prop. by apply IH.
Qed.

Lemma language_entries_blank l :
  Forall (λ s, blank s = true) l → language_entries l = [].
Proof.
  induction 1 as [|s l Hs _ IH]; [done|]. cbn. by rewrite (strip_blank _ Hs).
Qed.

End DefaultLanguages.

(** C7. [pick_language_priority] returns the default [["ko", "en"]] on
    every list of strings that are empty or consist of whitespace, so on
    the empty list and on [["", " "]], and on [None]. *)
Theorem pick_language_priority_default (l : list string) :
  Forall (λ s, blank s = true) l →
  pick_language_priority (Some l) = ["ko"; "en"]
  ∧ pick_language_priority (Some []) = ["ko"; "en"]
  ∧ pick_language_priority None = ["ko"; "en"]
  ∧ pick_language_priority (Some [""; " "]) = ["ko"; "en"].
Proof.
  intros Hl. split; [|split; [done|split; [done|vm_compute; reflexivity]]].
  unfold pick_language_priority. destruct l as [|s l]; [done|].
  by rewrite (language_entries_blank _ Hl).
Qed.

Lemma pick_language_priority_default_witness :
  let tab_newline := String "009"%char (String "010"%char EmptyString) in
  let l := [tab_newline; "   "; ""] in
  Forall (λ s, blank s = true) l
  ∧ pick_language_priority (Some l) = ["ko"; "en"]
  ∧ pick_language_priority (Some []) = ["ko"; "en"]
  ∧ pick_language_priority None = ["ko"; "en"]
  ∧ pick_language_priority (Some [""; " "]) = ["ko"; "en"].
Proof.
  intros tab_newline l.
  assert (Forall (λ s, blank s = true) l) as Hl.
  { repeat constructor; vm_compute; reflexivity. }
  split; [exact Hl|].
  exact (pick_language_priority_default l Hl).
Defined.

Section CompactFacts.

Lemma sub_blank_run m s :
  Re.sub_runs Re.is_blank " " true (Str.replicate m " " +:+ s)
  = Re.sub_runs Re.is_blank " " true s.
Proof. induction m as [|m IH]; [done|]. cbn [Str.replicate]. by rewrite app_cons. Qed.

Lemma sub_blank_newlines k s :
  Re.sub_runs Re.is_blank " " false (Str.replicate k Re.newline +:+ s)
  = Str.replicate k Re.newline +:+ Re.sub_runs Re.is_blank " " false s.
Proof.
  induction k as [|k IH]; [done|]. cbn [Str.replicate].
  rewrite !app_cons. cbn [Re.sub_runs]. by rewrite IH.
Qed.

Lemma sub_newline_run run k s :
  Re.sub_newlines run (Str.replicate k Re.newline +:+ s)
  = Re.sub_newlines (run + k) s.
Proof.
  revert run. induction k as [|k IH]; intros run.
  - by rewrite Nat.add_0_r.
  - cbn [Str.replicate]. rewrite app_cons. cbn [Re.sub_newlines].
    rewrite Ascii.eqb_refl, IH. f_equal. lia.
Qed.

(** The two substitutions of [compact_text] on the scenario's text, for any
    lengths of its two runs. *)
Lemma compact_runs m k :
  Re.sub_newlines 0
    (Re.sub_runs Re.is_blank " " false
       ("Hello" +:+ Str.replicate (S m) " " +:+ "world"
        +:+ Str.replicate (3 + k) Re.newline +:+ "End"))
  = "Hello world" +:+ nl +:+ nl +:+ "End".
Proof.
  cbn [Str.replicate]. repeat (rewrite app_cons || rewrite app_nil).
  cbn [Re.sub_runs Re.is_blank Ascii.eqb Bool.eqb orb].
  rewrite sub_blank_run. repeat (rewrite app_cons || rewrite app_nil).
  cbn [Re.sub_runs Re.is_blank Ascii.eqb Bool.eqb orb].
  rewrite sub_blank_newlines.
  cbn [Re.sub_runs Re.is_blank Ascii.eqb Bool.eqb orb].
  cbn [Re.sub_newlines Ascii.eqb Bool.eqb Re.newline Nat.min Str.replicate].
  repeat (rewrite app_cons || rewrite app_nil).
  change (Ascii false true false true false false false false) with Re.newline.
  rewrite sub_newline_run. reflexivity.
Qed.

End CompactFacts.

(** C8. Compacting ["Hello   world\n\n\n\nEnd"] with [max_chars = 100]
    gives ["Hello world\n\nEnd"]. The same holds for every run of one or
    more spaces in place of the three and every run of three or more
    newlines in place of the four: the run of spaces becomes one space and
    the run of newlines becomes two. *)
Theorem compact_text_scenario `{Runtime} :
  compact_text (PStr ("Hello   world" +:+ nl +:+ nl +:+ nl +:+ nl +:+ "End")) 100
  = "Hello world" +:+ nl +:+ nl +:+ "End"
  ∧ ∀ m k : nat,
      compact_text
        (PStr ("Hello" +:+ Str.replicate (S m) " " +:+ "world"
               +:+ Str.replicate (3 + k) Re.newline +:+ "End")) 100
      = "Hello world" +:+ nl +:+ nl +:+ "End".
Proof.
  split; [vm_compute; reflexivity|]. intros m k.
  unfold compact_text. cbn [truthy py_str]. rewrite compact_runs.
  rewrite app_cons. reflexivity.
Qed.

(** * Coroutines and the event loop *)

Section ProgFacts.

Context `{Providers}.


Lemma leaf_bind {A B} (p : Prog A) (f : A → Prog B) b :
  leaf (p ≫= f) b → ∃ a, leaf p a ∧ leaf (f a) b.
Proof.
  induction p as [a|rq k IH|rq k IH]; cbn.
  - intros Hb. exists a. split; [constructor|done].
  - inversion 1 as [|? ? o ? Hk|]; simplify_eq.
    destruct (IH o Hk) as (a & ? & ?). exists a. split; [by econstructor|done].
  - inversion 1 as [| |? ? o ? Hk]; simplify_eq.
    destruct (IH o Hk) as (a & ? & ?). exists a. split; [by econstructor|done].
Qed.

Lemma run_leaf {A} (p : Prog A) w : leaf p (run p w).1.2.
Proof.
  revert w. induction p as [a|rq k IH|rq k IH]; intros w; cbn.
  - constructor.
  - destruct (http_post w rq) as [o w1]. specialize (IH o w1).
    destruct (run (k o) w1) as [[log a] w2]. by econstructor.
  - destruct (generate_content w rq) as [o w1]. specialize (IH o w1).
    destruct (run (k o) w1) as [[log a] w2]. by econstructor.
Qed.

Lemma run_bind {A B} (p : Prog A) (f : A → Prog B) w :
  run (p ≫= f) w
  = let '(l1, a, w1) := run p w in
    let '(l2, b, w2) := run (f a) w1 in
    (l1 ++ l2, b, w2).
Proof.
  revert w. induction p as [a|rq k IH|rq k IH]; intros w; cbn.
  - by destruct (run (f a) w) as [[l2 b] w2].
  - destruct (http_post w rq) as [o w1].
    change (prog_bind f (k o)) with (k o ≫= f). rewrite IH.
    destruct (run (k o) w1) as [[l1 a] w2].
    by destruct (run (f a) w2) as [[l2 b] w3].
  - destruct (generate_content w rq) as [o w1].
    change (prog_bind f (k o)) with (k o ≫= f). rewrite IH.
    destruct (run (k o) w1) as [[l1 a] w2].
    by destruct (run (f a) w2) as [[l2 b] w3].
Qed.

Lemma generate_calls_app l1 l2 :
  generate_calls (l1 ++ l2) = generate_calls l1 ++ generate_calls l2.
Proof.
  induction l1 as [|[rq o|rq o] l1 IH]; cbn; [done|done|by rewrite IH].
Qed.

End ProgFacts.

Section EventLoopFacts.

Context `{Providers} {A : Type}.


Lemma later_refl (t : Task A) : later t t.
Proof. by intros a. Qed.

Lemma later_trans (t1 t2 t3 : Task A) : later t1 t2 → later t2 t3 → later t1 t3.
Proof. intros H12 H23 a Ha. by apply H12, H23. Qed.

Lemma Forall2_later_refl (ts : list (Task A)) : Forall2 later ts ts.
Proof. induction ts; constructor; [apply later_refl|done]. Qed.

Lemma Forall2_later_insert (ts : list (Task A)) i t t' :
  ts !! i = Some t → later t t' → Forall2 later ts (<[i := t']> ts).
Proof.
  revert i. induction ts as [|t0 ts IH]; intros [|i] Hi Hl; simplify_eq/=.
  - constructor; [done|apply Forall2_later_refl].
  - constructor; [apply later_refl|by apply IH].
Qed.

Lemma resume_later (st : @Loop _ A) i : Forall2 later (slots st) (slots (resume st i)).
Proof.
  unfold resume. destruct (slots st !! i) as [[p|p|r]|] eqn:Hi;
    try apply Forall2_later_refl.
  - destruct (0 <? permits st); [|apply Forall2_later_refl].
    eapply Forall2_later_insert; [done|]. by intros a.
  - destruct p as [r|rq k|rq k].
    + eapply Forall2_later_insert; [done|]. intros a <-. constructor.
    + destruct (http_post (world st) rq) as [o w].
      eapply Forall2_later_insert; [done|]. intros a Ha. by econstructor.
    + destruct (generate_content (world st) rq) as [o w].
      eapply Forall2_later_insert; [done|]. intros a Ha. by econstructor.
Qed.

Lemma Forall2_later_trans (l1 l2 l3 : list (Task A)) :
  Forall2 later l1 l2 → Forall2 later l2 l3 → Forall2 later l1 l3.
Proof.
  intros H12. revert l3. induction H12; inversion 1; subst; constructor;
    eauto using later_trans.
Qed.

Lemma foldl_resume_later sched (st : @Loop _ A) :
  Forall2 later (slots st) (slots (foldl resume st sched)).
Proof.
  revert st. induction sched as [|i sched IH]; intros st; cbn.
  - apply Forall2_later_refl.
  - eapply Forall2_later_trans; [apply resume_later|apply IH].
Qed.

Lemma settle_later pick (ts : list (Task A)) w : Forall2 later ts (settle pick ts w).1.
Proof.
  revert w. induction ts as [|t ts IH]; intros w; cbn; [constructor|].
  destruct t as [p|p|r].
  - destruct (pick (Waiting p)).
    + pose proof (run_leaf p w) as Hl. destruct (run p w) as [[log r] w1].
      specialize (IH w1). destruct (settle pick ts w1) as [ts1 w2].
      constructor; [|done]. by intros a <-.
    + specialize (IH w). destruct (settle pick ts w) as [ts1 w2].
      constructor; [apply later_refl|done].
  - destruct (pick (Running p)).
    + pose proof (run_leaf p w) as Hl. destruct (run p w) as [[log r] w1].
      specialize (IH w1). destruct (settle pick ts w1) as [ts1 w2].
      constructor; [|done]. by intros a <-.
    + specialize (IH w). destruct (settle pick ts w) as [ts1 w2].
      constructor; [apply later_refl|done].
  - specialize (IH w). destruct (settle pick ts w) as [ts1 w2].
    constructor; [apply later_refl|done].
Qed.

(** After the first pass no slot is running, and the second pass leaves
    none waiting. *)
Lemma settle_running (ts : list (Task A)) w :
  Forall (λ t, is_running t = false) (settle is_running ts w).1.
Proof.
  revert w. induction ts as [|t ts IH]; intros w; cbn; [constructor|].
  destruct t as [p|p|r]; cbn.
  - specialize (IH w). destruct (settle is_running ts w). by constructor.
  - destruct (run p w) as [[log r] w1]. specialize (IH w1).
    destruct (settle is_running ts w1). by constructor.
  - specialize (IH w). destruct (settle is_running ts w). by constructor.
Qed.

Lemma settle_waiting (ts : list (Task A)) w :
  Forall (λ t, is_running t = false) ts →
  Forall (λ t, ∃ r, t = Done r) (settle is_waiting ts w).1.
Proof.
  intros Hts. revert w. induction Hts as [|t ts Ht _ IH]; intros w; cbn;
    [constructor|].
  destruct t as [p|p|r]; cbn; [|done|].
  - destruct (run p w) as [[log r] w1]. specialize (IH w1).
    destruct (settle is_waiting ts w1). constructor; eauto.
  - specialize (IH w). destruct (settle is_waiting ts w). constructor; eauto.
Qed.

Lemma results_done (ts0 ts : list (Task A)) :
  Forall2 later ts0 ts → Forall (λ t, ∃ r, t = Done r) ts →
  Forall2 may_return ts0 (results ts).
Proof.
  induction 1 as [|t0 t ts0 ts Hl _ IH]; inversion 1 as [|? ? [r ->] Hts];
    subst; cbn; constructor; [by apply Hl|by apply IH].
Qed.

(** [gather] returns one result per task, in the order of the tasks, and
    each result is one its task can return, whatever the schedule. *)
Lemma gather_leaves n sched (tasks : list (Prog A)) w :
  Forall2 leaf tasks (gather n sched tasks w).1.
Proof.
  unfold gather.
  set (st0 := {| permits := n; slots := Waiting <$> tasks; world := w |}).
  pose proof (foldl_resume_later sched st0) as H0.
  set (st := foldl resume st0 sched) in *.
  pose proof (settle_later is_running (slots st) (world st)) as H1.
  pose proof (settle_running (slots st) (world st)) as Hr.
  destruct (settle is_running (slots st) (world st)) as [ts1 w1].
  pose proof (settle_later is_waiting ts1 w1) as H2.
  pose proof (settle_waiting ts1 w1 Hr) as Hd.
  destruct (settle is_waiting ts1 w1) as [ts2 w2]. cbn in *.
  pose proof (results_done _ _
    (Forall2_later_trans _ _ _ (Forall2_later_trans _ _ _ H0 H1) H2) Hd) as Hfin.
  cbn in Hfin. by apply (Forall2_fmap_l Waiting) in Hfin.
Qed.

Lemma holding_insert (ts : list (Task A)) i t t' :
  ts !! i = Some t →
  holding (<[i := t']> ts)
  = holding ts - (if is_running t then 1 else 0) + (if is_running t' then 1 else 0).
Proof.
  revert i. induction ts as [|t0 ts IH]; intros [|i] Hi; simplify_eq/=; [lia|].
  rewrite (IH i Hi). lia.
Qed.

(** While the loop follows a schedule, the tasks that hold a permit and
    the free permits add up to the initial number: at most [n] item
    pipelines are in flight. *)
Lemma resume_permits (st : @Loop _ A) i n :
  0 ≤ permits st ∧ permits st + holding (slots st) = n →
  0 ≤ permits (resume st i)
  ∧ permits (resume st i) + holding (slots (resume st i)) = n.
Proof.
  intros [Hp Hn]. unfold resume.
  destruct (slots st !! i) as [[p|p|r]|] eqn:Hi; [| |done|done].
  - destruct (Z.ltb_spec 0 (permits st)); [|done]. cbn.
    rewrite (holding_insert _ _ _ _ Hi). cbn. lia.
  - assert (0 ≤ holding (slots st) - 1) as Hh.
    { clear -Hi. revert i Hi. induction (slots st) as [|t0 ts IH];
        intros [|i] Hi; simplify_eq/=.
      - assert (0 ≤ holding ts); [|lia].
        clear. induction ts as [|t ts IH]; cbn; [lia|]. destruct (is_running t); lia.
      - specialize (IH i Hi). destruct (is_running t0); lia. }
    destruct p as [r|rq k|rq k].
    + cbn. rewrite (holding_insert _ _ _ _ Hi). cbn. lia.
    + destruct (http_post (world st) rq) as [o w]. cbn.
      rewrite (holding_insert _ _ _ _ Hi). cbn. lia.
    + destruct (generate_content (world st) rq) as [o w]. cbn.
      rewrite (holding_insert _ _ _ _ Hi). cbn. lia.
Qed.

Lemma holding_waiting (tasks : list (Prog A)) : holding (Waiting <$> tasks) = 0.
Proof. induction tasks as [|p tasks IH]; cbn; [done|]. by rewrite IH. Qed.

Lemma foldl_resume_permits sched (st : @Loop _ A) n :
  0 ≤ permits st ∧ permits st + holding (slots st) = n →
  0 ≤ permits (foldl resume st sched)
  ∧ permits (foldl resume st sched) + holding (slots (foldl resume st sched)) = n.
Proof.
  revert st. induction sched as [|i sched IH]; intros st Hst; cbn; [done|].
  by apply IH, resume_permits.
Qed.

Lemma semaphore_bound n sched (tasks : list (Prog A)) w :
  0 ≤ n →
  let st := foldl resume {| permits := n; slots := Waiting <$> tasks; world := w |}
              sched in
  0 ≤ permits st ∧ holding (slots st) ≤ n.
Proof.
  intros Hn st.
  assert (0 ≤ permits st ∧ permits st + holding (slots st) = n) as [? ?]; [|lia].
  apply foldl_resume_permits. cbn. rewrite holding_waiting. lia.
Qed.

End EventLoopFacts.

(** * The request handler *)

Section HandlerFacts.

Context `{Runtime} `{Templates} `{Config} `{Providers}.

Lemma leaf_ret_inv {A} (a b : A) : leaf (Ret a) b → a = b.
Proof. by inversion 1. Qed.

(** Every dict [_process_one] can return carries its own [idx] and
    [url]. *)
Lemma process_one_leaf idx url lang_priority r :
  leaf (_process_one idx url lang_priority) r →
  get r "index" = PInt idx ∧ get r "url" = PStr url.
Proof.
  unfold _process_one. intros ([d e] & _ & Hr)%leaf_bind.
  destruct d as [[|kv d]|]; try (apply leaf_ret_inv in Hr as <-; done).
  destruct (negb (Str.nonempty _)) in Hr.
  { by apply leaf_ret_inv in Hr as <-. }
  apply leaf_bind in Hr as ([text res] & _ & Hr).
  by apply leaf_ret_inv in Hr as <-.
Qed.

Lemma gather_videos_leaves req us sched w :
  Forall2 leaf
    (tasks_of us (pick_language_priority (Some (languages req))))
    (gather_videos req us sched w).1.
Proof. apply gather_leaves. Qed.

(** Slot [k] of [videos] holds the result for the [k]-th URL, with
    [index = k + 1]. *)
Lemma gather_videos_in_order req us sched w :
  let videos := (gather_videos req us sched w).1 in
  length videos = length us
  ∧ ∀ k u, us !! k = Some u →
      ∃ v, videos !! k = Some v
           ∧ get v "index" = PInt (Z.of_nat k + 1) ∧ get v "url" = PStr u.
Proof.
  intros videos. pose proof (gather_videos_leaves req us sched w) as Hl.
  fold videos in Hl. split.
  - apply Forall2_length in Hl. unfold tasks_of in Hl.
    by rewrite length_imap in Hl.
  - intros k u Hu.
    assert (tasks_of us (pick_language_priority (Some (languages req))) !! k
            = Some (_process_one (Z.of_nat k + 1) u
                      (pick_language_priority (Some (languages req))))) as Hk.
    { unfold tasks_of. by rewrite list_lookup_imap, Hu. }
    destruct (Forall2_lookup_l _ _ _ _ _ Hl Hk) as (v & Hv & Hleaf).
    exists v. split; [done|]. exact (process_one_leaf _ _ _ _ Hleaf).
Qed.


Lemma analyze_with_gemini_leaf prompt m r :
  leaf (analyze_with_gemini prompt m) r →
  match r with
  | Ok d => synthesis_ok d
  | Raise _ => True
  end.
Proof.
  unfold analyze_with_gemini. destruct _get_client as [[[v p] l]|e].
  - inversion 1 as [| |? ? o ? Hk]; simplify_eq.
    apply leaf_ret_inv in Hk as <-. destruct o; [done|]. by eexists.
  - intros <-%leaf_ret_inv. done.
Qed.

Lemma synthesize_leaf analyses cp :
  leaf (synthesize analyses) cp → synthesis_ok cp ∨ synthesis_failed cp.
Proof.
  unfold synthesize. destruct analyses as [|a analyses].
  { intros <-%leaf_ret_inv. right. by eexists. }
  destruct (json_dumps _) as [js|e].
  - intros (r & Hr & Hcp)%leaf_bind. apply analyze_with_gemini_leaf in Hr.
    destruct r as [d|e]; apply leaf_ret_inv in Hcp as <-.
    + by left.
    + right. by eexists.
  - intros <-%leaf_ret_inv. right. by eexists.
Qed.

Lemma analyze_impl_unfold req sched w :
  valid_req req → request_urls req ≠ [] →
  _analyze_impl req sched w
  = let '(videos, w1) := gather_videos req (request_urls req) sched w in
    let '(_, out, w2) := run (finish req videos) w1 in
    (out, w2).
Proof.
  intros [Hlo _] Hne. unfold _analyze_impl.
  destruct (request_urls req); [done|].
  destruct (Z.ltb_spec (concurrency req) 0); [lia|].
  destruct (Z.eqb_spec (concurrency req) 0); [lia|done].
Qed.

(** The ways [_analyze_impl] ends for a validated request whose URL list is
    not empty. *)
Lemma analyze_impl_cases req sched w :
  valid_req req → request_urls req ≠ [] →
  match (_analyze_impl req sched w).1 with
  | Returned doc =>
      let videos := (gather_videos req (request_urls req) sched w).1 in
      if make_channel_profile req
      then ∃ cp, doc = response_document videos (PDict cp)
                 ∧ (synthesis_ok cp ∨ synthesis_failed cp)
                 ∧ ∃ analyses, collect_analyses videos = Ok analyses
      else doc = response_document videos PNone
  | Uncaught e =>
      make_channel_profile req = true
      ∧ collect_analyses (gather_videos req (request_urls req) sched w).1 = Raise e
  | HTTPException _ _ | Pending => False
  end.
Proof.
  intros Hv Hne. rewrite (analyze_impl_unfold _ _ _ Hv Hne).
  destruct (gather_videos req (request_urls req) sched w) as [videos w1].
  cbn [fst]. unfold finish.
  destruct (make_channel_profile req); [|by cbn].
  destruct (collect_analyses videos) as [analyses|e]; [|by cbn].
  rewrite run_bind. pose proof (run_leaf (synthesize analyses) w1) as Hcp.
  destruct (run (synthesize analyses) w1) as [[l1 cp] w2]. cbn in *.
  apply synthesize_leaf in Hcp. eauto.
Qed.

End HandlerFacts.

(** * The response document *)

Section Response.

Context `{Runtime} `{Templates} `{Config} `{Providers}.

(** When no item succeeded there is nothing to reshape. *)
Lemma collect_analyses_all_failed videos :
  Forall (λ v, truthy (get v "ok") = false) videos →
  collect_analyses videos = Ok [].
Proof. induction 1 as [|v videos Hv _ IH]; cbn; [done|]. by rewrite Hv. Qed.

End Response.

(** C1. For a validated request whose URL list is not empty, the document
    returned has in [videos] one entry per URL of the normalized list (which
    has no repetition), and the entry in position [k] (counted from 1) has
    [index = k] and the [k]-th normalized URL, for every schedule of the
    item pipelines. The one other way the handler can end is with an
    exception raised while reshaping the analyses for the channel profile. *)
Theorem response_videos_in_order `{Runtime} `{Templates} `{Config} `{Providers}
    (req : AnalyzeReq) (sched : list nat) (w : World) :
  valid_req req → request_urls req ≠ [] →
  NoDup (request_urls req)
  ∧ match (_analyze_impl req sched w).1 with
    | Returned doc =>
        ∃ videos,
          assoc "videos" doc = Some (PList (PDict <$> videos))
          ∧ assoc "count" doc = Some (PInt (Z.of_nat (length videos)))
          ∧ length videos = length (request_urls req)
          ∧ ∀ k u, request_urls req !! k = Some u →
              ∃ v, videos !! k = Some v
                   ∧ get v "index" = PInt (Z.of_nat k + 1)
                   ∧ get v "url" = PStr u
    | Uncaught e =>
        make_channel_profile req = true
        ∧ collect_analyses (gather_videos req (request_urls req) sched w).1 = Raise e
    | HTTPException _ _ | Pending => False
    end.
Proof.
  intros Hv Hne. split; [apply normalize_urls_tokens|].
  pose proof (analyze_impl_cases req sched w Hv Hne) as Hc. cbv zeta in Hc.
  pose proof (gather_videos_in_order req (request_urls req) sched w) as [Hlen Hpos].
  destruct (_analyze_impl req sched w).1 as [doc|code detail|e|]; [|done|done|done].
  exists (gather_videos req (request_urls req) sched w).1.
  destruct (make_channel_profile req).
  - destruct Hc as (cp & -> & _). by repeat split.
  - subst doc. by repeat split.
Qed.

Lemma response_videos_in_order_witness :
  let req := Sample.request ["https://a"; "https://b"; "https://a"] true in
  let sched := [1; 1; 1; 0]%nat in
  let w : @World Sample.scripted :=
    ([Sample.transcript_answer; Sample.transcript_answer],
     [GenResponse (Some "{}"); GenResponse (Some Sample.json_ok);
      GenResponse (Some "profile")]) in
  valid_req req
  ∧ @request_urls Sample.runtime req ≠ []
  ∧ NoDup (@request_urls Sample.runtime req)
  ∧ match (@_analyze_impl Sample.runtime Sample.templates Sample.config
             Sample.scripted req sched w).1 with
    | Returned doc =>
        ∃ videos,
          assoc "videos" doc = Some (PList (PDict <$> videos))
          ∧ assoc "count" doc = Some (PInt (Z.of_nat (length videos)))
          ∧ length videos = length (@request_urls Sample.runtime req)
          ∧ ∀ k u, @request_urls Sample.runtime req !! k = Some u →
              ∃ v, videos !! k = Some v
                   ∧ get v "index" = PInt (Z.of_nat k + 1)
                   ∧ get v "url" = PStr u
    | Uncaught e =>
        make_channel_profile req = true
        ∧ @collect_analyses Sample.runtime
            (@gather_videos Sample.runtime Sample.templates Sample.config
               Sample.scripted req (@request_urls Sample.runtime req) sched w).1
          = Raise e
    | HTTPException _ _ | Pending => False
    end.
Proof.
  intros req sched w.
  assert (valid_req req) as Hv by (unfold valid_req; simpl; lia).
  assert (@request_urls Sample.runtime req ≠ []) as Hne by (vm_compute; discriminate).
  split; [exact Hv|]. split; [exact Hne|].
  exact (@response_videos_in_order Sample.runtime Sample.templates Sample.config
           Sample.scripted req sched w Hv Hne).
Defined.

(** Two schedules of the same request: in the first the item for the
    first URL makes its calls first, in the second the item for the second
    URL runs to its end before the first starts. The provider hands out its
    answers in the order of the calls, so the analyses are exchanged, and
    each entry keeps its position, index and URL. *)
Example completion_order_example :
  let req := Sample.request ["https://a"; "https://b"] false in
  let w : @World Sample.scripted :=
    ([Sample.transcript_answer; Sample.transcript_answer],
     [GenResponse (Some "{}"); GenResponse (Some Sample.json_ok)]) in
  let videos sched :=
    (@gather_videos Sample.runtime Sample.templates Sample.config
       Sample.scripted req (@request_urls Sample.runtime req) sched w).1 in
  let analysis v := get v "videoAnalysis" in
  let place v := (get v "index", get v "url") in
  place <$> videos [] = [(PInt 1, PStr "https://a"); (PInt 2, PStr "https://b")]
  ∧ place <$> videos [1; 1; 1; 1]%nat = place <$> videos []
  ∧ analysis <$> videos []
    = [PDict (analysis_ok "{}"); PDict (analysis_ok Sample.json_ok)]
  ∧ analysis <$> videos [1; 1; 1; 1]%nat
    = [PDict (analysis_ok Sample.json_ok); PDict (analysis_ok "{}")].
Proof. vm_compute. repeat split. Qed.

(** C2, as the code has it. The document always has the field
    [channelProfile]. Its value is [None] exactly when
    [make_channel_profile] is false; when the flag is true it is a dict,
    either the result of the synthesis call or the failure record with
    [ok = False] and [error]. *)
Theorem channel_profile_field `{Runtime} `{Templates} `{Config} `{Providers}
    (req : AnalyzeReq) (sched : list nat) (w : World) :
  valid_req req → request_urls req ≠ [] →
  match (_analyze_impl req sched w).1 with
  | Returned doc =>
      ∃ cp, assoc "channelProfile" doc = Some cp
            ∧ (cp = PNone ↔ make_channel_profile req = false)
            ∧ (make_channel_profile req = true →
               ∃ d, cp = PDict d ∧ (synthesis_ok d ∨ synthesis_failed d))
  | Uncaught e =>
      make_channel_profile req = true
      ∧ collect_analyses (gather_videos req (request_urls req) sched w).1 = Raise e
  | HTTPException _ _ | Pending => False
  end.
Proof.
  intros Hv Hne. pose proof (analyze_impl_cases req sched w Hv Hne) as Hc.
  cbv zeta in Hc.
  destruct (_analyze_impl req sched w).1 as [doc|code detail|e|]; [|done|done|done].
  destruct (make_channel_profile req).
  - destruct Hc as (cp & -> & Hcp & _). exists (PDict cp).
    split; [done|]. split; [done|]. intros _. by exists cp.
  - subst doc. exists PNone. by repeat split.
Qed.

Lemma channel_profile_field_witness :
  let req := Sample.request ["https://a"] true in
  let w : @World Sample.scripted := ([], []) in
  valid_req req
  ∧ @request_urls Sample.runtime req ≠ []
  ∧ match (@_analyze_impl Sample.runtime Sample.templates Sample.config
             Sample.scripted req [] w).1 with
    | Returned doc =>
        ∃ cp, assoc "channelProfile" doc = Some cp
              ∧ (cp = PNone ↔ make_channel_profile req = false)
              ∧ (make_channel_profile req = true →
                 ∃ d, cp = PDict d
                      ∧ (@synthesis_ok Sample.config d ∨ synthesis_failed d))
    | Uncaught e =>
        make_channel_profile req = true
        ∧ @collect_analyses Sample.runtime
            (@gather_videos Sample.runtime Sample.templates Sample.config
               Sample.scripted req (@request_urls Sample.runtime req) [] w).1
          = Raise e
    | HTTPException _ _ | Pending => False
    end.
Proof.
  intros req w.
  assert (valid_req req) as Hv by (unfold valid_req; simpl; lia).
  assert (@request_urls Sample.runtime req ≠ []) as Hne by (vm_compute; discriminate).
  split; [exact Hv|]. split; [exact Hne|].
  exact (@channel_profile_field Sample.runtime Sample.templates Sample.config
           Sample.scripted req [] w Hv Hne).
Defined.

(** C2, as stated, fails: with [make_channel_profile] false the document
    still has the field [channelProfile] (holding [None]), so the field is
    not absent exactly when the flag is false. *)
Lemma channel_profile_not_omitted :
  let req := Sample.request ["https://a"] false in
  let w : @World Sample.scripted := ([], []) in
  ∃ doc,
    (@_analyze_impl Sample.runtime Sample.templates Sample.config
       Sample.scripted req [] w).1 = Returned doc
    ∧ ¬ (assoc "channelProfile" doc = None ↔ make_channel_profile req = false).
Proof.
  eexists. split; [vm_compute; reflexivity|].
  intros [_ Habs]. specialize (Habs eq_refl). discriminate Habs.
Qed.

(** C9. For a validated request whose URL list is not empty, the document
    returned has [ok = True] at the top, whatever the items and the
    synthesis did; in particular a document is returned, with [ok = True],
    when every item failed. The one other way the handler can end is with
    an exception raised while reshaping the analyses. *)
Theorem response_ok_true `{Runtime} `{Templates} `{Config} `{Providers}
    (req : AnalyzeReq) (sched : list nat) (w : World) :
  valid_req req → request_urls req ≠ [] →
  let videos := (gather_videos req (request_urls req) sched w).1 in
  match (_analyze_impl req sched w).1 with
  | Returned doc => assoc "ok" doc = Some (PBool true)
  | Uncaught e =>
      make_channel_profile req = true ∧ collect_analyses videos = Raise e
  | HTTPException _ _ | Pending => False
  end
  ∧ (Forall (λ v, truthy (get v "ok") = false) videos →
     ∃ doc, (_analyze_impl req sched w).1 = Returned doc
            ∧ assoc "ok" doc = Some (PBool true)).
Proof.
  intros Hv Hne videos. pose proof (analyze_impl_cases req sched w Hv Hne) as Hc.
  cbv zeta in Hc. fold videos in Hc.
  assert (∀ doc, (_analyze_impl req sched w).1 = Returned doc →
                 assoc "ok" doc = Some (PBool true)) as Hok.
  { intros doc Hd. rewrite Hd in Hc. destruct (make_channel_profile req).
    - by destruct Hc as (cp & -> & _).
    - by subst doc. }
  split.
  - destruct (_analyze_impl req sched w).1 as [doc|code detail|e|]; [|done|done|done].
    by apply Hok.
  - intros Hfailed%collect_analyses_all_failed.
    destruct (_analyze_impl req sched w).1 as [doc|code detail|e|] eqn:Hout.
    + exists doc. split; [done|]. by apply Hok.
    + done.
    + destruct Hc as [_ Hc]. congruence.
    + done.
Qed.

Lemma response_ok_true_witness :
  let req := Sample.request ["https://a"; "https://b"] true in
  let w : @World Sample.scripted := ([], []) in
  let videos :=
    (@gather_videos Sample.runtime Sample.templates Sample.config
       Sample.scripted req (@request_urls Sample.runtime req) [] w).1 in
  valid_req req
  ∧ @request_urls Sample.runtime req ≠ []
  ∧ match (@_analyze_impl Sample.runtime Sample.templates Sample.config
             Sample.scripted req [] w).1 with
    | Returned doc => assoc "ok" doc = Some (PBool true)
    | Uncaught e =>
        make_channel_profile req = true
        ∧ @collect_analyses Sample.runtime videos = Raise e
    | HTTPException _ _ | Pending => False
    end
  ∧ (Forall (λ v, truthy (get v "ok") = false) videos →
     ∃ doc, (@_analyze_impl Sample.runtime Sample.templates Sample.config
               Sample.scripted req [] w).1 = Returned doc
            ∧ assoc "ok" doc = Some (PBool true)).
Proof.
  intros req w videos.
  assert (valid_req req) as Hv by (unfold valid_req; simpl; lia).
  assert (@request_urls Sample.runtime req ≠ []) as Hne by (vm_compute; discriminate).
  split; [exact Hv|]. split; [exact Hne|].
  exact (@response_ok_true Sample.runtime Sample.templates Sample.config
           Sample.scripted req [] w Hv Hne).
Defined.

(** C10. A validated request whose URLs normalize to the empty list is
    rejected with [HTTPException(400, "urls is empty")]: no document is
    built and no provider is called. *)
Theorem empty_urls_rejected `{Runtime} `{Templates} `{Config} `{Providers}
    (req : AnalyzeReq) (sched : list nat) (w : World) :
  request_urls req = [] →
  _analyze_impl req sched w = (HTTPException 400 "urls is empty", w).
Proof. intros Hus. unfold _analyze_impl. by rewrite Hus. Qed.

Lemma empty_urls_rejected_witness :
  let req := Sample.request ["ftp://host/video"; "youtu.be/abc"; ""] true in
  let w : @World Sample.scripted := ([Sample.transcript_answer], []) in
  @request_urls Sample.runtime req = []
  ∧ @_analyze_impl Sample.runtime Sample.templates Sample.config
      Sample.scripted req [] w
    = (HTTPException 400 "urls is empty", w).
Proof.
  intros req w.
  assert (@request_urls Sample.runtime req = []) as Hus by (vm_compute; reflexivity).
  split; [exact Hus|].
  exact (@empty_urls_rejected Sample.runtime Sample.templates Sample.config
           Sample.scripted req [] w Hus).
Defined.

(** * The item pipeline *)

Section StripFacts.

Lemma rstrip_idem s : Str.rstrip (Str.rstrip s) = Str.rstrip s.
Proof.
  induction s as [|c s IH]; [done|]. cbn [Str.rstrip].
  destruct (Str.rstrip s) as [|a r] eqn:E.
  - destruct (Str.isspace c) eqn:Hc; [done|]. cbn. by rewrite Hc.
  - cbn [Str.rstrip]. cbn [Str.rstrip] in IH. by rewrite IH.
Qed.

Lemma rstrip_head c s :
  Str.isspace c = false → ∃ r, Str.rstrip (String c s) = String c r.
Proof.
  intros Hc. cbn [Str.rstrip]. destruct (Str.rstrip s); rewrite ?Hc; eauto.
Qed.

Lemma lstrip_cases s :
  Str.lstrip s = ""
  ∨ ∃ c r, Str.lstrip s = String c r ∧ Str.isspace c = false.
Proof.
  induction s as [|c s IH]; [by left|]. cbn.
  destruct (Str.isspace c) eqn:Hc; [done|]. right. eauto.
Qed.

Lemma strip_idem s : Str.strip (Str.strip s) = Str.strip s.
Proof.
  unfold Str.strip. destruct (lstrip_cases s) as [->|(c & r & -> & Hc)]; [done|].
  destruct (rstrip_head c r Hc) as [r' Hr].
  rewrite Hr, (lstrip_head _ _ Hc), <- Hr. apply rstrip_idem.
Qed.

Lemma py_strip_text s : py_strip (por (PStr s) (PStr "")) = Ok (Str.strip s).
Proof.
  unfold por. cbn. destruct (String.eqb_spec s "") as [->|]; done.
Qed.

End StripFacts.

Section FetchFacts.

Context `{Runtime} `{Templates} `{Config} `{Providers}.

(** The fetch of one language makes no generation call. *)
Lemma fetch_no_generate url lang timeout token actor w :
  generate_calls
    (run (fetch_transcript_and_metadata url lang timeout token actor) w).1.1 = [].
Proof.
  unfold fetch_transcript_and_metadata. destruct (negb _); [done|]. cbn.
  by destruct (http_post w _) as [o w1].
Qed.

Lemma fetch_loop_no_generate url lang_priority data err w :
  generate_calls (run (fetch_loop url lang_priority data err) w).1.1 = [].
Proof.
  revert data err w. induction lang_priority as [|lang rest IH];
    intros data err w; [done|].
  cbn [fetch_loop]. rewrite run_bind.
  pose proof (fetch_no_generate url lang APIFY_TIMEOUT_SEC APIFY_TOKEN
                "starvibe~youtube-video-transcript" w) as Hf.
  destruct (run (fetch_transcript_and_metadata _ _ _ _ _) w) as [[l1 r] w1].
  cbn in Hf. destruct r as [d|e].
  - cbn. by rewrite app_nil_r.
  - specialize (IH None (Some e) w1).
    destruct (run (fetch_loop url rest None (Some e)) w1) as [[l2 b] w2].
    cbn in *. by rewrite generate_calls_app, Hf, IH.
Qed.

(** When every attempt raised, the loop ends without data and with the
    message of the last attempt. *)
Lemma fetch_loop_all_failed url lang_priority data err w errs :
  fetch_attempts url lang_priority w = Raise <$> errs →
  (run (fetch_loop url lang_priority data err) w).1.2
  = (match errs with [] => data | _ :: _ => None end,
     match last errs with Some e => Some e | None => err end).
Proof.
  revert data err w errs. induction lang_priority as [|lang rest IH];
    intros data err w errs Hatt; cbn [fetch_attempts] in Hatt.
  - by destruct errs.
  - cbn [fetch_loop]. rewrite run_bind.
    destruct (run (fetch_transcript_and_metadata _ _ _ _ _) w) as [[l1 r] w1].
    destruct errs as [|e0 errs]; [done|]. rewrite fmap_cons in Hatt.
    injection Hatt as -> Hatt.
    specialize (IH None (Some e0) w1 errs Hatt).
    destruct (run (fetch_loop url rest None (Some e0)) w1) as [[l2 b] w2].
    cbn in *. subst b. f_equal.
    + by destruct errs.
    + destruct errs as [|e1 errs]; [done|].
      change (last (e0 :: e1 :: errs)) with (last (e1 :: errs)).
      destruct (last (e1 :: errs)) eqn:E; [done|]. by apply last_None in E.
Qed.

End FetchFacts.

(** C4, as the code has it. When the fetch raises for every language of a
    priority list that is not empty, the item result has [ok = False],
    [stage = "apify"], no field [videoAnalysis], and as [error] the message
    of the last attempt when that message is not empty, and
    ["Apify failed"] when it is empty. *)
Theorem fetch_failure_result `{Runtime} `{Templates} `{Config} `{Providers}
    (idx : Z) (url : string) (lang_priority : list string) (w : World)
    (errs : list string) (e : string) :
  fetch_attempts url lang_priority w = Raise <$> errs →
  last errs = Some e →
  let r := (run (_process_one idx url lang_priority) w).1.2 in
  r = [ ("index", PInt idx); ("url", PStr url); ("ok", PBool false);
        ("stage", PStr "apify");
        ("error", PStr (if Str.nonempty e then e else "Apify failed")) ]
  ∧ assoc "videoAnalysis" r = None.
Proof.
  intros Hatt Hlast r. subst r. unfold _process_one. rewrite run_bind.
  pose proof (fetch_loop_all_failed url lang_priority None None w errs Hatt) as Hl.
  destruct (run (fetch_loop url lang_priority None None) w) as [[l1 [d err]] w1].
  cbn in Hl. rewrite Hlast in Hl. injection Hl as -> ->.
  destruct errs as [|e0 errs]; [done|]. cbn. done.
Qed.

Lemma fetch_failure_result_witness :
  let w : @World Sample.scripted :=
    ([HttpResponse 500 "boom" (Raise "no json"); HttpRaised "timed out"], []) in
  let r :=
    (run (@_process_one Sample.runtime Sample.templates Sample.config
            7 "https://a" ["ko"; "en"]) w).1.2 in
  @fetch_attempts Sample.config Sample.scripted "https://a" ["ko"; "en"] w
  = Raise <$> ["Apify HTTP 500: boom"; "timed out"]
  ∧ last ["Apify HTTP 500: boom"; "timed out"] = Some "timed out"
  ∧ r = [ ("index", PInt 7); ("url", PStr "https://a"); ("ok", PBool false);
          ("stage", PStr "apify");
          ("error", PStr (if Str.nonempty "timed out" then "timed out"
                          else "Apify failed")) ]
  ∧ assoc "videoAnalysis" r = None.
Proof.
  intros w r.
  assert (@fetch_attempts Sample.config Sample.scripted "https://a" ["ko"; "en"] w
          = Raise <$> ["Apify HTTP 500: boom"; "timed out"]) as Hatt
    by (vm_compute; reflexivity).
  assert (last ["Apify HTTP 500: boom"; "timed out"] = Some "timed out") as Hlast
    by reflexivity.
  split; [exact Hatt|]. split; [exact Hlast|].
  exact (@fetch_failure_result Sample.runtime Sample.templates Sample.config
           Sample.scripted 7 "https://a" ["ko"; "en"] w _ _ Hatt Hlast).
Defined.

(** C4, as stated, fails: when the last attempt raises an exception whose
    message is empty, the [error] of the item is ["Apify failed"], not that
    message. *)
Lemma fetch_error_not_last_message :
  let w : @World Sample.scripted :=
    ([HttpResponse 500 "boom" (Raise "no json"); HttpRaised ""], []) in
  let r :=
    (run (@_process_one Sample.runtime Sample.templates Sample.config
            7 "https://a" ["ko"; "en"]) w).1.2 in
  @fetch_attempts Sample.config Sample.scripted "https://a" ["ko"; "en"] w
  = [Raise "Apify HTTP 500: boom"; Raise ""]
  ∧ get r "error" = PStr "Apify failed"
  ∧ get r "error" ≠ PStr "".
Proof.
  split; [vm_compute; reflexivity|]. split; [vm_compute; reflexivity|].
  vm_compute. discriminate.
Qed.

Section AnalysisFacts.

Context `{Runtime} `{Templates} `{Config} `{Providers}.

(** What the generation stage of an item does, read off the log of its
    calls: the first output decides whether a second call is made, and the
    second output is final. *)
Lemma run_analysis_try idx meta transcript_text w :
  ∀ rq1 t1 rest,
    generate_calls (run (analysis_try idx meta transcript_text) w).1.1
    = (rq1, GenResponse t1) :: rest →
    let out1 := Str.strip (default "" t1) in
    let res := (run (analysis_try idx meta transcript_text) w).1.2 in
    if parses out1 then rest = [] ∧ res = (out1, Ok ())
    else
      ∃ rq2 o2,
        rest = [(rq2, o2)]
        ∧ gen_contents rq2
          = build_json_repair_prompt "video_analysis" (Str.slice_to 6000 out1)
        ∧ res = match o2 with
                | GenResponse t2 =>
                    let out2 := Str.strip (default "" t2) in
                    (out2, if parses out2 then Ok ()
                           else Raise "Gemini output is not valid JSON even after repair")
                | GenRaised e => (out1, Raise e)
                end.
Proof.
  intros rq1 t1 rest. unfold analysis_try.
  destruct (_ ≫= _) as [prompt|e]; [|done].
  unfold analyze_with_gemini.
  destruct _get_client as [[[vertexai project] location]|e]; [|done].
  cbn [mbind Prog_bind prog_bind run].
  destruct (generate_content w _) as [o1 w1].
  destruct o1 as [e1|t1']; [by intros [= ]|].
  cbn [prog_bind]. cbn [get get_or assoc String.eqb Ascii.eqb Bool.eqb].
  rewrite py_strip_text, strip_idem. unfold parses.
  destruct (is_none (_extract_json_from_text (Str.strip (default "" t1')))) eqn:Hp1.
  - cbn [run prog_bind]. destruct (generate_content w1 _) as [o2 w2].
    destruct o2 as [e2|t2].
    + cbn. intros [= <- <- <-]. rewrite Hp1. cbn. eauto.
    + cbn [prog_bind]. cbn [get get_or assoc String.eqb Ascii.eqb Bool.eqb].
      rewrite py_strip_text, strip_idem.
      destruct (is_none (_extract_json_from_text (Str.strip (default "" t2)))) eqn:Hp2;
        cbn; intros [= <- <- <-]; rewrite Hp1; cbn;
        eexists _, _; (split; [reflexivity|]); (split; [reflexivity|]);
        by rewrite Hp2.
  - cbn. intros [= <- <- <-]. by rewrite Hp1.
Qed.

End AnalysisFacts.

(** C5. Whenever the first generation call of an item returns an output:
    if the output parses, that call is the only one and the analysis is
    the successful one; if it does not parse, exactly one more call is
    made, with the repair prompt built from the first 6000 characters of
    the failed output, and what it gives is final: an output that parses
    gives the successful analysis, one that does not gives the failed
    analysis with the fixed error and up to 1200 characters of that output,
    and an exception gives the failed analysis with its message. In every
    case the item keeps [ok = True]. *)
Theorem single_repair `{Runtime} `{Templates} `{Config} `{Providers}
    (idx : Z) (url : string) (lang_priority : list string) (w : World)
    (rq1 : GenRequest) (t1 : option string)
    (rest : list (GenRequest * GenOutcome)) :
  generate_calls (run (_process_one idx url lang_priority) w).1.1
  = (rq1, GenResponse t1) :: rest →
  let out1 := Str.strip (default "" t1) in
  let r := (run (_process_one idx url lang_priority) w).1.2 in
  get r "ok" = PBool true
  ∧ if parses out1
    then rest = [] ∧ get r "videoAnalysis" = PDict (analysis_ok out1)
    else
      ∃ rq2 o2,
        rest = [(rq2, o2)]
        ∧ gen_contents rq2
          = build_json_repair_prompt "video_analysis" (Str.slice_to 6000 out1)
        ∧ get r "videoAnalysis"
          = PDict match o2 with
                  | GenResponse t2 =>
                      let out2 := Str.strip (default "" t2) in
                      if parses out2 then analysis_ok out2
                      else analysis_failed
                             "Gemini output is not valid JSON even after repair" out2
                  | GenRaised e => analysis_failed e out1
                  end.
Proof.
  unfold _process_one. rewrite run_bind.
  pose proof (fetch_loop_no_generate url lang_priority None None w) as Hf.
  destruct (run (fetch_loop url lang_priority None None) w) as [[l1 [d err]] w1].
  cbn [fst snd] in Hf.
  destruct d as [[|kv d]|]; cbn [run fst snd];
    try (rewrite app_nil_r, Hf; discriminate).
  destruct (negb (Str.nonempty _)); cbn [run fst snd];
    [rewrite app_nil_r, Hf; discriminate|].
  rewrite run_bind.
  match goal with |- context [run (analysis_try ?i ?m ?t) w1] =>
    pose proof (run_analysis_try i m t w1 rq1 t1 rest) as Ha;
    destruct (run (analysis_try i m t) w1) as [[l2 [text res]] w2]
  end.
  cbn [run fst snd] in *. rewrite app_nil_r, generate_calls_app, Hf.
  intros Hlog. specialize (Ha Hlog). cbv zeta in Ha. cbv zeta.
  split; [done|].
  destruct (parses (Str.strip (default "" t1))).
  - destruct Ha as [-> [= -> ->]]. done.
  - destruct Ha as (rq2 & o2 & -> & Hrq & Hres). exists rq2, o2.
    split; [done|]. split; [done|].
    destruct o2 as [e2|t2]; cbv zeta in Hres.
    + by injection Hres as -> ->.
    + injection Hres as -> ->.
      by destruct (parses (Str.strip (default "" t2))).
Qed.

Lemma single_repair_witness :
  let w : @World Sample.scripted :=
    ([Sample.transcript_answer],
     [GenResponse (Some "not json"); GenResponse (Some "still not json")]) in
  let run1 :=
    run (@_process_one Sample.runtime Sample.templates Sample.config
           1 "https://a" ["ko"; "en"]) w in
  let rq1 : GenRequest :=
    {| gen_vertexai := true; gen_project := "project";
       gen_location := "us-central1"; gen_model := "gemini-2.5-flash";
       gen_contents :=
         "analyze video 1 with schema, index: 1" +:+ nl
         +:+ "- title: Title" +:+ nl +:+ "- description: " +:+ nl +:+ nl
         +:+ "[transcript_text]" +:+ nl +:+ "Hello world";
       gen_max_output_tokens := None |} in
  let rq2 : GenRequest :=
    {| gen_vertexai := true; gen_project := "project";
       gen_location := "us-central1"; gen_model := "gemini-2.5-flash";
       gen_contents :=
         "repair for schema: video_analysis" +:+ nl +:+ nl
         +:+ "[raw_output]" +:+ nl +:+ "not json";
       gen_max_output_tokens := None |} in
  let rest := [(rq2, GenResponse (Some "still not json"))] in
  let out1 := Str.strip (default "" (Some "not json")) in
  let r := run1.1.2 in
  generate_calls run1.1.1 = (rq1, GenResponse (Some "not json")) :: rest
  ∧ get r "ok" = PBool true
  ∧ if @parses Sample.runtime out1
    then rest = [] ∧ get r "videoAnalysis" = PDict (analysis_ok out1)
    else
      ∃ rq2 o2,
        rest = [(rq2, o2)]
        ∧ gen_contents rq2
          = @build_json_repair_prompt Sample.templates "video_analysis"
              (Str.slice_to 6000 out1)
        ∧ get r "videoAnalysis"
          = PDict match o2 with
                  | GenResponse t2 =>
                      let out2 := Str.strip (default "" t2) in
                      if @parses Sample.runtime out2 then analysis_ok out2
                      else analysis_failed
                             "Gemini output is not valid JSON even after repair" out2
                  | GenRaised e => analysis_failed e out1
                  end.
Proof.
  intros w run1 rq1 rq2 rest out1 r.
  assert (generate_calls run1.1.1 = (rq1, GenResponse (Some "not json")) :: rest)
    as Hlog by (vm_compute; reflexivity).
  split; [exact Hlog|].
  exact (@single_repair Sample.runtime Sample.templates Sample.config
           Sample.scripted 1 "https://a" ["ko"; "en"] w rq1 (Some "not json")
           rest Hlog).
Defined.

(** * The generation request *)

(** The request [analyze_with_gemini] sends does not depend on
    [max_output_tokens]. *)
Lemma analyze_with_gemini_ceiling_unused `{Config} (prompt : string) (m m' : Z) :
  analyze_with_gemini prompt m = analyze_with_gemini prompt m'.
Proof. reflexivity. Qed.

(** No generation request carries an output-token ceiling, whatever the
    caller passed. *)
Lemma analyze_with_gemini_no_ceiling `{Config} `{Providers}
    (prompt : string) (m : Z) (w : World) :
  Forall (λ call, gen_max_output_tokens call.1 = None)
    (generate_calls (run (analyze_with_gemini prompt m) w).1.1).
Proof.
  unfold analyze_with_gemini.
  destruct _get_client as [[[vertexai project] location]|e]; [|constructor].
  cbn. destruct (generate_content w _) as [o w1]. cbn. by repeat constructor.
Qed.

(** C3, on the code. Called with [max_output_tokens = 2048], as every
    caller in the pipeline does, [analyze_with_gemini] issues one
    generation request, made of the client, the model and the prompt; the
    request carries no output-token ceiling. *)
Theorem generation_request_has_no_ceiling :
  let w : @World Sample.scripted := ([], [GenResponse (Some "{}")]) in
  generate_calls (run (@analyze_with_gemini Sample.config "prompt" 2048) w).1.1
  = [ ({| gen_vertexai := true; gen_project := "project";
          gen_location := "us-central1"; gen_model := "gemini-2.5-flash";
          gen_contents := "prompt"; gen_max_output_tokens := None |},
       GenResponse (Some "{}")) ].
Proof. vm_compute. reflexivity. Qed.

(** * Further properties of the text utilities *)

(** X1. Whatever it is given, [normalize_urls] returns a list without
    repetition whose entries are not empty, contain no whitespace and no
    comma, and start with [http://] or [https://]. *)
Theorem normalize_urls_output `{Runtime} (x : pyval) :
  NoDup (normalize_urls x)
  ∧ Forall (λ u,
      Str.nonempty u = true
      ∧ all_chars (λ c, negb (Str.isspace c) && negb (Ascii.eqb c ",")) u = true
      ∧ Str.startswith "http://" u || Str.startswith "https://" u = true)
      (normalize_urls x).
Proof.
  destruct (normalize_urls_tokens x) as [Htok Hnd]. split; [done|].
  eapply Forall_impl; [exact Htok|]. intros u (Hne & Hsep & Hpre).
  split; [done|]. split; [|done]. clear -Hsep.
  induction u as [|c u IH]; [done|]. cbn in *.
  apply andb_prop in Hsep as [Hc Hu]. rewrite (IH Hu), andb_true_r.
  unfold Re.is_url_sep in Hc. destruct (Str.isspace c); [done|].
  by destruct (Ascii.eqb c ",").
Qed.

Section DedupeMore.

Lemma dedupe_complete seen l x : x ∈ l → x ∉ seen → x ∈ dedupe seen l.
Proof.
  revert seen. induction l as [|u l IH]; intros seen Hx Hs; [by apply elem_of_nil in Hx|].
  cbn. destruct (decide (x = u)) as [->|Hne].
  - rewrite decide_False by done. left.
  - apply elem_of_cons in Hx as [?|Hx]; [done|]. case_decide.
    + by apply IH.
    + right. apply IH; [done|].
      intros [?%elem_of_singleton|?]%elem_of_union; done.
Qed.

Lemma dedupe_sublist seen l : dedupe seen l `sublist_of` l.
Proof.
  revert seen. induction l as [|u l IH]; intros seen; cbn; [done|].
  case_decide; [by apply sublist_cons|by apply sublist_skip].
Qed.

Lemma dedupe_seen seen seen' l :
  (∀ x, x ∈ l → (x ∈ seen ↔ x ∈ seen')) → dedupe seen l = dedupe seen' l.
Proof.
  revert seen seen'. induction l as [|u l IH]; intros seen seen' Hs; cbn; [done|].
  pose proof (Hs u (list_elem_of_here _ _)) as Hu.
  assert (∀ x, x ∈ l → (x ∈ seen ↔ x ∈ seen')) as Hl
    by (intros x Hx; apply Hs; by apply list_elem_of_further).
  do 2 case_decide; try tauto; [by apply IH|].
  f_equal. apply IH. intros x Hx. specialize (Hl x Hx).
  rewrite !elem_of_union. tauto.
Qed.

Lemma dedupe_app seen l1 l2 :
  dedupe seen (l1 ++ l2) = dedupe seen l1 ++ dedupe (list_to_set l1 ∪ seen) l2.
Proof.
  revert seen. induction l1 as [|u l1 IH]; intros seen; cbn.
  - apply dedupe_seen. intros x _. rewrite elem_of_union, elem_of_empty. tauto.
  - case_decide as Hu; rewrite IH.
    + f_equal. apply dedupe_seen. intros x _.
      rewrite !elem_of_union, elem_of_singleton. split; [tauto|].
      intros [[->|?]|?]; tauto.
    + cbn. do 2 f_equal. apply dedupe_seen. intros x _.
      rewrite !elem_of_union, elem_of_singleton. tauto.
Qed.

Lemma filter_all (P : string → Prop) `{!∀ x, Decision (P x)} (l : list string) :
  (∀ x, P x) → filter P l = l.
Proof.
  intros HP. induction l as [|x l IH]; [done|].
  by rewrite filter_cons_True, IH.
Qed.

(** The loop keeps what the set has not seen, in the order of the first
    occurrences. *)
Lemma dedupe_first seen l :
  dedupe seen l = filter (λ x, x ∉ seen) (first_occurrences l).
Proof.
  revert seen. induction l as [|u l IH]; intros seen; cbn [dedupe first_occurrences];
    [done|].
  rewrite filter_cons, list_filter_filter. case_decide as Hu; rewrite IH.
  - rewrite decide_False by tauto. apply list_filter_iff.
    intros x. split; [|tauto]. intros Hx. split; [done|]. by intros ->.
  - rewrite decide_True by done. f_equal. apply list_filter_iff.
    intros x. rewrite elem_of_union, elem_of_singleton. tauto.
Qed.

Lemma normalize_urls_dedupe `{Runtime} l :
  Forall url_token l → normalize_urls (PList (PStr <$> l)) = dedupe ∅ l.
Proof.
  intros Hl. unfold normalize_urls.
  rewrite (raw_entries_tokens _ Hl), (join_tokens_strip _ Hl).
  destruct (decide (l = [])) as [->|Hne]; [done|].
  unfold Re.split. by rewrite (split_join_tokens _ _ Hl Hne), (cleaned_parts_id _ Hl).
Qed.

End DedupeMore.

(** X2. On a list of well-formed URLs, [normalize_urls] only removes the
    repetitions: the result has the same members as the input, in the
    order of their first occurrences. Every URL stands in the result right
    after the result for what came before its first occurrence. *)
Theorem normalize_urls_keeps_first `{Runtime} (l : list string) :
  Forall url_token l →
  let out := normalize_urls (PList (PStr <$> l)) in
  out = first_occurrences l
  ∧ (∀ l1 u l2, l = l1 ++ u :: l2 → u ∉ l1 →
       ∃ o2, out = normalize_urls (PList (PStr <$> l1)) ++ u :: o2)
  ∧ (∀ u, u ∈ out ↔ u ∈ l) ∧ out `sublist_of` l
  ∧ (NoDup l → out = l).
Proof.
  intros Hl out.
  assert (out = dedupe ∅ l) as -> by by apply normalize_urls_dedupe.
  split; [|split; [|split; [|split]]].
  - rewrite dedupe_first. apply filter_all. intros x. apply not_elem_of_empty.
  - intros l1 u l2 -> Hu. apply Forall_app in Hl as [Hl1 _].
    rewrite (normalize_urls_dedupe _ Hl1), dedupe_app. cbn.
    rewrite decide_False; [by eexists|].
    rewrite elem_of_union, elem_of_list_to_set, elem_of_empty. tauto.
  - intros u. split; [apply dedupe_subseteq|].
    intros Hu. apply dedupe_complete; [done|apply not_elem_of_empty].
  - apply dedupe_sublist.
  - intros Hnd. apply dedupe_id; [done|]. intros ? _. apply not_elem_of_empty.
Qed.

Lemma normalize_urls_keeps_first_witness :
  let l := ["https://b"; "http://a"; "https://b"] in
  let out := @normalize_urls Sample.runtime (PList (PStr <$> l)) in
  Forall url_token l
  ∧ out = first_occurrences l
  ∧ (∀ l1 u l2, l = l1 ++ u :: l2 → u ∉ l1 →
       ∃ o2, out = @normalize_urls Sample.runtime (PList (PStr <$> l1)) ++ u :: o2)
  ∧ (∀ u, u ∈ out ↔ u ∈ l) ∧ out `sublist_of` l ∧ (NoDup l → out = l).
Proof.
  intros l out.
  assert (Forall url_token l) as Hl.
  { repeat constructor; vm_compute; reflexivity. }
  split; [exact Hl|].
  exact (@normalize_urls_keeps_first Sample.runtime l Hl).
Defined.

Section LanguageFacts.

Lemma isspace_lower_char c : Str.isspace (Str.lower_char c) = Str.isspace c.
Proof. destruct c as [[] [] [] [] [] [] [] []]; reflexivity. Qed.

Lemma lower_char_idem c : Str.lower_char (Str.lower_char c) = Str.lower_char c.
Proof. destruct c as [[] [] [] [] [] [] [] []]; reflexivity. Qed.

Lemma lower_idem s : Str.lower (Str.lower s) = Str.lower s.
Proof. induction s as [|c s IH]; [done|]. cbn. by rewrite lower_char_idem, IH. Qed.

Lemma lstrip_lower s : Str.lstrip (Str.lower s) = Str.lower (Str.lstrip s).
Proof.
  induction s as [|c s IH]; [done|]. cbn. rewrite isspace_lower_char.
  by destruct (Str.isspace c).
Qed.

Lemma rstrip_lower s : Str.rstrip (Str.lower s) = Str.lower (Str.rstrip s).
Proof.
  induction s as [|c s IH]; [done|]. cbn [Str.lower Str.rstrip]. rewrite IH.
  destruct (Str.rstrip s); cbn [Str.lower]; [|done].
  rewrite isspace_lower_char. by destruct (Str.isspace c).
Qed.

Lemma strip_lower s : Str.strip (Str.lower s) = Str.lower (Str.strip s).
Proof. unfold Str.strip. by rewrite lstrip_lower, rstrip_lower. Qed.

Lemma language_entries_codes l : Forall language_code (language_entries l).
Proof.
  induction l as [|x l IH]; cbn; [constructor|].
  destruct (Str.nonempty (Str.lower (Str.strip x))) eqn:Hne; [|done].
  constructor; [|done]. split; [done|]. split.
  - by rewrite strip_lower, strip_idem.
  - apply lower_idem.
Qed.

Lemma language_entries_id l : Forall language_code l → language_entries l = l.
Proof.
  induction 1 as [|x l (Hne & Hs & Hl) _ IH]; cbn; [done|].
  by rewrite Hs, Hl, Hne, IH.
Qed.

Lemma pick_language_priority_spec languages :
  let out := pick_language_priority languages in
  out ≠ [] ∧ NoDup out ∧ Forall language_code out.
Proof.
  assert ((["ko"; "en"] : list string) ≠ [] ∧ NoDup ["ko"; "en"]
          ∧ Forall language_code ["ko"; "en"]) as Hdef.
  { split; [done|]. split.
    - apply NoDup_cons. split; [|apply NoDup_singleton].
      by intros ?%list_elem_of_singleton.
    - repeat constructor. }
  cbv zeta. unfold pick_language_priority.
  destruct languages as [[|x l]|]; [done| |done].
  pose proof (dedupe_NoDup ∅ (language_entries (x :: l))) as Hnd.
  pose proof (dedupe_subseteq ∅ (language_entries (x :: l))) as Hsub.
  destruct (dedupe ∅ (language_entries (x :: l))) as [|u us] eqn:E; [done|].
  split; [done|]. split; [done|].
  apply Forall_forall. intros s Hs.
  pose proof (language_entries_codes (x :: l)) as Hcodes.
  rewrite Forall_forall in Hcodes. by apply Hcodes, Hsub.
Qed.

End LanguageFacts.

(** X3. [pick_language_priority] never returns an empty list; the list has
    no repetition and every code in it is not empty, has no surrounding
    whitespace and is in lower case. *)
Theorem pick_language_priority_output (languages : option (list string)) :
  pick_language_priority languages ≠ []
  ∧ NoDup (pick_language_priority languages)
  ∧ Forall language_code (pick_language_priority languages).
Proof. apply pick_language_priority_spec. Qed.

(** X4. [pick_language_priority] is idempotent: applied to a list it
    returned, it returns that list. *)
Theorem pick_language_priority_idempotent (languages : option (list string)) :
  pick_language_priority (Some (pick_language_priority languages))
  = pick_language_priority languages.
Proof.
  destruct (pick_language_priority_spec languages) as (Hne & Hnd & Hcodes).
  cbv zeta in *.
  destruct (pick_language_priority languages) as [|u us] eqn:E; [done|].
  unfold pick_language_priority at 1.
  rewrite (language_entries_id _ Hcodes).
  rewrite dedupe_id; [done|done|]. intros ? _. apply not_elem_of_empty.
Qed.

Section CompactMore.

Lemma app_nil_r_string s : s +:+ "" = s.
Proof. induction s as [|c s IH]; [done|]. by rewrite app_cons, IH. Qed.

Lemma len_take n s : Str.len (Str.take n s) ≤ Z.of_nat n.
Proof.
  unfold Str.len. revert s. induction n as [|n IH]; intros [|c s]; cbn; try lia.
  specialize (IH s). lia.
Qed.

Lemma take_all n s : (String.length s ≤ n)%nat → Str.take n s = s.
Proof.
  revert s. induction n as [|n IH]; intros [|c s] Hn; cbn in *; try done; [lia|].
  rewrite IH; [done|lia].
Qed.

Lemma blank_normal_weaken b s : blank_normal b s = true → blank_normal false s = true.
Proof.
  destruct s as [|c s]; [done|]. cbn. destruct (Re.is_blank c); [|done].
  destruct b; [|done]. by rewrite andb_false_r.
Qed.

Lemma blank_normal_take b n s :
  blank_normal b s = true → blank_normal b (Str.take n s) = true.
Proof.
  revert b s. induction n as [|n IH]; intros b [|c s]; cbn; try done.
  destruct (Re.is_blank c).
  - intros [Hc Hs]%andb_prop. by rewrite Hc, (IH _ _ Hs).
  - apply IH.
Qed.

Lemma newline_normal_take r n s :
  newline_normal r s = true → newline_normal r (Str.take n s) = true.
Proof.
  revert r s. induction n as [|n IH]; intros r [|c s]; cbn; try done.
  destruct (Ascii.eqb c Re.newline).
  - intros [Hc Hs]%andb_prop. by rewrite Hc, (IH _ _ Hs).
  - apply IH.
Qed.

(** The first substitution leaves single spaces only, and changes nothing
    in a text that has single spaces only. *)
Lemma sub_runs_blank_normal b s :
  blank_normal b (Re.sub_runs Re.is_blank " " b s) = true.
Proof.
  revert b. induction s as [|c s IH]; intros b; [done|]. cbn.
  destruct (Re.is_blank c) eqn:Hc.
  - destruct b; [apply IH|]. cbn. apply IH.
  - cbn. rewrite Hc. apply IH.
Qed.

Lemma sub_runs_blank_id b s :
  blank_normal b s = true → Re.sub_runs Re.is_blank " " b s = s.
Proof.
  revert b. induction s as [|c s IH]; intros b; [done|]. cbn.
  destruct (Re.is_blank c) eqn:Hc.
  - intros [[Hsp Hb]%andb_prop Hs]%andb_prop.
    apply negb_true_iff in Hb as ->. apply Ascii.eqb_eq in Hsp as ->.
    by rewrite (IH _ Hs).
  - intros Hs. by rewrite (IH _ Hs).
Qed.

Lemma replicate_snoc n c s :
  Str.replicate (S n) c +:+ s = Str.replicate n c +:+ String c s.
Proof.
  induction n as [|n IH]; [done|].
  change (Str.replicate (S (S n)) c) with (String c (Str.replicate (S n) c)).
  rewrite app_cons, IH. done.
Qed.

Lemma blank_normal_newlines b j s :
  blank_normal b (Str.replicate j Re.newline +:+ s)
  = blank_normal (match j with O => b | S _ => false end) s.
Proof.
  revert b. induction j as [|j IH]; intros b; [done|].
  cbn [Str.replicate]. rewrite app_cons. cbn [blank_normal].
  change (Re.is_blank Re.newline) with false. cbn iota. rewrite IH. by destruct j.
Qed.

Lemma newline_normal_newlines r j s :
  (r + j ≤ 2)%nat →
  newline_normal r (Str.replicate j Re.newline +:+ s) = newline_normal (r + j) s.
Proof.
  revert r. induction j as [|j IH]; intros r Hr.
  - by rewrite Nat.add_0_r.
  - cbn [Str.replicate]. rewrite app_cons. cbn [newline_normal].
    rewrite Ascii.eqb_refl, IH by lia.
    replace (S r + j)%nat with (r + S j)%nat by lia.
    destruct (Nat.ltb_spec (S r) 3); [done|lia].
Qed.

(** The second substitution leaves no three newlines in a row, keeps the
    single spaces single, and changes nothing in a text without three
    newlines in a row. *)
Lemma sub_newlines_newline_normal run s :
  newline_normal 0 (Re.sub_newlines run s) = true.
Proof.
  revert run. induction s as [|c s IH]; intros run; cbn [Re.sub_newlines].
  - rewrite <- (app_nil_r_string (Str.replicate _ _)).
    rewrite newline_normal_newlines by lia. done.
  - destruct (Ascii.eqb c Re.newline) eqn:Hc; [apply IH|].
    rewrite newline_normal_newlines by lia. cbn. rewrite Hc. apply IH.
Qed.

Lemma sub_newlines_blank_normal run b s :
  blank_normal (match run with O => b | S _ => false end) s = true →
  blank_normal b (Re.sub_newlines run s) = true.
Proof.
  revert run b. induction s as [|c s IH]; intros run b; cbn [Re.sub_newlines].
  - intros _. rewrite <- (app_nil_r_string (Str.replicate _ _)).
    by rewrite blank_normal_newlines.
  - destruct (Ascii.eqb c Re.newline) eqn:Hc.
    + apply Ascii.eqb_eq in Hc as ->. cbn [blank_normal].
      change (Re.is_blank Re.newline) with false. cbn iota.
      apply (IH (S run) b).
    + rewrite blank_normal_newlines.
      replace (match Nat.min run 2 with O => b | S _ => false end)
        with (match run with O => b | S _ => false end)
        by (by destruct run as [|[|[|?]]]).
      cbn [blank_normal]. destruct (Re.is_blank c).
      * intros [Hc' Hs]%andb_prop. rewrite Hc'. by apply (IH 0%nat).
      * apply (IH 0%nat).
Qed.

Lemma sub_newlines_id run s :
  (run ≤ 2)%nat → newline_normal run s = true →
  Re.sub_newlines run s = Str.replicate run Re.newline +:+ s.
Proof.
  revert run. induction s as [|c s IH]; intros run Hrun; cbn.
  - intros _. by rewrite Nat.min_l, app_nil_r_string.
  - destruct (Ascii.eqb c Re.newline) eqn:Hc.
    + apply Ascii.eqb_eq in Hc as ->.
      intros [Hlt Hs]%andb_prop. apply Nat.leb_le in Hlt.
      rewrite IH by (done || lia). apply replicate_snoc.
    + intros Hs. rewrite Nat.min_l by done. by rewrite (IH 0%nat) by (done || lia).
Qed.

End CompactMore.

Section CompactText.

Context `{Runtime}.

Lemma slice_to_take m s : ∃ n, Str.slice_to m s = Str.take n s.
Proof. unfold Str.slice_to. destruct (0 <=? m); eauto. Qed.

Lemma compact_text_cases text m :
  compact_text text m = ""
  ∨ ∃ n, compact_text text m
         = Str.take n (Re.sub_newlines 0 (Re.sub_runs Re.is_blank " " false (py_str text))).
Proof.
  unfold compact_text. destruct (truthy text); [|by left]. right.
  destruct (_ && _).
  - apply slice_to_take.
  - eexists (String.length _). symmetry. by apply take_all.
Qed.

Lemma compact_text_len text m : 0 < m → Str.len (compact_text text m) ≤ m.
Proof.
  intros Hm. unfold compact_text.
  destruct (truthy text); [|unfold Str.len; cbn; lia].
  destruct (Z.eqb_spec m 0); [lia|]. cbn [negb andb].
  destruct (Z.ltb_spec m (Str.len (Re.sub_newlines 0
              (Re.sub_runs Re.is_blank " " false (py_str text))))); [|done].
  unfold Str.slice_to. destruct (Z.leb_spec 0 m); [|lia].
  etrans; [apply len_take|]. lia.
Qed.

Lemma compact_text_normal text m :
  blank_normal false (compact_text text m) = true
  ∧ newline_normal 0 (compact_text text m) = true.
Proof.
  destruct (compact_text_cases text m) as [->|[n ->]]; [done|]. split.
  - apply blank_normal_take, sub_newlines_blank_normal, sub_runs_blank_normal.
  - apply newline_normal_take, sub_newlines_newline_normal.
Qed.

End CompactText.

(** X5. With a positive [max_chars], the text [compact_text] returns has at
    most [max_chars] characters. *)
Theorem compact_text_bounded `{Runtime} (text : pyval) (max_chars : Z) :
  0 < max_chars → Str.len (compact_text text max_chars) ≤ max_chars.
Proof. apply compact_text_len. Qed.

Lemma compact_text_bounded_witness :
  0 < 5 ∧ Str.len (@compact_text Sample.runtime (PStr "a  b  c  d  e") 5) ≤ 5.
Proof.
  assert (0 < 5) as Hm by lia. split; [exact Hm|].
  exact (@compact_text_bounded Sample.runtime (PStr "a  b  c  d  e") 5 Hm).
Defined.

(** X6. Whatever the bound, the text [compact_text] returns has no tab, no
    two spaces in a row and no three newlines in a row. *)
Theorem compact_text_is_compact `{Runtime} (text : pyval) (max_chars : Z) :
  blank_normal false (compact_text text max_chars) = true
  ∧ newline_normal 0 (compact_text text max_chars) = true.
Proof. apply compact_text_normal. Qed.

(** X7. For a bound that is not negative, [compact_text] is idempotent:
    compacting its own result with the same bound changes nothing. *)
Theorem compact_text_idempotent `{Runtime} (text : pyval) (max_chars : Z) :
  0 ≤ max_chars →
  compact_text (PStr (compact_text text max_chars)) max_chars
  = compact_text text max_chars.
Proof.
  intros Hm. destruct (compact_text_normal text max_chars) as [Hb Hn].
  pose proof (compact_text_len text max_chars) as Hlen.
  set (r := compact_text text max_chars) in *.
  unfold compact_text at 1. cbn [truthy py_str].
  destruct (String.eqb_spec r "") as [->|Hr]; [done|]. cbn [negb].
  rewrite (sub_runs_blank_id _ _ Hb), (sub_newlines_id 0 r) by (done || lia).
  rewrite app_nil. destruct (Z.eqb_spec max_chars 0); [done|]. cbn [negb andb].
  destruct (Z.ltb_spec max_chars (Str.len r)); [|done]. lia.
Qed.

Lemma compact_text_idempotent_witness :
  0 ≤ 5
  ∧ @compact_text Sample.runtime
      (PStr (@compact_text Sample.runtime (PStr "a  b  c  d  e") 5)) 5
    = @compact_text Sample.runtime (PStr "a  b  c  d  e") 5.
Proof.
  assert (0 ≤ 5) as Hm by lia. split; [exact Hm|].
  exact (@compact_text_idempotent Sample.runtime (PStr "a  b  c  d  e") 5 Hm).
Defined.

Section SegmentFacts.

Context `{Runtime}.

Lemma segment_texts_strings l : segment_texts (PStr <$> l) = l.
Proof. induction l as [|s l IH]; [done|]. rewrite fmap_cons. cbn. by rewrite IH. Qed.

Lemma segment_texts_dicts k l :
  k = "text" ∨ k = "caption" ∨ k = "value" →
  Forall (λ s, Str.nonempty s = true) l →
  segment_texts ((λ s, PDict [ (k, PStr s) ]) <$> l) = l.
Proof.
  intros Hk. induction 1 as [|s l Hs _ IH]; [done|].
  rewrite fmap_cons. cbn [segment_texts]. rewrite IH.
  unfold Str.nonempty in Hs.
  destruct Hk as [-> | [-> | ->]]; cbn; unfold por; cbn;
    repeat (rewrite Hs; cbn [truthy py_str]); done.
Qed.

Lemma segments_to_text_ext l0 l1 m :
  segment_texts l0 = segment_texts l1 → (l0 = [] ↔ l1 = []) →
  segments_to_text (PList l0) m = segments_to_text (PList l1) m.
Proof.
  intros Ht Hnil. unfold segments_to_text.
  destruct l0 as [|a0 l0], l1 as [|a1 l1]; [done| | |by rewrite Ht].
  - by destruct Hnil as [Hnil _]; specialize (Hnil eq_refl).
  - by destruct Hnil as [_ Hnil]; specialize (Hnil eq_refl).
Qed.

Lemma segments_to_text_len segments m :
  0 < m → Str.len (segments_to_text segments m) ≤ m.
Proof.
  intros Hm. unfold segments_to_text.
  assert (Str.len "" ≤ m) by (unfold Str.len; cbn; lia).
  destruct segments as [| | | | |[|seg l]|]; try done.
  destruct (Str.nonempty _); [|done].
  destruct (Z.eqb_spec m 0); [lia|]. cbn [negb]. by apply compact_text_len.
Qed.

End SegmentFacts.

(** X8. A caption segment may be a plain string or a dict holding its text
    under [text], [caption] or [value]: for texts that are not empty, the
    two forms give the same transcript. *)
Theorem segments_to_text_field_names `{Runtime}
    (k : string) (l : list string) (max_chars : Z) :
  k = "text" ∨ k = "caption" ∨ k = "value" →
  Forall (λ s, Str.nonempty s = true) l →
  segments_to_text (PList ((λ s, PDict [ (k, PStr s) ]) <$> l)) max_chars
  = segments_to_text (PList (PStr <$> l)) max_chars.
Proof.
  intros Hk Hl. apply segments_to_text_ext.
  - by rewrite (segment_texts_dicts k _ Hk Hl), segment_texts_strings.
  - by destruct l.
Qed.

Lemma segments_to_text_field_names_witness :
  ("caption" = "text" ∨ "caption" = "caption" ∨ "caption" = "value")
  ∧ Forall (λ s, Str.nonempty s = true) ["one"; "two"]
  ∧ @segments_to_text Sample.runtime
      (PList ((λ s, PDict [ ("caption", PStr s) ]) <$> ["one"; "two"])) 0
    = @segments_to_text Sample.runtime (PList (PStr <$> ["one"; "two"])) 0.
Proof.
  assert ("caption" = "text" ∨ "caption" = "caption" ∨ "caption" = "value") as Hk
    by (right; left; reflexivity).
  assert (Forall (λ s, Str.nonempty s = true) ["one"; "two"]) as Hl
    by (repeat constructor).
  split; [exact Hk|]. split; [exact Hl|].
  exact (@segments_to_text_field_names Sample.runtime "caption" ["one"; "two"] 0 Hk Hl).
Defined.

(** X9. [segments_to_text] returns the empty string for anything that is
    not a list with at least one entry, and with a positive [max_chars] its
    result has at most [max_chars] characters. *)
Theorem segments_to_text_bounded `{Runtime} (segments : pyval) (max_chars : Z) :
  (match segments with
   | PList (_ :: _) => True
   | _ => segments_to_text segments max_chars = ""
   end)
  ∧ (0 < max_chars → Str.len (segments_to_text segments max_chars) ≤ max_chars).
Proof.
  split; [|apply segments_to_text_len].
  by destruct segments as [| | | | |[|seg l]|].
Qed.

(** * The transcript provider *)

(** X10. The part of [fetch_transcript_and_metadata] after the POST returns
    a record exactly when the POST returned a response with a status below
    400 whose body decodes to a JSON object, or to a JSON array whose first
    entry is an object; in every other case it raises. *)
Theorem standardize_succeeds_iff (language : string) (o : HttpOutcome) :
  (∃ d, standardize language o = Ok d)
  ↔ ∃ status_code text data item,
      o = HttpResponse status_code text (Ok data)
      ∧ status_code < 400
      ∧ (data = PDict item ∨ ∃ rest, data = PList (PDict item :: rest)).
Proof.
  split.
  - intros [d Hd]. destruct o as [msg|status_code text json]; [done|].
    cbn in Hd. destruct (Z.leb_spec 400 status_code); [done|].
    destruct json as [data|e]; [|done].
    destruct data as [| | | | |[|[| | | | | |item] rest]|item]; try done.
    + exists status_code, text, (PList (PDict item :: rest)), item. eauto.
    + exists status_code, text, (PDict item), item. eauto.
  - intros (status_code & text & data & item & -> & Hlt & Hdata). cbn.
    destruct (Z.leb_spec 400 status_code); [lia|].
    destruct Hdata as [->|[rest ->]]; cbn; eauto.
Qed.

(** The record built from the first item of the provider's answer. *)
Lemma standardize_fields (language : string) (o : HttpOutcome)
    (d : list (string * pyval)) :
  standardize language o = Ok d →
  ∃ item, answer_item o = Some item ∧ d =
    [ ("title", por (get item "title") (PStr ""));
      ("description", por (get item "description") (PStr ""));
      ("channel_name",
        por (por (por (get item "channel_name") (get item "channelName"))
                 (get item "channel")) (PStr ""));
      ("published_at",
        por (por (get item "published_at") (get item "publishedAt")) (PStr ""));
      ("duration_seconds",
        por (por (get item "duration_seconds") (get item "duration")) PNone);
      ("view_count", por (por (get item "view_count") (get item "views")) PNone);
      ("like_count", por (por (get item "like_count") (get item "likes")) PNone);
      ("comment_count",
        por (por (get item "comment_count") (get item "commentsCount")) PNone);
      ("language", por (get item "language") (PStr language));
      ("transcript",
        if truthy (por (por (get item "transcript") (get item "captions"))
                       (get item "segments"))
        then por (por (get item "transcript") (get item "captions"))
                 (get item "segments")
        else PList []);
      ("transcript_text",
        match por (por (por (get item "transcript_text") (get item "transcriptText"))
                       (get item "text")) (PStr "") with
        | PStr s => PStr s
        | _ => PStr ""
        end);
      ("raw", PDict item) ].
Proof.
  intros Hd. destruct o as [msg|status_code text json]; [done|].
  cbn in Hd. destruct (400 <=? status_code); [done|].
  destruct json as [data|e]; [|done].
  destruct data as [| | | | |[|[| | | | | |item] rest]|item]; try done;
    cbn in Hd; injection Hd as <-; exists item; (split; [done|]);
    repeat f_equal; by destruct (por _ (PStr "")).
Qed.

(** X11. A record returned by [fetch_transcript_and_metadata] has the
    twelve standard keys, in order; its [transcript_text] is a string; its
    [transcript] is the empty list or a truthy value; its [raw] is the item
    of the provider's answer; and its [language] is the language of that
    item when that is truthy and the requested one otherwise. *)
Theorem standardize_record (language : string) (o : HttpOutcome)
    (d : list (string * pyval)) :
  standardize language o = Ok d →
  d.*1 = record_keys
  ∧ (∃ s, get d "transcript_text" = PStr s)
  ∧ (get d "transcript" = PList [] ∨ truthy (get d "transcript") = true)
  ∧ ∃ item,
      answer_item o = Some item
      ∧ get d "raw" = PDict item
      ∧ get d "language"
        = (if truthy (get item "language") then get item "language"
           else PStr language).
Proof.
  intros (item & Hitem & ->)%standardize_fields.
  split; [done|]. split; [|split].
  - cbn. match goal with |- context [match ?v with PStr _ => _ | _ => _ end] =>
      destruct v end; eauto.
  - cbn. destruct (truthy _) eqn:E; eauto.
  - exists item. split; [done|]. split; done.
Qed.

Lemma standardize_record_witness :
  let item := [ ("language", PStr "fr"); ("transcript_text", PStr "Bonjour") ] in
  let o := HttpResponse 200 "" (Ok (PList [PDict item])) in
  let d :=
    [ ("title", PStr ""); ("description", PStr "");
      ("channel_name", PStr ""); ("published_at", PStr "");
      ("duration_seconds", PNone); ("view_count", PNone);
      ("like_count", PNone); ("comment_count", PNone);
      ("language", PStr "fr"); ("transcript", PList []);
      ("transcript_text", PStr "Bonjour");
      ("raw", PDict item) ] in
  standardize "ko" o = Ok d
  ∧ d.*1 = record_keys
  ∧ (∃ s, get d "transcript_text" = PStr s)
  ∧ (get d "transcript" = PList [] ∨ truthy (get d "transcript") = true)
  ∧ ∃ item',
      answer_item o = Some item'
      ∧ get d "raw" = PDict item'
      ∧ get d "language"
        = (if truthy (get item' "language") then get item' "language"
           else PStr "ko").
Proof.
  intros item o d.
  assert (standardize "ko" o = Ok d) as Hd by (vm_compute; reflexivity).
  split; [exact Hd|].
  exact (standardize_record "ko" o d Hd).
Defined.

(** * Runs that never reach a provider *)

Section PureTasks.

Context `{Providers} {A : Type}.

Lemma pure_slots_insert rs (ts : list (Task A)) i r t :
  Forall2 pure_slot rs ts → rs !! i = Some r → pure_slot r t →
  Forall2 pure_slot rs (<[i := t]> ts).
Proof.
  intros Hts. revert i. induction Hts as [|r0 t0 rs ts Hr Hts IH];
    intros [|i] Hi Ht; simplify_eq/=; constructor; eauto.
Qed.

Lemma resume_pure rs (st : @Loop _ A) i w :
  Forall2 pure_slot rs (slots st) → world st = w →
  Forall2 pure_slot rs (slots (resume st i)) ∧ world (resume st i) = w.
Proof.
  intros Hts Hw. unfold resume.
  destruct (slots st !! i) as [t|] eqn:Hi; [|done].
  destruct (Forall2_lookup_r _ _ _ _ _ Hts Hi) as (r & Hr & Ht).
  destruct Ht as [-> | [-> | ->]]; [| |done].
  - destruct (0 <? permits st); [|done]. cbn. split; [|done].
    eapply pure_slots_insert; eauto. right. by left.
  - cbn. split; [|done]. eapply pure_slots_insert; eauto. right. by right.
Qed.

Lemma foldl_resume_pure rs sched (st : @Loop _ A) w :
  Forall2 pure_slot rs (slots st) → world st = w →
  Forall2 pure_slot rs (slots (foldl resume st sched))
  ∧ world (foldl resume st sched) = w.
Proof.
  revert st. induction sched as [|i sched IH]; intros st Hts Hw; cbn; [done|].
  destruct (resume_pure rs st i w Hts Hw). by apply IH.
Qed.

Lemma settle_pure pick rs (ts : list (Task A)) w :
  Forall2 pure_slot rs ts →
  Forall2 pure_slot rs (settle pick ts w).1 ∧ (settle pick ts w).2 = w.
Proof.
  induction 1 as [|r t rs ts Hr Hts [IH1 IH2]]; cbn; [by split; [constructor|]|].
  destruct (settle pick ts w) as [ts1 w2] eqn:E. cbn in IH1, IH2. subst w2.
  destruct Hr as [-> | [-> | ->]]; cbn.
  - destruct (pick _); cbn; rewrite E; cbn; split; try done;
      constructor; try done; [by right; right|by left].
  - destruct (pick _); cbn; rewrite E; cbn; split; try done;
      constructor; try done; [by right; right|by right; left].
  - rewrite E. cbn. split; [|done]. constructor; [by right; right|done].
Qed.

Lemma results_pure rs (ts : list (Task A)) :
  Forall2 pure_slot rs ts → Forall (λ t, ∃ r, t = Done r) ts → results ts = rs.
Proof.
  induction 1 as [|r t rs ts Hr Hts IH]; [done|].
  inversion 1 as [|? ? [r' ->] Hd]; subst. cbn. rewrite (IH Hd). f_equal.
  by destruct Hr as [?|[?|?]]; simplify_eq.
Qed.

(** Tasks that return without awaiting anything leave the world as it
    is, whatever the schedule. *)
Lemma gather_pure n sched (rs : list A) w :
  gather n sched (Ret <$> rs) w = (rs, w).
Proof.
  unfold gather.
  set (st0 := {| permits := n; slots := Waiting <$> (Ret <$> rs); world := w |}).
  assert (Forall2 pure_slot rs (slots st0)) as H0.
  { cbn. clear. induction rs as [|r rs IH]; constructor; [by left|done]. }
  destruct (foldl_resume_pure rs sched st0 w H0 eq_refl) as [H1 Hw1].
  set (st := foldl resume st0 sched) in *. rewrite Hw1.
  pose proof (settle_pure is_running rs (slots st) w H1) as [H2 Hw2].
  pose proof (settle_running (slots st) w) as Hr.
  destruct (settle is_running (slots st) w) as [ts1 w1]. cbn in *. subst w1.
  pose proof (settle_pure is_waiting rs ts1 w H2) as [H3 Hw3].
  pose proof (settle_waiting ts1 w Hr) as Hd.
  destruct (settle is_waiting ts1 w) as [ts2 w2]. cbn in *. subst w2.
  by rewrite (results_pure _ _ H3 Hd).
Qed.

End PureTasks.

Section NoToken.

Context `{Runtime} `{Templates} `{Config} `{Providers}.

Lemma fetch_loop_no_token url lang_priority data err :
  APIFY_TOKEN = "" →
  fetch_loop url lang_priority data err
  = Ret match lang_priority with
        | [] => (data, err)
        | _ :: _ => (None, Some "APIFY_TOKEN is missing")
        end.
Proof.
  intros Htok. revert data err.
  induction lang_priority as [|lang rest IH]; intros data err; [done|].
  cbn [fetch_loop]. unfold fetch_transcript_and_metadata. rewrite Htok. cbn.
  rewrite IH. by destruct rest.
Qed.

Lemma process_one_no_token idx url lang_priority :
  APIFY_TOKEN = "" → lang_priority ≠ [] →
  _process_one idx url lang_priority
  = Ret (fetch_failed idx url "APIFY_TOKEN is missing").
Proof.
  intros Htok Hne. unfold _process_one.
  rewrite (fetch_loop_no_token _ _ _ _ Htok).
  by destruct lang_priority.
Qed.

End NoToken.

(** X12. Without a provider token the service contacts no provider at all:
    for a validated request with URLs, [_analyze_impl] returns, with the
    providers' state untouched, the document in which every URL has the
    failed result of stage [apify] with the error
    [APIFY_TOKEN is missing], and in which the channel profile, when asked
    for, is the record saying that no analysis is available. *)
Theorem no_token_response `{Runtime} `{Templates} `{Config} `{Providers}
    (req : AnalyzeReq) (sched : list nat) (w : World) :
  APIFY_TOKEN = "" → valid_req req → request_urls req ≠ [] →
  _analyze_impl req sched w
  = (Returned
       (response_document
          (imap (λ i u, fetch_failed (Z.of_nat i + 1) u "APIFY_TOKEN is missing")
             (request_urls req))
          (if make_channel_profile req
           then PDict [ ("ok", PBool false);
                        ("error",
                          PStr "No valid per-video analyses to build channel profile") ]
           else PNone)),
     w).
Proof.
  intros Htok Hv Hne. rewrite (analyze_impl_unfold _ _ _ Hv Hne).
  unfold gather_videos, tasks_of.
  destruct (pick_language_priority_spec (Some (languages req))) as [Hl _].
  cbv zeta in Hl.
  replace (imap _ (request_urls req))
    with (Ret <$> imap (λ i u, fetch_failed (Z.of_nat i + 1) u
                                 "APIFY_TOKEN is missing") (request_urls req)).
  2:{ rewrite fmap_imap. apply imap_ext. intros i u _. symmetry.
      by apply process_one_no_token. }
  rewrite gather_pure. unfold finish.
  set (videos := imap _ _).
  assert (collect_analyses videos = Ok []) as Hc.
  { apply collect_analyses_all_failed. subst videos.
    apply Forall_forall. intros v (i & u & -> & _)%elem_of_lookup_imap. done. }
  destruct (make_channel_profile req); [|done]. by rewrite Hc.
Qed.

Lemma no_token_response_witness :
  let cfg : Config := {|
    APIFY_TIMEOUT_SEC := S754_finite false 15 3;
    MAX_TRANSCRIPT_CHARS := 18000; APIFY_TOKEN := "";
    LOCATION := "us-central1"; MODEL := "gemini-2.5-flash";
    GOOGLE_CLOUD_PROJECT := Some "project"; GCP_PROJECT := None;
    PROJECT_ID := None |} in
  let req := Sample.request ["https://a"; "https://b"] true in
  let w : @World Sample.scripted := ([Sample.transcript_answer], []) in
  @APIFY_TOKEN cfg = ""
  ∧ valid_req req
  ∧ @request_urls Sample.runtime req ≠ []
  ∧ @_analyze_impl Sample.runtime Sample.templates cfg Sample.scripted req [1; 0]%nat w
    = (Returned
         (@response_document
            (imap (λ i u, fetch_failed (Z.of_nat i + 1) u "APIFY_TOKEN is missing")
               (@request_urls Sample.runtime req))
            (if make_channel_profile req
             then PDict [ ("ok", PBool false);
                          ("error",
                            PStr "No valid per-video analyses to build channel profile") ]
             else PNone)),
       w).
Proof.
  intros cfg req w.
  assert (@APIFY_TOKEN cfg = "") as Htok by reflexivity.
  assert (valid_req req) as Hv by (unfold valid_req; simpl; lia).
  assert (@request_urls Sample.runtime req ≠ []) as Hne by (vm_compute; discriminate).
  split; [exact Htok|]. split; [exact Hv|]. split; [exact Hne|].
  exact (@no_token_response Sample.runtime Sample.templates cfg Sample.scripted
           req [1; 0]%nat w Htok Hv Hne).
Defined.

(** * The semaphore and the generation client *)

(** X13. While the event loop follows a schedule, the number of item
    pipelines that hold the semaphore never exceeds the number of permits
    the loop started with. *)
Theorem in_flight_bounded `{Providers} {A : Type}
    (n : Z) (sched : list nat) (tasks : list (Prog A)) (w : World) :
  0 ≤ n →
  let st := foldl resume {| permits := n; slots := Waiting <$> tasks; world := w |}
              sched in
  holding (slots st) ≤ n ∧ 0 ≤ permits st.
Proof.
  intros Hn st.
  assert (0 ≤ permits st ∧ permits st + holding (slots st) = n) as [? ?]; [|lia].
  apply foldl_resume_permits. cbn. rewrite holding_waiting. lia.
Qed.

Lemma in_flight_bounded_witness :
  let tasks :=
    @tasks_of Sample.runtime Sample.templates Sample.config
      ["https://a"; "https://b"; "https://c"] ["ko"] in
  let w : @World Sample.scripted := ([], []) in
  let st := foldl (@resume Sample.scripted _)
              {| permits := 2; slots := Waiting <$> tasks; world := w |}
              [0; 1; 2; 2; 0]%nat in
  0 ≤ 2 ∧ holding (slots st) ≤ 2 ∧ 0 ≤ permits st.
Proof.
  intros tasks w st. assert (0 ≤ 2) as Hn by lia. split; [exact Hn|].
  exact (@in_flight_bounded Sample.scripted _ 2 [0; 1; 2; 2; 0]%nat tasks w Hn).
Defined.

Section ClientFacts.

Context `{Config}.

Lemma env_or_none a b :
  env_or a b = None ∨ env_or a b = Some ""
  ↔ (a = None ∨ a = Some "") ∧ (b = None ∨ b = Some "").
Proof.
  unfold env_or, Str.nonempty. destruct a as [s|].
  - destruct (String.eqb_spec s "") as [->|Hs]; cbn.
    + split; [intros Hb; by split; [right|]|by intros [_ Hb]].
    + split.
      * intros [?|[= ?]]; done.
      * intros [[?|[= ?]] _]; done.
  - split; [intros Hb; by split; [left|]|by intros [_ Hb]].
Qed.

Lemma get_client_raises_iff :
  (∃ msg, _get_client = Raise msg) ↔ no_project.
Proof.
  assert (no_project
          ↔ (env_or (env_or GOOGLE_CLOUD_PROJECT GCP_PROJECT) PROJECT_ID = None
             ∨ env_or (env_or GOOGLE_CLOUD_PROJECT GCP_PROJECT) PROJECT_ID = Some ""))
    as -> by (unfold no_project; rewrite !env_or_none; tauto).
  unfold _get_client, Str.nonempty.
  destruct (env_or (env_or GOOGLE_CLOUD_PROJECT GCP_PROJECT) PROJECT_ID) as [p|].
  - destruct (String.eqb_spec p "") as [->|Hp]; cbn.
    + split; [by right|eauto].
    + split; [by intros [msg ?]|]. intros [?|[= ?]]; done.
  - split; [by left|eauto].
Qed.

End ClientFacts.

(** X14. [_get_client] raises exactly when none of [GOOGLE_CLOUD_PROJECT],
    [GCP_PROJECT] and [PROJECT_ID] is set to a string that is not empty;
    and the first of the three that is, in that order, is the project of
    the client. *)
Theorem get_client_project `{Config} :
  ((∃ msg, _get_client = Raise msg) ↔ no_project)
  ∧ (∀ p, Str.nonempty p = true →
       GOOGLE_CLOUD_PROJECT = Some p
       ∨ ((GOOGLE_CLOUD_PROJECT = None ∨ GOOGLE_CLOUD_PROJECT = Some "")
          ∧ (GCP_PROJECT = Some p
             ∨ ((GCP_PROJECT = None ∨ GCP_PROJECT = Some "")
                ∧ PROJECT_ID = Some p))) →
       _get_client = Ok (true, p, LOCATION)).
Proof.
  split; [apply get_client_raises_iff|].
  intros p Hp Hcases. unfold _get_client, env_or.
  destruct Hcases as [->|[Hg [->|[Hc ->]]]].
  - by rewrite !Hp.
  - destruct Hg as [-> | ->]; cbn; by rewrite !Hp.
  - destruct Hg as [-> | ->], Hc as [-> | ->]; cbn; by rewrite !Hp.
Qed.

(** X15. One call of [analyze_with_gemini] sends at most one request to the
    generation provider. Without a configured project it sends none,
    leaves the provider untouched and raises; when it returns, it sent
    exactly one request, for the configured model and with the prompt as
    contents, and the [text] it returns has no surrounding whitespace. *)
Theorem analyze_with_gemini_calls `{Config} `{Providers}
    (prompt : string) (max_output_tokens : Z) (w : World) :
  let '(log, r, w') := run (analyze_with_gemini prompt max_output_tokens) w in
  (no_project → log = [] ∧ w' = w ∧ ∃ msg, r = Raise msg)
  ∧ (length log ≤ 1)%nat
  ∧ (∀ d, r = Ok d →
       ∃ rq o text,
         log = [EvGenerate rq o]
         ∧ gen_model rq = MODEL ∧ gen_contents rq = prompt
         ∧ d = [ ("ok", PBool true); ("model", PStr MODEL); ("text", PStr text) ]
         ∧ Str.strip text = text).
Proof.
  pose proof get_client_raises_iff as Hiff.
  unfold analyze_with_gemini.
  destruct _get_client as [[[vertexai project] location]|e]; cbn.
  - destruct (generate_content w _) as [o w1] eqn:Ho. cbn.
    split; [|split; [lia|]].
    + intros Hno. apply Hiff in Hno as [msg ?]. done.
    + intros d Hd. destruct o as [e|text]; [done|]. injection Hd as <-.
      eexists _, _, _. split; [done|]. split; [done|]. split; [done|].
      split; [done|]. apply strip_idem.
  - split; [eauto|]. split; [lia|done].
Qed.

(** * Reading the generation output *)

Section FenceFacts.

Lemma after_first_unfold eq p s :
  Str.after_first eq p s
  = match Str.drop_prefix eq p s with
    | Some rest => Some rest
    | None => match s with
              | EmptyString => None
              | String _ s' => Str.after_first eq p s'
              end
    end.
Proof. by destruct s. Qed.

Lemma before_first_unfold p s :
  Str.before_first p s
  = match Str.drop_prefix Ascii.eqb p s with
    | Some _ => Some EmptyString
    | None => match s with
              | EmptyString => None
              | String c s' => String c <$> Str.before_first p s'
              end
    end.
Proof. by destruct s. Qed.

Lemma tick_nocase c : Str.eqb_nocase "`" c = Ascii.eqb "`" c.
Proof. destruct c as [[] [] [] [] [] [] [] []]; reflexivity. Qed.

Lemma tick_not_space c : Str.isspace c = true → Ascii.eqb c "`" = false.
Proof. destruct c as [[] [] [] [] [] [] [] []]; done. Qed.

Lemma j_not_space c : Str.isspace c = true → Str.eqb_nocase "j" c = false.
Proof. destruct c as [[] [] [] [] [] [] [] []]; done. Qed.

Lemma drop_prefix_nocase p q rest :
  Str.lower p = Str.lower q →
  Str.drop_prefix Str.eqb_nocase p (q +:+ rest) = Some rest.
Proof.
  revert q. induction p as [|a p IH]; intros [|c q] Hpq; try done.
  cbn in Hpq. injection Hpq as Hac Hpq. rewrite app_cons. cbn.
  unfold Str.eqb_nocase. rewrite Hac, Ascii.eqb_refl. by apply IH.
Qed.

Lemma blank_no_tick s : blank s = true → no_tick s = true.
Proof.
  induction s as [|c s IH]; [done|]. cbn. intros [Hc Hs]%andb_prop.
  unfold no_tick in *. cbn. by rewrite (tick_not_space _ Hc), IH.
Qed.

Lemma no_tick_app s t : no_tick s = true → no_tick t = true → no_tick (s +:+ t) = true.
Proof.
  unfold no_tick. induction s as [|c s IH]; [done|]. rewrite app_cons. cbn.
  intros [Hc Hs]%andb_prop Ht. by rewrite Hc, IH.
Qed.

Lemma no_tick_lstrip s : no_tick s = true → no_tick (Str.lstrip s) = true.
Proof.
  unfold no_tick. induction s as [|c s IH]; [done|]. cbn.
  intros [Hc Hs]%andb_prop. destruct (Str.isspace c); [by apply IH|].
  cbn. by rewrite Hc, Hs.
Qed.

Lemma no_tick_rstrip s : no_tick s = true → no_tick (Str.rstrip s) = true.
Proof.
  unfold no_tick. induction s as [|c s IH]; [done|]. cbn [all_chars Str.rstrip].
  intros [Hc Hs]%andb_prop. specialize (IH Hs).
  destruct (Str.rstrip s); [destruct (Str.isspace c); [done|cbn; by rewrite Hc]|].
  cbn [all_chars] in IH |- *. by rewrite Hc, IH.
Qed.

(** A text without backtick holds no fence, and a fence that follows it is
    the first one. *)
Lemma after_first_no_tick eq p s :
  no_tick s = true → (∀ c, eq "`"%char c = Ascii.eqb "`" c) →
  Str.after_first eq (String "`" p) s = None.
Proof.
  intros Hs Heq. induction s as [|c s IH]; [done|].
  unfold no_tick in Hs. cbn in Hs. apply andb_prop in Hs as [Hc Hs].
  rewrite after_first_unfold. cbn [Str.drop_prefix]. rewrite Heq.
  rewrite Ascii.eqb_sym. apply negb_true_iff in Hc. rewrite Hc. by apply IH.
Qed.

Lemma before_first_fence s : no_tick s = true → Str.before_first fence (s +:+ fence) = Some s.
Proof.
  intros Hs. induction s as [|c s IH]; [done|].
  unfold no_tick in Hs. cbn in Hs. apply andb_prop in Hs as [Hc Hs].
  rewrite app_cons, before_first_unfold. cbn [Str.drop_prefix fence].
  rewrite Ascii.eqb_sym. apply negb_true_iff in Hc. rewrite Hc.
  by rewrite (IH Hs).
Qed.

Lemma after_first_label_closing s :
  no_tick s = true →
  Str.after_first Str.eqb_nocase (fence +:+ "json") (s +:+ fence) = None.
Proof.
  intros Hs. induction s as [|c s IH]; [done|].
  unfold no_tick in Hs. cbn in Hs. apply andb_prop in Hs as [Hc Hs].
  rewrite app_cons, after_first_unfold.
  change (fence +:+ "json") with (String "`" "``json") in *.
  cbn [Str.drop_prefix]. rewrite tick_nocase, Ascii.eqb_sym.
  apply negb_true_iff in Hc. rewrite Hc. by apply IH.
Qed.

Lemma lstrip_blank ws s : blank ws = true → Str.lstrip (ws +:+ s) = Str.lstrip s.
Proof.
  induction ws as [|c ws IH]; [done|]. cbn. intros [Hc Hs]%andb_prop.
  rewrite app_cons. cbn. rewrite Hc. by apply IH.
Qed.

Lemma lstrip_app s t : Str.lstrip s ≠ "" → Str.lstrip (s +:+ t) = Str.lstrip s +:+ t.
Proof.
  induction s as [|c s IH]; [done|]. rewrite app_cons. cbn.
  destruct (Str.isspace c); [done|]. intros _. by rewrite app_cons.
Qed.

Lemma lstrip_idem s : Str.lstrip (Str.lstrip s) = Str.lstrip s.
Proof.
  destruct (lstrip_cases s) as [->|(c & r & -> & Hc)]; [done|].
  by apply lstrip_head.
Qed.

Lemma strip_fenced x : Str.strip (fence +:+ x +:+ fence) = fence +:+ x +:+ fence.
Proof.
  unfold Str.strip. assert (Str.lstrip (fence +:+ x +:+ fence) = fence +:+ x +:+ fence) as ->.
  { done. }
  change (fence +:+ x +:+ fence) with (String "`" (String "`" (String "`" (x +:+ fence)))).
  rewrite <- !app_cons. by apply rstrip_app.
Qed.

End FenceFacts.

Section ExtractFacts.

Context `{Runtime}.

Lemma string_app_assoc a b c : (a +:+ b) +:+ c = a +:+ b +:+ c.
Proof. induction a as [|x a IH]; [done|]. by rewrite !app_cons, IH. Qed.

(** A text without backtick is decoded after trimming. *)
Lemma extract_plain body :
  no_tick body = true → Str.strip body ≠ "" →
  _extract_json_from_text body
  = match json_loads (Str.strip body) with Some v => v | None => PNone end.
Proof.
  intros Hb Hs. unfold _extract_json_from_text.
  assert (Str.nonempty body = true) as -> by (by destruct body).
  cbn [negb]. unfold fence.
  rewrite after_first_no_tick; [done| |done].
  unfold Str.strip. by apply no_tick_rstrip, no_tick_lstrip.
Qed.

(** The group both fence patterns capture, once the opening fence and the
    whitespace after it are passed. *)
Lemma fenced_group ws body :
  blank ws = true → no_tick body = true → Str.strip body ≠ "" →
  Str.strip <$> Str.before_first fence (Str.lstrip (ws +:+ body +:+ fence))
  = Some (Str.strip body).
Proof.
  intros Hws Hb Hs. rewrite (lstrip_blank _ _ Hws).
  assert (Str.lstrip body ≠ "") as Hl.
  { intros E. apply Hs. unfold Str.strip. by rewrite E. }
  rewrite (lstrip_app _ _ Hl), before_first_fence by (by apply no_tick_lstrip).
  cbn. unfold Str.strip. by rewrite lstrip_idem.
Qed.

Lemma extract_fenced_text x g :
  Str.after_first Ascii.eqb fence (fence +:+ x +:+ fence) = Some (x +:+ fence)
  ∧ (match search_fenced Str.eqb_nocase "json" (fence +:+ x +:+ fence) with
     | Some g' => Str.strip g'
     | None =>
         match search_fenced Ascii.eqb "" (fence +:+ x +:+ fence) with
         | Some g' => Str.strip g'
         | None => fence +:+ x +:+ fence
         end
     end = g) →
  _extract_json_from_text (fence +:+ x +:+ fence)
  = match json_loads g with Some v => v | None => PNone end.
Proof.
  intros [Ha Hg]. unfold _extract_json_from_text.
  assert (Str.nonempty (fence +:+ x +:+ fence) = true) as -> by done.
  cbn [negb]. rewrite strip_fenced, Ha. by rewrite Hg.
Qed.

End ExtractFacts.

(** X16. A generation output wrapped in a code fence labelled [json] (in
    any letter case) is parsed like the bare output: when the output has no
    backtick and is not blank, fence, label and the whitespace after the
    label make no difference to what [_extract_json_from_text] returns. *)
Theorem extract_json_labelled_fence `{Runtime} (label ws body : string) :
  Str.lower label = "json" → blank ws = true →
  no_tick body = true → Str.strip body ≠ "" →
  _extract_json_from_text (fence +:+ label +:+ ws +:+ body +:+ fence)
  = _extract_json_from_text body.
Proof.
  intros Hlabel Hws Hb Hs. rewrite (extract_plain _ Hb Hs).
  rewrite <- (string_app_assoc label ws), <- (string_app_assoc (label +:+ ws) body).
  apply extract_fenced_text. split; [done|].
  unfold search_fenced at 1. rewrite after_first_unfold.
  rewrite !string_app_assoc, <- (string_app_assoc fence label).
  rewrite drop_prefix_nocase.
  2:{ unfold fence. rewrite !app_cons, !app_nil. cbn [Str.lower].
      by rewrite Hlabel. }
  cbn [mbind option_bind].
  pose proof (fenced_group ws body Hws Hb Hs) as Hg.
  by destruct (Str.before_first fence _); simplify_eq/=.
Qed.

Lemma extract_json_labelled_fence_witness :
  Str.lower "JSON" = "json" ∧ blank nl = true
  ∧ no_tick "{}" = true ∧ Str.strip "{}" ≠ ""
  ∧ @_extract_json_from_text Sample.runtime
      (fence +:+ "JSON" +:+ nl +:+ "{}" +:+ fence)
    = @_extract_json_from_text Sample.runtime "{}".
Proof.
  assert (Str.lower "JSON" = "json") as H1 by reflexivity.
  assert (blank nl = true) as H2 by reflexivity.
  assert (no_tick "{}" = true) as H3 by reflexivity.
  assert (Str.strip "{}" ≠ "") as H4 by (vm_compute; discriminate).
  split; [exact H1|]. split; [exact H2|]. split; [exact H3|]. split; [exact H4|].
  exact (@extract_json_labelled_fence Sample.runtime "JSON" nl "{}" H1 H2 H3 H4).
Defined.

(** X17. The same holds for a fence without label, when whitespace follows
    the opening fence. *)
Theorem extract_json_plain_fence `{Runtime} (ws body : string) :
  blank ws = true → ws ≠ "" →
  no_tick body = true → Str.strip body ≠ "" →
  _extract_json_from_text (fence +:+ ws +:+ body +:+ fence)
  = _extract_json_from_text body.
Proof.
  intros Hws Hne Hb Hs. rewrite (extract_plain _ Hb Hs).
  rewrite <- (string_app_assoc ws body).
  apply extract_fenced_text. split; [done|].
  pose proof (fenced_group ws body Hws Hb Hs) as Hg.
  assert (search_fenced Str.eqb_nocase "json" (fence +:+ (ws +:+ body) +:+ fence)
          = None) as ->.
  { unfold search_fenced.
    assert (Str.after_first Str.eqb_nocase (fence +:+ "json")
              (fence +:+ (ws +:+ body) +:+ fence) = None) as ->; [|done].
    destruct ws as [|c ws]; [done|]. cbn in Hws.
    apply andb_prop in Hws as [Hc Hws].
    pose proof (after_first_label_closing (String c ws +:+ body)) as Hrest.
    rewrite no_tick_app in Hrest by (done || (apply (blank_no_tick (String c ws)); cbn;
                                              by rewrite Hc, Hws)).
    specialize (Hrest eq_refl).
    unfold fence in *. rewrite !app_cons, !app_nil in *.
    do 3 (rewrite after_first_unfold; cbn [Str.drop_prefix];
          rewrite ?tick_nocase, ?Ascii.eqb_refl, ?(j_not_space _ Hc);
          rewrite ?(Ascii.eqb_sym "`" c), ?(tick_not_space _ Hc)).
    exact Hrest. }
  unfold search_fenced.
  assert (Str.after_first Ascii.eqb (fence +:+ "") (fence +:+ (ws +:+ body) +:+ fence)
          = Some (ws +:+ body +:+ fence)) as ->.
  { rewrite string_app_assoc. done. }
  cbn [mbind option_bind].
  by destruct (Str.before_first fence _); simplify_eq/=.
Qed.

Lemma extract_json_plain_fence_witness :
  blank nl = true ∧ nl ≠ ""
  ∧ no_tick "{}" = true ∧ Str.strip "{}" ≠ ""
  ∧ @_extract_json_from_text Sample.runtime (fence +:+ nl +:+ "{}" +:+ fence)
    = @_extract_json_from_text Sample.runtime "{}".
Proof.
  assert (blank nl = true) as H1 by reflexivity.
  assert (nl ≠ "") as H2 by discriminate.
  assert (no_tick "{}" = true) as H3 by reflexivity.
  assert (Str.strip "{}" ≠ "") as H4 by (vm_compute; discriminate).
  split; [exact H1|]. split; [exact H2|]. split; [exact H3|]. split; [exact H4|].
  exact (@extract_json_plain_fence Sample.runtime nl "{}" H1 H2 H3 H4).
Defined.

(** * Results and calls of an item *)

Section ItemFacts.

Context `{Runtime} `{Templates} `{Config} `{Providers}.

Lemma len_nonempty s : Str.nonempty s = true → 0 < Str.len s.
Proof. destruct s; [done|]. unfold Str.len. cbn. lia. Qed.

Lemma process_one_leaf_shape idx url lang_priority v :
  leaf (_process_one idx url lang_priority) v → item_shape idx url v.
Proof.
  unfold _process_one. intros ([d e] & _ & Hv)%leaf_bind.
  assert (∃ e', fetch_failed idx url
            match e with
            | Some e0 => if Str.nonempty e0 then e0 else "Apify failed"
            | None => "Apify failed"
            end = fetch_failed idx url e' ∧ e' ≠ "") as Hfail.
  { eexists. split; [done|]. destruct e as [e0|]; [|done].
    destruct e0; [done|]. done. }
  destruct d as [[|kv d]|]; try (apply leaf_ret_inv in Hv as <-; by left).
  set (t1 := compact_text _ _) in Hv. set (t2 := segments_to_text _ _) in Hv.
  set (t := if Str.nonempty t1 then t1 else t2) in Hv.
  destruct (Str.nonempty t) eqn:Ht; cbn [negb] in Hv.
  - apply leaf_bind in Hv as ([text res] & _ & Hv).
    apply leaf_ret_inv in Hv as <-. right. right.
    eexists _, _, _. split; [done|]. split; [done|].
    split; [by apply len_nonempty|]. split.
    + intros Hmax. subst t. destruct (Str.nonempty t1).
      * by apply compact_text_len.
      * by apply segments_to_text_len.
    + destruct res as [[]|e']; [left; by eexists|right; by eexists _, _].
  - apply leaf_ret_inv in Hv as <-. right. left. by eexists.
Qed.

End ItemFacts.

(** X18. Every entry of the list [videos] that [_analyze_impl] gathers, for
    every schedule and every behaviour of the providers, is the result of
    its own URL (with its 1-based index) in one of three shapes: the failed
    fetch with an error that is not empty, the missing transcript with its
    four metadata fields, or the analyzed transcript, whose length is at
    least 1 and at most [MAX_TRANSCRIPT_CHARS] when that is positive. *)
Theorem response_items_shaped `{Runtime} `{Templates} `{Config} `{Providers}
    (req : AnalyzeReq) (sched : list nat) (w : World) :
  let videos := (gather_videos req (request_urls req) sched w).1 in
  ∀ k v, videos !! k = Some v →
    ∃ u, request_urls req !! k = Some u ∧ item_shape (Z.of_nat k + 1) u v.
Proof.
  intros videos k v Hv.
  pose proof (gather_videos_leaves req (request_urls req) sched w) as Hl.
  fold videos in Hl.
  destruct (Forall2_lookup_r _ _ _ _ _ Hl Hv) as (p & Hp & Hleaf).
  unfold tasks_of in Hp. rewrite list_lookup_imap in Hp.
  destruct (request_urls req !! k) as [u|] eqn:Hu; [|done].
  injection Hp as <-. exists u. split; [done|].
  by eapply process_one_leaf_shape.
Qed.

Lemma response_items_shaped_witness :
  let req := Sample.request ["https://a"; "https://b"] true in
  let w : @World Sample.scripted :=
    ([Sample.transcript_answer], [GenResponse (Some "{}")]) in
  let videos :=
    (@gather_videos Sample.runtime Sample.templates Sample.config Sample.scripted
       req (@request_urls Sample.runtime req) [1; 1]%nat w).1 in
  let v := fetch_failed 1 "https://a" "Apify failed" in
  videos !! 0%nat = Some v
  ∧ ∃ u, @request_urls Sample.runtime req !! 0%nat = Some u
         ∧ @item_shape Sample.config (Z.of_nat 0 + 1) u v.
Proof.
  intros req w videos v.
  assert (videos !! 0%nat = Some v) as Hv by (vm_compute; reflexivity).
  split; [exact Hv|].
  exact (@response_items_shaped Sample.runtime Sample.templates Sample.config
           Sample.scripted req [1; 1]%nat w 0%nat v Hv).
Defined.

Section CallFacts.

Context `{Runtime} `{Templates} `{Config} `{Providers}.

Lemma post_calls_app l1 l2 : post_calls (l1 ++ l2) = post_calls l1 ++ post_calls l2.
Proof. induction l1 as [|[rq o|rq o] l1 IH]; cbn; [done|by rewrite IH|done]. Qed.

(** The log of one call of [analyze_with_gemini]: no POST, and at most one
    generation request. *)
Lemma analyze_with_gemini_log prompt m w :
  post_calls (run (analyze_with_gemini prompt m) w).1.1 = []
  ∧ (length (generate_calls (run (analyze_with_gemini prompt m) w).1.1) ≤ 1)%nat.
Proof.
  unfold analyze_with_gemini.
  destruct _get_client as [[[vertexai project] location]|e]; cbn; [|split; [done|lia]].
  destruct (generate_content w _) as [o w1]. cbn. split; [done|lia].
Qed.

Lemma analysis_try_log idx meta transcript_text w :
  post_calls (run (analysis_try idx meta transcript_text) w).1.1 = []
  ∧ (length (generate_calls (run (analysis_try idx meta transcript_text) w).1.1) ≤ 2)%nat.
Proof.
  unfold analysis_try.
  destruct (_ ≫= _) as [prompt|e]; [|cbn; split; [done|lia]].
  rewrite run_bind.
  pose proof (analyze_with_gemini_log prompt 2048 w) as [Hp1 Hg1].
  destruct (run (analyze_with_gemini prompt 2048) w) as [[l1 first] w1].
  cbn [fst snd] in Hp1, Hg1.
  destruct first as [first|e];
    [|cbn; rewrite app_nil_r; split; [done|lia]].
  destruct (py_strip _) as [text|e];
    [|cbn; rewrite app_nil_r; split; [done|lia]].
  destruct (is_none _); [|cbn; rewrite app_nil_r; split; [done|lia]].
  rewrite run_bind.
  pose proof (analyze_with_gemini_log
                (build_json_repair_prompt "video_analysis" (Str.slice_to 6000 text))
                2048 w1) as [Hp2 Hg2].
  destruct (run (analyze_with_gemini _ 2048) w1) as [[l2 second] w2].
  cbn [fst snd] in Hp2, Hg2.
  destruct second as [second|e]; [destruct (py_strip _) as [text2|e];
                                    [destruct (is_none _)|]|];
    cbn; rewrite ?app_nil_r, ?post_calls_app, ?generate_calls_app, ?length_app,
           ?Hp1, ?Hp2; (split; [done|lia]).
Qed.

End CallFacts.

Section WalkFacts.

Context `{Runtime} `{Templates} `{Config} `{Providers}.

Lemma fetch_loop_posts url lang_priority data err w :
  let log := (run (fetch_loop url lang_priority data err) w).1.1 in
  (http_json <$> post_calls log) `prefix_of` (fetch_payload url <$> lang_priority)
  ∧ Forall item_post (post_calls log).
Proof.
  cbv zeta. destruct (String.eqb_spec APIFY_TOKEN "") as [Htok|Htok].
  { rewrite (fetch_loop_no_token _ _ _ _ Htok). cbn.
    split; [apply prefix_nil|constructor]. }
  revert data err w. induction lang_priority as [|lang rest IH];
    intros data err w; [by split; [|constructor]|].
  cbn [fetch_loop]. rewrite run_bind. unfold fetch_transcript_and_metadata.
  assert (Str.nonempty APIFY_TOKEN = true) as ->
    by (unfold Str.nonempty; by destruct (String.eqb_spec APIFY_TOKEN "")).
  cbn [negb run]. destruct (http_post w _) as [o w1]. cbn [run].
  destruct (standardize lang o) as [d|e]; cbn [run].
  - cbn. split; [apply prefix_cons, prefix_nil|]. by repeat constructor.
  - specialize (IH None (Some e) w1).
    destruct (run (fetch_loop url rest None (Some e)) w1) as [[l2 b] w2].
    cbn in *. destruct IH as [IH1 IH2]. split; [by apply prefix_cons|].
    by repeat constructor.
Qed.

End WalkFacts.

(** X19. In a run of [_process_one] the HTTP requests all go to the
    transcript actor with the configured token and timeout, and their
    bodies ask for the item's URL in the languages of the priority list,
    one request per language, in order, from the first language on: no
    language is skipped, repeated or tried out of order. *)
Theorem process_one_fetch_walk `{Runtime} `{Templates} `{Config} `{Providers}
    (idx : Z) (url : string) (lang_priority : list string) (w : World) :
  let log := (run (_process_one idx url lang_priority) w).1.1 in
  (http_json <$> post_calls log) `prefix_of` (fetch_payload url <$> lang_priority)
  ∧ Forall item_post (post_calls log).
Proof.
  cbv zeta. unfold _process_one. rewrite run_bind.
  pose proof (fetch_loop_posts url lang_priority None None w) as Hf. cbv zeta in Hf.
  destruct (run (fetch_loop url lang_priority None None) w) as [[l1 [d err]] w1].
  cbn [fst snd] in Hf.
  destruct d as [[|kv d]|]; cbn [run fst snd]; rewrite ?app_nil_r; try done.
  destruct (negb (Str.nonempty _)); cbn [run fst snd]; rewrite ?app_nil_r; [done|].
  rewrite run_bind.
  match goal with |- context [run (analysis_try ?i ?m ?t) w1] =>
    pose proof (analysis_try_log i m t w1) as [Hp _];
    destruct (run (analysis_try i m t) w1) as [[l2 [text res]] w2]
  end.
  cbn [run fst snd] in *. by rewrite app_nil_r, post_calls_app, Hp, app_nil_r.
Qed.

(** X20. A run of [_process_one] makes at most two generation requests, and
    none at all when the item ends with [ok = False]. *)
Theorem process_one_generation_calls `{Runtime} `{Templates} `{Config} `{Providers}
    (idx : Z) (url : string) (lang_priority : list string) (w : World) :
  let log := (run (_process_one idx url lang_priority) w).1.1 in
  let r := (run (_process_one idx url lang_priority) w).1.2 in
  (length (generate_calls log) ≤ 2)%nat
  ∧ (get r "ok" = PBool false → generate_calls log = []).
Proof.
  cbv zeta. unfold _process_one. rewrite run_bind.
  pose proof (fetch_loop_no_generate url lang_priority None None w) as Hf.
  destruct (run (fetch_loop url lang_priority None None) w) as [[l1 [d err]] w1].
  cbn [fst snd] in Hf.
  destruct d as [[|kv d]|]; cbn [run fst snd]; rewrite ?app_nil_r, ?Hf;
    try (split; [cbn; lia|done]).
  destruct (negb (Str.nonempty _)); cbn [run fst snd]; rewrite ?app_nil_r, ?Hf;
    [split; [cbn; lia|done]|].
  rewrite run_bind.
  match goal with |- context [run (analysis_try ?i ?m ?t) w1] =>
    pose proof (analysis_try_log i m t w1) as [_ Hg];
    destruct (run (analysis_try i m t) w1) as [[l2 [text res]] w2]
  end.
  cbn [run fst snd] in *. rewrite app_nil_r, generate_calls_app, Hf. cbn [app].
  split; [done|]. by cbn.
Qed.

Section FirstSuccess.

Context `{Runtime} `{Templates} `{Config} `{Providers}.

Lemma fetch_ok url lang timeout token actor w d :
  (run (fetch_transcript_and_metadata url lang timeout token actor) w).1.2 = Ok d →
  d ≠ []
  ∧ length (post_calls
      (run (fetch_transcript_and_metadata url lang timeout token actor) w).1.1) = 1%nat.
Proof.
  unfold fetch_transcript_and_metadata. destruct (negb _); [done|]. cbn.
  destruct (http_post w _) as [o w1]. cbn. intros Hd. split; [|done].
  by apply standardize_fields in Hd as (item & _ & ->).
Qed.

Lemma fetch_raise_posts url lang timeout token actor w :
  (length (post_calls
     (run (fetch_transcript_and_metadata url lang timeout token actor) w).1.1) ≤ 1)%nat.
Proof.
  unfold fetch_transcript_and_metadata. destruct (negb _); [cbn; lia|]. cbn.
  destruct (http_post w _) as [o w1]. cbn. lia.
Qed.

Lemma fetch_loop_first_success url lang_priority data err w errs d :
  fetch_attempts url lang_priority w = (Raise <$> errs) ++ [Ok d] →
  (run (fetch_loop url lang_priority data err) w).1.2 = (Some d, None)
  ∧ d ≠ []
  ∧ (length (post_calls (run (fetch_loop url lang_priority data err) w).1.1)
     ≤ S (length errs))%nat.
Proof.
  revert data err w errs. induction lang_priority as [|lang rest IH];
    intros data err w errs Hatt; cbn [fetch_attempts] in Hatt.
  - by destruct errs.
  - cbn [fetch_loop]. rewrite run_bind.
    pose proof (fetch_ok url lang APIFY_TIMEOUT_SEC APIFY_TOKEN
                  "starvibe~youtube-video-transcript" w) as Hok.
    pose proof (fetch_raise_posts url lang APIFY_TIMEOUT_SEC APIFY_TOKEN
                  "starvibe~youtube-video-transcript" w) as Hle.
    destruct (run (fetch_transcript_and_metadata _ _ _ _ _) w) as [[l1 r] w1].
    cbn [fst snd] in Hok, Hle. destruct r as [d0|e0].
    + destruct errs as [|e1 errs]; cbn in Hatt; [|done].
      injection Hatt as ->. destruct (Hok d eq_refl) as [Hd Hl1].
      cbn. rewrite app_nil_r. split; [done|]. split; [done|lia].
    + destruct errs as [|e1 errs]; cbn in Hatt; [done|].
      injection Hatt as -> Hatt.
      destruct (IH None (Some e1) w1 errs Hatt) as (IH1 & IH2 & IH3).
      destruct (run (fetch_loop url rest None (Some e1)) w1) as [[l2 b] w2].
      cbn in *. subst b. split; [done|]. split; [done|].
      rewrite post_calls_app, length_app. lia.
Qed.

End FirstSuccess.

(** X21. The language walk stops at the first language for which the fetch
    returns a record: when the attempts before it raised, the item is built
    from that record (it is not a failed fetch, and its metadata carry the
    record's title and language), and no request is sent for a later
    language. *)
Theorem first_success_wins `{Runtime} `{Templates} `{Config} `{Providers}
    (idx : Z) (url : string) (lang_priority : list string) (w : World)
    (errs : list string) (d : list (string * pyval)) :
  fetch_attempts url lang_priority w = (Raise <$> errs) ++ [Ok d] →
  let log := (run (_process_one idx url lang_priority) w).1.1 in
  let r := (run (_process_one idx url lang_priority) w).1.2 in
  get r "stage" ≠ PStr "apify"
  ∧ (∃ meta, get r "meta" = PDict meta
             ∧ get meta "title" = get_or d "title" (PStr "")
             ∧ get meta "language" = get d "language")
  ∧ (length (post_calls log) ≤ S (length errs))%nat.
Proof.
  intros Hatt. cbv zeta. unfold _process_one. rewrite run_bind.
  destruct (fetch_loop_first_success url lang_priority None None w errs d Hatt)
    as (Hr & Hd & Hposts).
  destruct (run (fetch_loop url lang_priority None None) w) as [[l1 [d' err]] w1].
  cbn [fst snd] in Hr, Hposts. injection Hr as -> ->.
  destruct d as [|kv d]; [done|].
  destruct (negb (Str.nonempty _)); cbn [run fst snd].
  - rewrite app_nil_r. split; [done|]. split; [|done]. by eexists.
  - rewrite run_bind.
    match goal with |- context [run (analysis_try ?i ?m ?t) w1] =>
      pose proof (analysis_try_log i m t w1) as [Hp _];
      destruct (run (analysis_try i m t) w1) as [[l2 [text res]] w2]
    end.
    cbn [run fst snd] in *. rewrite app_nil_r, post_calls_app, Hp, app_nil_r.
    split; [done|]. split; [|done]. by eexists.
Qed.

Lemma first_success_wins_witness :
  let w : @World Sample.scripted :=
    ([HttpResponse 500 "boom" (Raise "no json"); Sample.transcript_answer;
      Sample.transcript_answer], [GenResponse (Some "{}")]) in
  let d :=
    [ ("title", PStr "Title"); ("description", PStr "");
      ("channel_name", PStr ""); ("published_at", PStr "");
      ("duration_seconds", PNone); ("view_count", PNone);
      ("like_count", PNone); ("comment_count", PNone);
      ("language", PStr "en"); ("transcript", PList []);
      ("transcript_text", PStr "Hello world");
      ("raw", PDict [ ("title", PStr "Title");
                      ("transcript_text", PStr "Hello world") ]) ] in
  let run1 :=
    run (@_process_one Sample.runtime Sample.templates Sample.config
           1 "https://a" ["ko"; "en"; "ja"]) w in
  @fetch_attempts Sample.config Sample.scripted "https://a" ["ko"; "en"; "ja"] w
  = (Raise <$> ["Apify HTTP 500: boom"]) ++ [Ok d]
  ∧ get run1.1.2 "stage" ≠ PStr "apify"
  ∧ (∃ meta, get run1.1.2 "meta" = PDict meta
             ∧ get meta "title" = get_or d "title" (PStr "")
             ∧ get meta "language" = get d "language")
  ∧ (length (post_calls run1.1.1) ≤ S (length ["Apify HTTP 500: boom"]))%nat.
Proof.
  intros w d run1.
  assert (@fetch_attempts Sample.config Sample.scripted "https://a"
            ["ko"; "en"; "ja"] w
          = (Raise <$> ["Apify HTTP 500: boom"]) ++ [Ok d]) as Hatt
    by (vm_compute; reflexivity).
  split; [exact Hatt|].
  exact (@first_success_wins Sample.runtime Sample.templates Sample.config
           Sample.scripted 1 "https://a" ["ko"; "en"; "ja"] w _ d Hatt).
Defined.

(** * Warnings and evidence records *)

Section WarningFacts.

Context `{Runtime} `{Templates} `{Config} `{Providers}.

Lemma build_warnings_cons v vs :
  _build_warnings (v :: vs) = _build_warnings [v] ++ _build_warnings vs.
Proof.
  cbn. destruct (negb (truthy (get v "ok"))); [done|].
  destruct (por _ _); try done. by destruct (is_False _).
Qed.

Lemma build_warnings_one v :
  _build_warnings [v] = []
  ∨ ∃ wn, _build_warnings [v] = [wn] ∧ place wn = place v
          ∧ wn.*1 = [ "index"; "url"; "stage"; "error" ].
Proof.
  cbn. destruct (negb (truthy (get v "ok"))); [right; by eexists|].
  destruct (por _ _); try by left.
  destruct (is_False _); [right; by eexists|by left].
Qed.

Lemma build_warnings_follow videos :
  (place <$> _build_warnings videos) `sublist_of` (place <$> videos)
  ∧ Forall (λ wn, wn.*1 = [ "index"; "url"; "stage"; "error" ])
      (_build_warnings videos).
Proof.
  induction videos as [|v vs [IH1 IH2]]; [by split; [|constructor]|].
  rewrite build_warnings_cons, fmap_app, fmap_cons.
  destruct (build_warnings_one v) as [->|(wn & -> & Hp & Hk)]; cbn.
  - split; [by apply sublist_cons|done].
  - rewrite Hp. split; [by apply sublist_skip|by constructor].
Qed.

(** The warning of an item of the pipeline. *)
Lemma build_warnings_shape idx url v :
  item_shape idx url v →
  (item_fine v ∧ _build_warnings [v] = [])
  ∨ (¬ item_fine v
     ∧ ∃ stage e,
         _build_warnings [v] = [warning idx url stage e]
         ∧ (stage = "apify" ∨ stage = "transcript" ∨ stage = "gemini_video_analysis")).
Proof.
  intros [(e & -> & _)|[(meta & -> & _)|(meta & n & a & -> & _ & _ & _ & Ha)]].
  - right. split; [by intros [? _]|]. eexists _, _. split; [done|]. by left.
  - right. split; [by intros [? _]|]. eexists _, _. split; [done|]. right. by left.
  - destruct Ha as [[text ->]|(e & text & ->)].
    + left. split; [|done]. split; [done|]. by exists text.
    + right. split; [by intros [_ [? ?]]|].
      eexists _, _. split; [done|]. right. by right.
Qed.

(** An item yields an evidence record exactly when it is fine; the loop
    can only raise in the reader of a parsed analysis. *)
Lemma collect_analyses_shape idx url v vs :
  item_shape idx url v →
  (¬ item_fine v → collect_analyses (v :: vs) = collect_analyses vs)
  ∧ (item_fine v →
       (∀ analyses, collect_analyses (v :: vs) = Ok analyses →
          ∃ a others, analyses = a :: others ∧ collect_analyses vs = Ok others
                      ∧ field "index" a = PInt idx ∧ field "url" a = PStr url)
       ∧ (∀ e, collect_analyses (v :: vs) = Raise e →
            collect_analyses vs = Raise e
            ∨ ∃ text p,
                get v "videoAnalysis" = PDict (analysis_ok text)
                ∧ _extract_json_from_text (Str.strip text) = PDict p
                ∧ get p "ok" = PBool true
                ∧ slim_of_parsed p = Raise e)).
Proof.
  intros [(e & -> & _)|[(meta & -> & _)|(meta & n & a & -> & _ & _ & _ & Ha)]].
  - split; [done|]. by intros [? _].
  - split; [done|]. by intros [? _].
  - destruct Ha as [[text ->]|(e & text & ->)].
    + split; [intros Hn; destruct Hn; split; [done|by exists text]|].
      intros _.
      assert (py_strip (por (get (analysis_ok text) "text") (PStr ""))
              = Ok (Str.strip text)) as Hs.
      { cbn. unfold por. cbn. destruct (String.eqb_spec text ""); by subst. }
      assert (por (PStr url) (PStr "") = PStr url) as Hu.
      { unfold por. cbn. destruct (String.eqb_spec url ""); by subst. }
      set (v := [ ("index", PInt idx); ("url", PStr url); ("ok", PBool true);
                  ("meta", PDict meta); ("transcript_chars", PInt n);
                  ("videoAnalysis", PDict (analysis_ok text)) ]).
      assert (∀ k, meta_get v k = Ok (get_or meta k (PStr ""))) as Hm.
      { intros k. unfold meta_get, v. by destruct meta. }
      cbn [collect_analyses]. change (get v "ok") with (PBool true).
      cbn [truthy negb].
      change (get v "videoAnalysis") with (PDict (analysis_ok text)).
      cbn match. change (get (analysis_ok text) "ok") with (PBool true).
      cbn [is_False]. rewrite Hs. cbn [mbind result_bind].
      rewrite !Hm.
      change (get v "index") with (PInt idx).
      change (get v "url") with (PStr url). rewrite Hu.
      destruct (_extract_json_from_text (Str.strip text)) as [| | | | | |p] eqn:Hp;
        cbn [mbind result_bind];
        try (destruct (collect_analyses vs) as [others|e'];
             cbn [mbind result_bind];
             (split; [intros ? [= <-]; by eexists _, _|intros ? [= <-]; by left])).
      destruct (get p "ok") as [|[]| | | | |] eqn:Hok; cbn [is_True];
        cbn [mbind result_bind];
        try (destruct (collect_analyses vs) as [others|e'];
             cbn [mbind result_bind];
             (split; [intros ? [= <-]; by eexists _, _|intros ? [= <-]; by left])).
      destruct (slim_of_parsed p) as [slim|e'] eqn:Hslim; cbn [mbind result_bind].
      * destruct (collect_analyses vs) as [others|e''];
          cbn [mbind result_bind];
          (split; [intros ? [= <-]; by eexists _, _|intros ? [= <-]; by left]).
      * split; [done|]. intros ? [= <-]. right. by eexists _, _.
    + split; [done|]. by intros [_ [? ?]].
Qed.

Lemma gathered_shapes req sched w :
  Forall2 (λ p v, item_shape p.1 p.2 v)
    (imap (λ i u, (Z.of_nat i + 1, u)) (request_urls req))
    (gather_videos req (request_urls req) sched w).1.
Proof.
  pose proof (gather_videos_leaves req (request_urls req) sched w) as Hl.
  apply Forall2_same_length_lookup. split.
  - apply Forall2_length in Hl. unfold tasks_of in Hl.
    rewrite length_imap in Hl. by rewrite length_imap.
  - intros k p v Hp Hv. rewrite list_lookup_imap in Hp.
    destruct (request_urls req !! k) as [u|] eqn:Hu; [|done].
    injection Hp as <-. cbn.
    destruct (Forall2_lookup_r _ _ _ _ _ Hl Hv) as (pr & Hpr & Hleaf).
    unfold tasks_of in Hpr. rewrite list_lookup_imap, Hu in Hpr.
    injection Hpr as <-. by eapply process_one_leaf_shape.
Qed.

Lemma shaped_warnings (pl : list (Z * string)) videos :
  Forall2 (λ p v, item_shape p.1 p.2 v) pl videos →
  Forall (λ wn, ∃ p stage e,
            p ∈ pl ∧ wn = warning p.1 p.2 stage e
            ∧ (stage = "apify" ∨ stage = "transcript"
               ∨ stage = "gemini_video_analysis"))
    (_build_warnings videos).
Proof.
  induction 1 as [|p v pl vs Hs _ IH]; [constructor|].
  rewrite build_warnings_cons. apply Forall_app. split.
  - destruct (build_warnings_shape _ _ _ Hs)
      as [[_ ->]|(_ & stage & e & -> & Hst)]; [constructor|].
    constructor; [|constructor]. exists p, stage, e.
    split; [apply list_elem_of_here|done].
  - eapply Forall_impl; [exact IH|]. intros wn (p' & stage & e & Hp & ?).
    exists p', stage, e. split; [by apply list_elem_of_further|done].
Qed.

Lemma shaped_warnings_nil (pl : list (Z * string)) videos :
  Forall2 (λ p v, item_shape p.1 p.2 v) pl videos →
  _build_warnings videos = [] ↔ Forall item_fine videos.
Proof.
  induction 1 as [|p v pl vs Hs _ IH]; [done|].
  rewrite build_warnings_cons, Forall_cons, <- IH.
  destruct (build_warnings_shape _ _ _ Hs)
    as [[Hf ->]|(Hn & stage & e & -> & _)]; cbn; [tauto|].
  split; [done|tauto].
Qed.

Lemma shaped_partition (pl : list (Z * string)) videos analyses :
  Forall2 (λ p v, item_shape p.1 p.2 v) pl videos →
  collect_analyses videos = Ok analyses →
  (place <$> _build_warnings videos)
    ++ ((λ a, (field "index" a, field "url" a)) <$> analyses)
  ≡ₚ (λ p, (PInt p.1, PStr p.2)) <$> pl.
Proof.
  intros Hs. revert analyses.
  induction Hs as [|p v pl vs Hs _ IH]; intros analyses Hc.
  - cbn in Hc. by injection Hc as <-.
  - rewrite build_warnings_cons.
    destruct (collect_analyses_shape _ _ _ vs Hs) as [Hskip Hfine].
    destruct (build_warnings_shape _ _ _ Hs)
      as [[Hf ->]|(Hn & stage & e & -> & _)].
    + destruct (Hfine Hf) as [Hok _].
      destruct (Hok _ Hc) as (a & others & -> & Hv & Hi & Hu).
      cbn. rewrite Hi, Hu, <- (IH _ Hv).
      by rewrite <- Permutation_middle.
    + rewrite (Hskip Hn) in Hc. cbn. by rewrite <- (IH _ Hc).
Qed.

Lemma shaped_places (pl : list (Z * string)) videos :
  Forall2 (λ p v, item_shape p.1 p.2 v) pl videos →
  place <$> videos = (λ p, (PInt p.1, PStr p.2)) <$> pl.
Proof.
  induction 1 as [|p v pl vs Hs _ IH]; [done|]. cbn. f_equal; [|done].
  destruct Hs as [(e & -> & _)|[(meta & -> & _)|(meta & n & a & -> & _)]]; done.
Qed.

Lemma shaped_raise (pl : list (Z * string)) videos e :
  Forall2 (λ p v, item_shape p.1 p.2 v) pl videos →
  collect_analyses videos = Raise e →
  ∃ v text p,
    v ∈ videos
    ∧ get v "videoAnalysis" = PDict (analysis_ok text)
    ∧ _extract_json_from_text (Str.strip text) = PDict p
    ∧ get p "ok" = PBool true
    ∧ slim_of_parsed p = Raise e.
Proof.
  induction 1 as [|p v pl vs Hs _ IH]; [done|]. intros Hc.
  assert (collect_analyses vs = Raise e →
          ∃ v0 text p0, v0 ∈ v :: vs
            ∧ get v0 "videoAnalysis" = PDict (analysis_ok text)
            ∧ _extract_json_from_text (Str.strip text) = PDict p0
            ∧ get p0 "ok" = PBool true ∧ slim_of_parsed p0 = Raise e) as Hrest.
  { intros (v0 & text & p0 & Hin & ?)%IH. exists v0, text, p0.
    split; [by apply list_elem_of_further|done]. }
  destruct (collect_analyses_shape _ _ _ vs Hs) as [Hskip Hfine].
  destruct (build_warnings_shape _ _ _ Hs) as [[Hf _]|[Hn _]].
  - destruct (Hfine Hf) as [_ Hr].
    destruct (Hr _ Hc) as [?|(text & p0 & ?)]; [by apply Hrest|].
    exists v, text, p0. split; [apply list_elem_of_here|done].
  - rewrite (Hskip Hn) in Hc. by apply Hrest.
Qed.

End WarningFacts.

(** X22. The warnings follow the items: each warning carries the index and
    the URL of an item, the warnings come in the order of their items, no
    item has two, and a warning has exactly the four fields index, url,
    stage and error. *)
Theorem warnings_follow_items (videos : list (list (string * pyval))) :
  (place <$> _build_warnings videos) `sublist_of` (place <$> videos)
  ∧ Forall (λ wn, wn.*1 = [ "index"; "url"; "stage"; "error" ])
      (_build_warnings videos).
Proof. apply build_warnings_follow. Qed.

(** X23. Every warning of a response belongs to a URL of the request: it
    carries that URL with its 1-based position, and its stage is one of
    apify, transcript and gemini_video_analysis. *)
Theorem response_warnings_staged `{Runtime} `{Templates} `{Config} `{Providers}
    (req : AnalyzeReq) (sched : list nat) (w : World) :
  let videos := (gather_videos req (request_urls req) sched w).1 in
  Forall (λ wn, ∃ k u stage e,
            request_urls req !! k = Some u
            ∧ wn = warning (Z.of_nat k + 1) u stage e
            ∧ (stage = "apify" ∨ stage = "transcript"
               ∨ stage = "gemini_video_analysis"))
    (_build_warnings videos).
Proof.
  intros videos.
  eapply Forall_impl; [exact (shaped_warnings _ _ (gathered_shapes req sched w))|].
  intros wn (p & stage & e & Hp & -> & Hst).
  apply list_elem_of_lookup in Hp as [k Hk]. rewrite list_lookup_imap in Hk.
  destruct (request_urls req !! k) as [u|] eqn:Hu; [|done].
  injection Hk as <-. by exists k, u, stage, e.
Qed.

(** X24. A response has no warning exactly when every item succeeded and
    the analysis of every item succeeded. *)
Theorem response_warnings_empty_iff `{Runtime} `{Templates} `{Config} `{Providers}
    (req : AnalyzeReq) (sched : list nat) (w : World) :
  let videos := (gather_videos req (request_urls req) sched w).1 in
  _build_warnings videos = [] ↔ Forall item_fine videos.
Proof. exact (shaped_warnings_nil _ _ (gathered_shapes req sched w)). Qed.

(** X25. Warnings and evidence records split the items: when the loop that
    collects the evidence for the channel profile completes, every item of
    the response has either a warning or an evidence record, never both,
    under its own index and URL. *)
Theorem evidence_partition `{Runtime} `{Templates} `{Config} `{Providers}
    (req : AnalyzeReq) (sched : list nat) (w : World) (analyses : list pyval) :
  let videos := (gather_videos req (request_urls req) sched w).1 in
  collect_analyses videos = Ok analyses →
  (place <$> _build_warnings videos)
    ++ ((λ a, (field "index" a, field "url" a)) <$> analyses)
  ≡ₚ place <$> videos.
Proof.
  intros videos Hc. pose proof (gathered_shapes req sched w) as Hs.
  fold videos in Hs. rewrite (shaped_places _ _ Hs). by eapply shaped_partition.
Qed.

Lemma evidence_partition_witness :
  let req := Sample.request ["https://a"; "https://b"] true in
  let w : @World Sample.scripted :=
    ([Sample.transcript_answer], [GenResponse (Some "{}")]) in
  let videos :=
    (@gather_videos Sample.runtime Sample.templates Sample.config Sample.scripted
       req (@request_urls Sample.runtime req) [1; 1]%nat w).1 in
  ∃ analyses,
    @collect_analyses Sample.runtime videos = Ok analyses
    ∧ (place <$> _build_warnings videos)
        ++ ((λ a, (field "index" a, field "url" a)) <$> analyses)
      ≡ₚ place <$> videos.
Proof.
  intros req w videos.
  eexists. split; [vm_compute; reflexivity|].
  apply (@evidence_partition Sample.runtime Sample.templates Sample.config
           Sample.scripted req [1; 1]%nat w).
  vm_compute; reflexivity.
Defined.

Section ReaderFacts.

Lemma por_sub_object v : sub_object v = true → ∃ d, por v (PDict []) = PDict d.
Proof.
  unfold sub_object, por. destruct (truthy v); [|by eexists].
  destruct v; try done. by eexists.
Qed.

Lemma por_not_sub_object v k :
  sub_object v = false → ∃ e, py_get (por v (PDict [])) k = Raise e.
Proof.
  unfold sub_object, por. destruct (truthy v); [|done].
  destruct v; try done; by eexists.
Qed.

Lemma slim_of_parsed_ok_iff parsed :
  (∃ slim, slim_of_parsed parsed = Ok slim)
  ↔ Forall (λ k, sub_object (get parsed k) = true) slim_sources.
Proof.
  unfold slim_of_parsed, slim_sources. cbv zeta.
  destruct (sub_object (get parsed "hook")) eqn:E1.
  2: { destruct (por_not_sub_object _ "summary" E1) as [? ->].
       split; [by intros [? ?]|]. intros HF.
       repeat (apply Forall_cons in HF as [? HF]). congruence. }
  destruct (por_sub_object _ E1) as [? ->]. cbn [py_get mbind result_bind].
  destruct (sub_object (get parsed "structure")) eqn:E2.
  2: { destruct (por_not_sub_object _ "template" E2) as [? ->].
       split; [by intros [? ?]|]. intros HF.
       repeat (apply Forall_cons in HF as [? HF]). congruence. }
  destruct (por_sub_object _ E2) as [? ->]. cbn [py_get mbind result_bind].
  destruct (sub_object (get parsed "style_tone")) eqn:E3.
  2: { destruct (por_not_sub_object _ "persona" E3) as [? ->].
       split; [by intros [? ?]|]. intros HF.
       repeat (apply Forall_cons in HF as [? HF]). congruence. }
  destruct (por_sub_object _ E3) as [? ->]. cbn [py_get mbind result_bind].
  destruct (sub_object (get parsed "expression_markers")) eqn:E4.
  2: { destruct (por_not_sub_object _ "punctuation" E4) as [? ->].
       split; [by intros [? ?]|]. intros HF.
       repeat (apply Forall_cons in HF as [? HF]). congruence. }
  destruct (por_sub_object _ E4) as [? ->]. cbn [py_get mbind result_bind].
  destruct (sub_object (get parsed "retention")) eqn:E5.
  2: { destruct (por_not_sub_object _ "recurring_devices" E5) as [? ->].
       split; [by intros [? ?]|]. intros HF.
       repeat (apply Forall_cons in HF as [? HF]). congruence. }
  destruct (por_sub_object _ E5) as [? ->]. cbn [py_get mbind result_bind].
  split; [|by eexists]. intros _. by repeat constructor.
Qed.

Lemma slim_of_parsed_raise parsed e :
  slim_of_parsed parsed = Raise e →
  ∃ k, k ∈ slim_sources ∧ sub_object (get parsed k) = false.
Proof.
  intros He.
  destruct (decide (Forall (λ k, sub_object (get parsed k) = true) slim_sources))
    as [HF|HF].
  - apply slim_of_parsed_ok_iff in HF as [slim Hs]. congruence.
  - apply not_Forall_Exists in HF; [|solve_decision].
    apply Exists_exists in HF as (k & Hk & Hn). exists k. split; [done|].
    cbn in Hn. by destruct (sub_object (get parsed k)).
Qed.

End ReaderFacts.

(** X26. The reader of a parsed analysis succeeds exactly when each of
    hook, structure, style_tone, expression_markers and retention is a
    dict or a falsy value; a non-empty string, a non-empty list or a
    non-zero number in one of these places makes it raise. The record it
    builds has the seven fields of the evidence format, and its list
    fields are never falsy values other than the empty list. *)
Theorem slim_of_parsed_succeeds_iff (parsed : list (string * pyval)) :
  ((∃ slim, slim_of_parsed parsed = Ok slim)
   ↔ Forall (λ k, sub_object (get parsed k) = true) slim_sources)
  ∧ ∀ slim, slim_of_parsed parsed = Ok slim →
      ∃ d, slim = PDict d
           ∧ d.*1 = [ "video_index"; "hook"; "structure"; "style_tone";
                      "expression_markers"; "retention"; "quotes" ]
           ∧ Forall (λ path, truthy (field path.2 (get d path.1)) = true
                             ∨ field path.2 (get d path.1) = PList [])
               [ ("hook", "techniques"); ("hook", "frames");
                 ("structure", "beats"); ("style_tone", "tone_keywords");
                 ("expression_markers", "punctuation");
                 ("expression_markers", "catchphrases");
                 ("retention", "recurring_devices") ].
Proof.
  split; [apply slim_of_parsed_ok_iff|].
  intros slim Hs.
  assert (∀ v, truthy (por v (PList [])) = true ∨ por v (PList []) = PList [])
    as Hor.
  { intros v. unfold por. destruct (truthy v) eqn:E; [by left|by right]. }
  assert (∃ slim', slim_of_parsed parsed = Ok slim') as HF by by exists slim.
  apply slim_of_parsed_ok_iff in HF.
  unfold slim_sources in HF.
  repeat (apply Forall_cons in HF as [?%por_sub_object HF]).
  unfold slim_of_parsed in Hs. cbv zeta in Hs.
  repeat match goal with H : ∃ d, por _ _ = PDict d |- _ =>
    let d := fresh "d" in let E := fresh "E" in
    destruct H as [d E]; rewrite E in Hs end.
  cbn [py_get mbind result_bind] in Hs. injection Hs as <-.
  eexists. split; [done|]. split; [done|].
  repeat (apply Forall_cons_2; [apply Hor|]). apply Forall_nil_2.
Qed.

(** X27. The handler lets an exception escape in two situations only. The
    concurrency of the request is negative; or a channel profile was asked
    for and the analysis of some item, accepted as valid, parses to an
    object marked ok whose hook, structure, style_tone, expression_markers
    or retention is neither a dict nor a falsy value. *)
Theorem uncaught_only_in_reader `{Runtime} `{Templates} `{Config} `{Providers}
    (req : AnalyzeReq) (sched : list nat) (w : World) (e : string) :
  (_analyze_impl req sched w).1 = Uncaught e →
  concurrency req < 0
  ∨ (0 < concurrency req ∧ make_channel_profile req = true
     ∧ ∃ v text p k,
         v ∈ (gather_videos req (request_urls req) sched w).1
         ∧ get v "videoAnalysis" = PDict (analysis_ok text)
         ∧ _extract_json_from_text (Str.strip text) = PDict p
         ∧ get p "ok" = PBool true
         ∧ k ∈ slim_sources ∧ sub_object (get p k) = false).
Proof.
  unfold _analyze_impl.
  destruct (request_urls req) as [|u us] eqn:Hus; [done|]. rewrite <- Hus.
  destruct (Z.ltb_spec (concurrency req) 0); [by left|].
  destruct (Z.eqb_spec (concurrency req) 0); [done|].
  pose proof (gathered_shapes req sched w) as Hs.
  destruct (gather_videos req (request_urls req) sched w) as [videos w1].
  cbn [fst] in *. unfold finish.
  destruct (make_channel_profile req); [|done].
  destruct (collect_analyses videos) as [analyses|e'] eqn:Hc.
  - rewrite run_bind. by destruct (run (synthesize analyses) w1) as [[? ?] ?].
  - cbn. intros [= <-]. right. split; [lia|]. split; [done|].
    destruct (shaped_raise _ _ _ Hs Hc) as (v & text & p & Hv & Ha & Hp & Hok & Hr).
    destruct (slim_of_parsed_raise _ _ Hr) as (k & Hk & Hn).
    by exists v, text, p, k.
Qed.

Lemma uncaught_only_in_reader_witness :
  let req := Sample.request ["https://a"] true in
  let w : @World Sample.scripted :=
    ([Sample.transcript_answer], [GenResponse (Some Sample.json_hook)]) in
  let e := "'str' object has no attribute 'get'" in
  (@_analyze_impl Sample.runtime Sample.templates Sample.config Sample.scripted
     req [] w).1 = Uncaught e
  ∧ (concurrency req < 0
     ∨ (0 < concurrency req ∧ make_channel_profile req = true
        ∧ ∃ v text p k,
            v ∈ (@gather_videos Sample.runtime Sample.templates Sample.config
                   Sample.scripted req (@request_urls Sample.runtime req) [] w).1
            ∧ get v "videoAnalysis" = PDict (analysis_ok text)
            ∧ @_extract_json_from_text Sample.runtime (Str.strip text) = PDict p
            ∧ get p "ok" = PBool true
            ∧ k ∈ slim_sources ∧ sub_object (get p k) = false)).
Proof.
  intros req w e.
  assert ((@_analyze_impl Sample.runtime Sample.templates Sample.config
             Sample.scripted req [] w).1 = Uncaught e) as He
    by (vm_compute; reflexivity).
  split; [exact He|].
  exact (@uncaught_only_in_reader Sample.runtime Sample.templates Sample.config
           Sample.scripted req [] w e He).
Defined.

(** * The endpoints *)

Section EndpointFacts.

Context `{Runtime} `{Templates} `{Config} `{Providers} `{Validation}.

Lemma finish_outcome req videos w :
  (∃ doc, (run (finish req videos) w).1.2 = Returned doc)
  ∨ ∃ e, (run (finish req videos) w).1.2 = Uncaught e.
Proof.
  unfold finish. destruct (make_channel_profile req); [|left; by eexists].
  destruct (collect_analyses videos) as [analyses|e]; [|right; by eexists].
  left. rewrite run_bind.
  destruct (run (synthesize analyses) w) as [[? ?] ?]. by eexists.
Qed.

Lemma analyze_impl_rejection req sched w code detail :
  (_analyze_impl req sched w).1 = HTTPException code detail →
  (_analyze_impl req sched w).2 = w ∧ code = 400 ∧ detail = "urls is empty".
Proof.
  unfold _analyze_impl.
  destruct (request_urls req) as [|u us]; [by intros [= <- <-]|].
  destruct (concurrency req <? 0); [done|].
  destruct (concurrency req =? 0); [done|].
  destruct (gather_videos req (u :: us) sched w) as [videos w1].
  pose proof (finish_outcome req videos w1) as Hf.
  destruct (run (finish req videos) w1) as [[log out] w2]. cbn in *.
  intros ->. by destruct Hf as [[? ?]|[? ?]].
Qed.

Lemma assoc_app k d d' :
  assoc k (d ++ d') = match assoc k d with Some v => Some v | None => assoc k d' end.
Proof.
  induction d as [|[k' v] d IH]; [done|]. cbn. by destruct (String.eqb k k').
Qed.

Lemma parse_body_outcome body :
  (∃ d, _parse_body_allow_string_json body = Returned d)
  ∨ ∃ detail, _parse_body_allow_string_json body = HTTPException 400 detail
              ∧ detail ∈ bad_request_details.
Proof.
  unfold _parse_body_allow_string_json, bad_request_details.
  destruct body as [| | | |s| |d']; try (right; eexists; split; [done|set_solver]).
  - destruct (json_loads s) as [[| | | | | |d']|];
      try (right; eexists; split; [done|set_solver]). left. by eexists.
  - left. by eexists.
Qed.

End EndpointFacts.

(** X28. [_parse_body_allow_string_json] returns a dict in two cases only:
    the body is that dict, or the body is a string that decodes to that
    dict. Every other body is refused with the status 400; a string is
    decoded once, so a string that decodes to a string is refused. *)
Theorem parse_body_cases `{Runtime} (body : pyval) :
  (∀ d, _parse_body_allow_string_json body = Returned d
        ↔ body = PDict d ∨ ∃ s, body = PStr s ∧ json_loads s = Some (PDict d))
  ∧ ((∃ d, _parse_body_allow_string_json body = Returned d)
     ∨ ∃ detail, _parse_body_allow_string_json body = HTTPException 400 detail).
Proof.
  unfold _parse_body_allow_string_json. split.
  - intros d. destruct body as [| | | |s| |d'];
      try (split; [done|by intros [?|(? & ? & ?)]]).
    + destruct (json_loads s) as [[| | | | | |d']|] eqn:Hs;
        try (split; [done|intros [?|(? & [= <-] & ?)]; congruence]).
      split.
      * intros [= <-]. right. by exists s.
      * intros [?|(? & [= <-] & ?)]; congruence.
    + split; [intros [= <-]; by left|]. intros [[= <-]|(? & ? & ?)]; done.
  - destruct body as [| | | |s| |d']; try (right; by eexists).
    + destruct (json_loads s) as [[| | | | | |d']|];
        try (right; by eexists). left. by eexists.
    + left. by eexists.
Qed.

(** X29. Every HTTP error of [analyze_and_profile], and so of [analyze], is
    raised before any provider is contacted, and is one of five: status
    400 for a body that is not JSON, for a string body that is not JSON,
    for a body that is not an object and for a request without usable
    URL; status 422, with the message of the validation, for a body the
    request model refuses. *)
Theorem endpoint_rejections `{Runtime} `{Templates} `{Config} `{Providers}
    `{Validation} (request_json : result pyval) (sched : list nat) (w : World)
    (code : Z) (detail : string) :
  (analyze request_json sched w).1 = HTTPException code detail →
  (analyze request_json sched w).2 = w
  ∧ (code = 400 ∧ detail ∈ bad_request_details
     ∨ code = 422
       ∧ ∃ body e, validate body = Raise e
                   ∧ detail = "Invalid request schema: " +:+ e).
Proof.
  unfold analyze, analyze_and_profile, bad_request_details.
  destruct request_json as [body|e].
  2: { intros [= <- <-]. split; [done|]. left. split; [done|]. set_solver. }
  destruct (parse_body_outcome body) as [[d Hd]|(detail' & Hd & Hin)];
    rewrite Hd.
  - destruct (validate (with_legacy_languages d)) as [req|e] eqn:Hv.
    + intros (-> & -> & ->)%analyze_impl_rejection. split; [done|]. left.
      split; [done|]. set_solver.
    + intros [= <- <-]. split; [done|]. right. split; [done|]. by eexists _, _.
  - intros [= <- <-]. split; [done|]. by left.
Qed.

Lemma endpoint_rejections_witness :
  let w : @World Sample.scripted :=
    ([Sample.transcript_answer], [GenResponse (Some "{}")]) in
  let request_json := Ok (PStr "{}") in
  let detail := "Invalid request schema: urls: Input should be a valid list" in
  (@analyze Sample.runtime Sample.templates Sample.config Sample.scripted
     sample_validation request_json [] w).1 = HTTPException 422 detail
  ∧ (@analyze Sample.runtime Sample.templates Sample.config Sample.scripted
       sample_validation request_json [] w).2 = w
  ∧ (422 = 400 ∧ detail ∈ bad_request_details
     ∨ 422 = 422
       ∧ ∃ body e, @validate sample_validation body = Raise e
                   ∧ detail = "Invalid request schema: " +:+ e).
Proof.
  intros w request_json detail.
  assert ((@analyze Sample.runtime Sample.templates Sample.config Sample.scripted
             sample_validation request_json [] w).1 = HTTPException 422 detail)
    as He by (vm_compute; reflexivity).
  split; [exact He|].
  exact (@endpoint_rejections Sample.runtime Sample.templates Sample.config
           Sample.scripted sample_validation request_json [] w 422 detail He).
Defined.

(** X30. The compatibility step of [analyze_and_profile] touches the key
    languages only: every other key keeps its presence and its value. The
    value read under languages afterwards is the one the body had there,
    and the one of languages_priority when the body had none. *)
Theorem legacy_languages_key (body : list (string * pyval)) :
  (∀ k, k ≠ "languages" →
        get (with_legacy_languages body) k = get body k
        ∧ has_key (with_legacy_languages body) k = has_key body k)
  ∧ get (with_legacy_languages body) "languages"
    = (if has_key body "languages" then get body "languages"
       else get body "languages_priority")
  ∧ has_key (with_legacy_languages body) "languages"
    = has_key body "languages" || has_key body "languages_priority".
Proof.
  unfold with_legacy_languages, has_key, get, get_or.
  destruct (assoc "languages_priority" body) as [lp|] eqn:Hlp;
    destruct (assoc "languages" body) as [l|] eqn:Hl; cbn [andb negb orb];
    rewrite ?Hl, ?Hlp; try (split; [done|split; done]).
  split; [|split].
  - intros k Hk. rewrite assoc_app. cbn.
    destruct (String.eqb_spec k "languages"); [done|].
    by destruct (assoc k body).
  - by rewrite assoc_app, Hl.
  - by rewrite assoc_app, Hl.
Qed.
